(** * Background remover: the pixel pipeline of [apiService.js] and
      [imageProcessing.js]

    The development embeds the image-processing core of the repository:
    file validation, the dimension gate, the resize computation, the
    background estimators, the two alpha-matching loops, the grayscale
    conversion and the Sobel filter, and proves the properties C1 to C10 of
    its specification, or corrects them.

    Numbers.  A JavaScript number is a binary64 double.
    - Bytes, indices, counters, dimensions and sums of bytes are integers far
      below 2^53; they are modelled in [Z], where the double arithmetic of the
      source is exact.
    - Quotients ([rSum / validSamples], [(i + 4) / data.length],
      [originalHeight / originalWidth], ...) are taken exactly, in [Q], and
      [Math.floor] and [Math.round] on the exact value: the rounding of the
      double division and multiplication is idealised (the mean of eight
      samples, a division by 8, is exact in doubles too).  What is proved
      about the progress values of [removeBackground] rests on the guards of
      the source, not on the value of the quotient.
    - A square root is never computed: the value [Math.sqrt(s)] is kept as
      its radicand [s] and compared exactly ([sqrt s < t] iff [0 < t] and
      [s < t * t]).
    - The luminosity formula [0.299 * r + 0.587 * g + 0.114 * b] is the one
      place where the rounding of doubles decides the result on ordinary
      inputs (the three constants are not doubles and their sum is not 1);
      it is evaluated in binary64 with the primitive floats of the kernel.
    - [NaN] and [undefined] are [None]: reading a typed array outside its
      bounds gives [undefined], arithmetic on it gives [NaN], every comparison
      with [NaN] is false, and storing [NaN] in a [Uint8ClampedArray] stores 0.

    Arrays.  [ImageData.data] is a [Uint8ClampedArray]: a flat list of bytes,
    four per pixel (R, G, B, A), of fixed length.  A loop that mutates it in
    place is a function from the old contents to the new contents; a write
    outside the bounds is ignored, as in the source.  Where a function
    allocates objects ([applySobelFilter]), the objects live in a store and
    are named by references. *)

From Stdlib Require Import ZArith QArith Qround Lia Lqa ZifyNat.
From Stdlib Require Import Reals Qreals Lra.
From Stdlib Require Import Floats.PrimFloat Floats.SpecFloat Floats.FloatOps.
From Stdlib Require Import Numbers.Cyclic.Int63.Uint63.
From stdpp Require Import base option list list_numbers strings.

Local Open Scope Z_scope.

(** ** JavaScript numbers *)

Module Js.

(** A number that may be [NaN]. *)
Definition number := option Q.

Definition ofZ (z : Z) : number := Some (inject_Z z).

(** [undefined] read from an array becomes [NaN] in arithmetic. *)
Definition ofByte (v : option Z) : number := inject_Z <$> v.

Definition lift2 (f : Q → Q → Q) (x y : number) : number :=
  match x, y with
  | Some a, Some b => Some (f a b)
  | _, _ => None
  end.

Definition add : number → number → number := lift2 Qplus.
Definition sub : number → number → number := lift2 Qminus.
Definition mul : number → number → number := lift2 Qmult.

(** [Math.pow(x, 2)]. *)
Definition pow2 (x : number) : number := mul x x.

(** [x / y] for a divisor that is not zero ([0 / 0] is [NaN]; the source
    divides by a count, a length or a dimension that it has checked). *)
Definition div (x y : number) : number :=
  match x, y with
  | Some a, Some b => if Qeq_bool b 0 then None else Some (a / b)%Q
  | _, _ => None
  end.

(** [a % m === 0] for integers: [a % 0] is [NaN]. *)
Definition divides (m a : Z) : bool :=
  if m =? 0 then false else a mod m =? 0.

Definition Qltb (a b : Q) : bool := negb (Qle_bool b a).

(** [Math.round]: the nearest integer, a tie going up. *)
Definition round (q : Q) : Z := Qfloor (q + (1 # 2))%Q.

(** [Math.floor]. *)
Definition floor (q : Q) : Z := Qfloor q.

(** [Math.sqrt(s) < t] on the exact values. *)
Definition sqrt_lt (s t : number) : bool :=
  match s, t with
  | Some s, Some t => Qle_bool 0 s && Qltb 0 t && Qltb s (t * t)%Q
  | _, _ => false
  end.

(** [Math.sqrt(s) <= t] on the exact values. *)
Definition sqrt_le (s t : number) : bool :=
  match s, t with
  | Some s, Some t => Qle_bool 0 s && Qle_bool 0 t && Qle_bool s (t * t)%Q
  | _, _ => false
  end.

(** [Math.round(Math.sqrt(n))] for an integer [n]: the root lies strictly
    between two half-integers, so the double rounds as the real does. *)
Definition round_sqrt (n : Z) : Z :=
  let s := Z.sqrt n in
  if s * s + s <? n then s + 1 else s.

(** A byte converted to a double. *)
Definition toFloat (z : Z) : float := PrimFloat.of_uint63 (Uint63.of_Z z).

(** [Math.round] of a double, [None] for [NaN] and the infinities. *)
Definition roundFloat (x : float) : option Z :=
  match Prim2SF x with
  | S754_zero _ => Some 0
  | S754_finite s m e =>
      let v := if s then Z.neg m else Z.pos m in
      Some (if 0 <=? e then v * 2 ^ e
            else (2 * v + 2 ^ (- e)) / 2 ^ (- e + 1))
  | S754_infinity _ => None
  | S754_nan => None
  end.

End Js.

(** ** Typed arrays *)

(** [data[i]]: [None] is [undefined]. *)
Definition readAt (data : list Z) (i : Z) : option Z :=
  if i <? 0 then None else data !! Z.to_nat i.

(** The conversion of a number stored in a [Uint8ClampedArray]. *)
Definition toUint8Clamp (v : option Z) : Z :=
  match v with
  | Some z => Z.min 255 (Z.max 0 z)
  | None => 0
  end.

(** [data[i] = v] for an integer or [NaN] [v]; ignored out of bounds. *)
Definition writeAt (data : list Z) (i : Z) (v : option Z) : list Z :=
  if i <? 0 then data else <[Z.to_nat i := toUint8Clamp v]> data.

(** [data.length]. *)
Definition len (data : list Z) : Z := Z.of_nat (length data).

(** The pixel numbers visited by [for (let i = 0; i < data.length; i += 4)]:
    iteration [k] runs with [i = 4 * k]. *)
Definition pixelIterations (data : list Z) : list nat :=
  seq 0 (Z.to_nat ((len data + 3) / 4)).

(** ** Errors and results *)

Inductive Error : Type :=
  | EmptyCandidate        (* "No image file provided." / "No file selected." *)
  | InvalidInput          (* "Invalid input: Expected a File object." *)
  | InvalidType           (* "Invalid file type: ..." *)
  | FileTooLarge          (* "File is too large (...)" *)
  | ReadError             (* FileReader failed or gave no string *)
  | DecodeError           (* "Failed to load the image. ..." *)
  | ZeroDimension         (* "Image has zero dimensions. ..." *)
  | DimensionTooLarge     (* "Image dimension (...) exceeds the maximum ..." *)
  | TooManyPixels         (* "Image resolution (...) is too high ..." *)
  | ContextUnavailable    (* "Failed to get canvas 2D context. ..." *)
  | ProcessingTimeout     (* "Image processing took too long and was aborted ..." *)
  | NullTarget            (* TypeError: reading [r] of [null] *)
  | RangeError.           (* [TypedArray.set] with a source that does not fit *)

Inductive result (A : Type) : Type :=
  | Ok (a : A)
  | Throw (e : Error).
Arguments Ok {A} a.
Arguments Throw {A} e.

(** How a loop over an array ends: the state it reached, and the error when
    the body threw.  What the loop wrote before it threw stays written. *)
Inductive outcome (S : Type) : Type :=
  | Completed (s : S)
  | Aborted (e : Error) (s : S).
Arguments Completed {S} s.
Arguments Aborted {S} e s.

(** A [for] loop whose body may throw. *)
Fixpoint forLoop {S I} (body : I → S → result S) (its : list I) (s : S)
    : outcome S :=
  match its with
  | [] => Completed s
  | i :: rest =>
      match body i s with
      | Ok s' => forLoop body rest s'
      | Throw e => Aborted e s
      end
  end.

(** ** Colors *)

Record Rgb : Type := mkRgb { red : Js.number; green : Js.number; blue : Js.number }.

(** [calculateRgbDistance]: the value is the square root of the number
    returned here. *)
Definition calculateRgbDistance (color1 color2 : Rgb) : Js.number :=
  Js.add (Js.add (Js.pow2 (Js.sub (red color1) (red color2)))
                 (Js.pow2 (Js.sub (green color1) (green color2))))
         (Js.pow2 (Js.sub (blue color1) (blue color2))).

(** The color of the pixel that starts at index [i]. *)
Definition pixelRgb (data : list Z) (i : Z) : Rgb :=
  mkRgb (Js.ofByte (readAt data i))
        (Js.ofByte (readAt data (i + 1)))
        (Js.ofByte (readAt data (i + 2))).

(** ** [removeBackground] (apiService.js): estimate and match *)

Definition MAX_DIMENSION_SIDE : Z := 8000.
Definition MAX_TOTAL_IMAGE_PIXELS : Z := 30000000.

(** The eight sample points: corners and edge midpoints. *)
Definition samplePoints (width height : Z) : list (Z * Z) :=
  [ (0, 0); (width - 1, 0);
    (0, height - 1); (width - 1, height - 1);
    (width / 2, 0); (width / 2, height - 1);
    (0, height / 2); (width - 1, height / 2) ].

(** [rSum], [gSum], [bSum] and [validSamples]; a sum is [NaN] once an
    [undefined] was added to it. *)
Record Sums : Type := mkSums {
  rSum : option Z;
  gSum : option Z;
  bSum : option Z;
  validSamples : Z
}.

Definition addByte (sum v : option Z) : option Z :=
  match sum, v with
  | Some s, Some b => Some (s + b)
  | _, _ => None
  end.

Definition noSums : Sums := mkSums (Some 0) (Some 0) (Some 0) 0.

(** The body of [samplePoints.forEach]. *)
Definition sampleStep (data : list Z) (width height : Z)
    (acc : Sums) (p : Z * Z) : Sums :=
  let R_OFFSET :=
    (Z.min (snd p) (height - 1) * width + Z.min (fst p) (width - 1)) * 4 in
  if R_OFFSET + 3 <? len data then
    mkSums (addByte (rSum acc) (readAt data R_OFFSET))
           (addByte (gSum acc) (readAt data (R_OFFSET + 1)))
           (addByte (bSum acc) (readAt data (R_OFFSET + 2)))
           (validSamples acc + 1)
  else acc.

Definition sampleSums (data : list Z) (width height : Z)
    (points : list (Z * Z)) : Sums :=
  fold_left (sampleStep data width height) points noSums.

(** [validSamples > 0 ? sum / validSamples
                      : (data.length > k ? data[k] : 0)]. *)
Definition averageOrFirst (data : list Z) (sum : option Z) (valid : Z)
    (k : Z) : Js.number :=
  if 0 <? valid then Js.div (Js.ofByte sum) (Js.ofZ valid)
  else if k <? len data then Js.ofByte (readAt data k)
  else Js.ofZ 0.

(** [avgBgR], [avgBgG], [avgBgB] for a list of sample points. *)
Definition averageBackground (data : list Z) (width height : Z)
    (points : list (Z * Z)) : Rgb :=
  let s := sampleSums data width height points in
  mkRgb (averageOrFirst data (rSum s) (validSamples s) 0)
        (averageOrFirst data (gSum s) (validSamples s) 1)
        (averageOrFirst data (bSum s) (validSamples s) 2).

(** The state of the pixel loop: the array, the two counters and the
    values passed to [onProgress] so far, oldest first. *)
Record MatchState : Type := mkMatchState {
  pixels : list Z;
  iterations : Z;
  lastReportedPixelProgress : Z;
  reported : list Z
}.

(** One iteration of the pixel loop, at [i = 4 * k], for the values
    [tolerance] of [colorMatchTolerance] and [ceiling] of
    [MAX_ITERATIONS]. *)
Definition matchStep (avgBg : Rgb) (tolerance : Js.number) (ceiling : Z)
    (onProgress : bool) (k : nat) (st : MatchState) : result MatchState :=
  let i := 4 * Z.of_nat k in
  let data := pixels st in
  let iterations := iterations st + 1 in
  if ceiling <? iterations then Throw ProcessingTimeout
  else
    let diff := calculateRgbDistance (pixelRgb data i) avgBg in
    let data' :=
      if Js.sqrt_lt diff tolerance
      then writeAt data (i + 3) (Some 0) else data in
    let currentTotalProgress :=
      30 + Js.floor (inject_Z (i + 4) / inject_Z (len data) * 60)%Q in
    if onProgress && (0 <? len data)
       && Js.divides (len data / 400) (i / 4)
       && (lastReportedPixelProgress st <? currentTotalProgress)
       && (currentTotalProgress <=? 90)
    then Ok (mkMatchState data' iterations currentTotalProgress
               (reported st ++ [currentTotalProgress]))
    else Ok (mkMatchState data' iterations (lastReportedPixelProgress st)
               (reported st)).

(** The pixel loop, entered with [iterations = 0] and
    [lastReportedPixelProgress = 30]. *)
Definition matchLoop (avgBg : Rgb) (tolerance : Js.number) (ceiling : Z)
    (onProgress : bool) (data : list Z) (reportedSoFar : list Z)
    : outcome MatchState :=
  forLoop (matchStep avgBg tolerance ceiling onProgress)
    (pixelIterations data)
    (mkMatchState data 0 30 reportedSoFar).

(** [MAX_TOTAL_IMAGE_PIXELS * 1.5], the ceiling on the iterations. *)
Definition MAX_ITERATIONS : Z := MAX_TOTAL_IMAGE_PIXELS * 3 / 2.

(** The tolerance of [removeBackground]. *)
Definition colorMatchTolerance : Js.number := Js.ofZ 45.

(** [if (onProgress) onProgress(v)]. *)
Definition report (onProgress : bool) (trace : list Z) (v : Z) : list Z :=
  if onProgress then trace ++ [v] else trace.

(** The body of the [try] block, after [getImageData]: estimate the
    background, run the pixel loop, report 95 and 100.  The second
    component is the sequence of values passed to [onProgress]. *)
Definition processImageData (onProgress : bool) (width height : Z)
    (data : list Z) (reportedSoFar : list Z) : result (list Z) * list Z :=
  let avgBg := averageBackground data width height (samplePoints width height) in
  let trace := report onProgress reportedSoFar 30 in
  match matchLoop avgBg colorMatchTolerance MAX_ITERATIONS onProgress data trace with
  | Aborted e st => (Throw e, reported st)
  | Completed st =>
      let trace := report onProgress (reported st) 95 in
      let trace := report onProgress trace 100 in
      (Ok (pixels st), trace)
  end.

(** ** Pixel utilities (imageProcessing.js) *)

(** [sampleAverageColor]: [None] is [null].  A sample point is a pair of
    numbers; it is floored before the bounds test. *)
Definition sampleColorStep (data : list Z) (width height : Z)
    (acc : Sums) (p : Q * Q) : Sums :=
  let currentX := Js.floor (fst p) in
  let currentY := Js.floor (snd p) in
  if (0 <=? currentX) && (currentX <? width)
     && (0 <=? currentY) && (currentY <? height)
  then
    let index := (currentY * width + currentX) * 4 in
    if index + 2 <? len data then
      mkSums (addByte (rSum acc) (readAt data index))
             (addByte (gSum acc) (readAt data (index + 1)))
             (addByte (bSum acc) (readAt data (index + 2)))
             (validSamples acc + 1)
    else acc
  else acc.

(** [Math.round(sum / validSamples)]. *)
Definition roundedAverage (sum : option Z) (valid : Z) : Js.number :=
  (λ q, inject_Z (Js.round q)) <$> Js.div (Js.ofByte sum) (Js.ofZ valid).

Definition sampleAverageColor (data : list Z) (width height : Z)
    (samplePoints : list (Q * Q)) : option Rgb :=
  let s := fold_left (sampleColorStep data width height) samplePoints noSums in
  if validSamples s =? 0 then None
  else Some (mkRgb (roundedAverage (rSum s) (validSamples s))
                   (roundedAverage (gSum s) (validSamples s))
                   (roundedAverage (bSum s) (validSamples s))).

(** The state of the loop of [manipulateAlphaByColorMatch]. *)
Record AlphaState : Type := mkAlphaState {
  alphaData : list Z;
  lastReportedProgress : Z;
  alphaReported : list Z
}.

(** One iteration, at [i = 4 * k]. *)
Definition alphaStep (targetRgb : Rgb) (tolerance : Js.number)
    (onProgress : bool) (k : nat) (st : AlphaState) : AlphaState :=
  let i := 4 * Z.of_nat k in
  let data := alphaData st in
  let distance := calculateRgbDistance (pixelRgb data i) targetRgb in
  let data' :=
    if Js.sqrt_le distance tolerance
    then writeAt data (i + 3) (Some 0) else data in
  let processedPixels := i / 4 + 1 in
  let progress :=
    Js.floor (inject_Z processedPixels / (inject_Z (len data) / 4) * 100)%Q in
  if onProgress && (lastReportedProgress st <? progress)
  then mkAlphaState data' progress (alphaReported st ++ [progress])
  else mkAlphaState data' (lastReportedProgress st) (alphaReported st).

(** [manipulateAlphaByColorMatch]: the new contents of [imageData.data]
    and the values passed to [onProgress]. *)
Definition manipulateAlphaByColorMatch (data : list Z) (targetRgb : Rgb)
    (tolerance : Js.number) (onProgress : bool) : list Z * list Z :=
  let st := fold_left (λ st k, alphaStep targetRgb tolerance onProgress k st)
              (pixelIterations data) (mkAlphaState data (-1) []) in
  let trace :=
    if onProgress && (lastReportedProgress st <? 100) && (0 <? len data)
    then alphaReported st ++ [100]
    else if onProgress && (len data =? 0)
    then alphaReported st ++ [100]
    else alphaReported st in
  (alphaData st, trace).

Set Warnings "-inexact-float".

(** [Math.round(0.299 * r + 0.587 * g + 0.114 * b)] in binary64. *)
Definition luminosity (r g b : option Z) : option Z :=
  match r, g, b with
  | Some r, Some g, Some b =>
      Js.roundFloat (0.299 * Js.toFloat r + 0.587 * Js.toFloat g
                     + 0.114 * Js.toFloat b)%float
  | _, _, _ => None
  end.

Set Warnings "+inexact-float".

(** One iteration of [convertToGrayscaleInPlace], at [i = 4 * k]. *)
Definition grayscaleStep (data : list Z) (k : nat) : list Z :=
  let i := 4 * Z.of_nat k in
  let grayscale :=
    luminosity (readAt data i) (readAt data (i + 1)) (readAt data (i + 2)) in
  let data := writeAt data i grayscale in
  let data := writeAt data (i + 1) grayscale in
  writeAt data (i + 2) grayscale.

(** [convertToGrayscaleInPlace]: the new contents of [imageData.data]. *)
Definition convertToGrayscaleInPlace (data : list Z) : list Z :=
  fold_left grayscaleStep (pixelIterations data) data.

Definition SOBEL_X_KERNEL : list (list Z) :=
  [ [-1; 0; 1];
    [-2; 0; 2];
    [-1; 0; 1] ].

Definition SOBEL_Y_KERNEL : list (list Z) :=
  [ [-1; -2; -1];
    [0; 0; 0];
    [1; 2; 1] ].

Definition mulByte (a b : option Z) : option Z :=
  match a, b with
  | Some x, Some y => Some (x * y)
  | _, _ => None
  end.

(** [kernel[ky + 1][kx + 1]]. *)
Definition kernelAt (kernel : list (list Z)) (ky kx : Z) : option Z :=
  row ← kernel !! Z.to_nat (ky + 1); row !! Z.to_nat (kx + 1).

(** The body of the two kernel loops. *)
Definition convolutionStep (sourceData : list Z) (x y width height : Z)
    (kernel : list (list Z)) (ky : Z) (sum : option Z) (kx : Z) : option Z :=
  let pixelX := Z.min (width - 1) (Z.max 0 (x + kx)) in
  let pixelY := Z.min (height - 1) (Z.max 0 (y + ky)) in
  let pixelIndex := (pixelY * width + pixelX) * 4 in
  let pixelValue := readAt sourceData pixelIndex in
  let kernelValue := kernelAt kernel ky kx in
  addByte sum (mulByte pixelValue kernelValue).

Definition _applyConvolutionKernelToGrayscale (sourceData : list Z)
    (x y width height : Z) (kernel : list (list Z)) : option Z :=
  fold_left
    (λ sum ky,
       fold_left (convolutionStep sourceData x y width height kernel ky)
         [-1; 0; 1] sum)
    [-1; 0; 1] (Some 0).

(** [Math.min(255, Math.max(0, Math.round(Math.sqrt(gx * gx + gy * gy))))]. *)
Definition clampedMagnitude (gx gy : option Z) : option Z :=
  (λ n, Z.min 255 (Z.max 0 (Js.round_sqrt n)))
    <$> addByte (mulByte gx gx) (mulByte gy gy).

(** The body of the [x] loop of [applySobelFilter]. *)
Definition sobelStep (grayscaleData : list Z) (width height : Z) (y : Z)
    (outputData : list Z) (x : Z) : list Z :=
  let gx := _applyConvolutionKernelToGrayscale grayscaleData x y width height
              SOBEL_X_KERNEL in
  let gy := _applyConvolutionKernelToGrayscale grayscaleData x y width height
              SOBEL_Y_KERNEL in
  let m := clampedMagnitude gx gy in
  let outputIndex := (y * width + x) * 4 in
  let outputData := writeAt outputData outputIndex m in
  let outputData := writeAt outputData (outputIndex + 1) m in
  let outputData := writeAt outputData (outputIndex + 2) m in
  writeAt outputData (outputIndex + 3) (Some 255).

(** The [y] and [x] loops of [applySobelFilter]. *)
Definition sobelLoops (grayscaleData : list Z) (width height : Z)
    (outputData : list Z) : list Z :=
  fold_left
    (λ out y, fold_left (sobelStep grayscaleData width height y)
                (seqZ 0 width) out)
    (seqZ 0 height) outputData.

(** ** The store of [ImageData] objects *)

Module ImageData.
Record t : Type := mk { width : Z; height : Z; data : list Z }.
End ImageData.

(** The objects allocated so far; a reference is a position. *)
Abbreviation store := (list ImageData.t).

(** [createImageData(width, height)] and [new ImageData(width, height)]:
    a fresh object of transparent black.  (A browser refuses a width or a
    height of 0; here the array is then empty.) *)
Definition createImageData (width height : Z) (σ : store) : store * nat :=
  (σ ++ [ImageData.mk width height (replicate (Z.to_nat (width * height * 4)) 0)],
   length σ).

(** [target.set(source)] on typed arrays: the source must fit. *)
Definition typedArraySet (target source : list Z) : result (list Z) :=
  if (length target <? length source)%nat then Throw RangeError
  else Ok (source ++ drop (length source) target).

(** Replace the array of the object at [ref]. *)
Definition setData (ref : nat) (data : list Z) (σ : store) : store :=
  alter (λ img, ImageData.mk (ImageData.width img) (ImageData.height img) data)
    ref σ.

Definition dataOf (σ : store) (ref : nat) : list Z :=
  from_option ImageData.data [] (σ !! ref).

(** The fill loop used when there is no source: opaque black. *)
Definition fillOpaqueBlackStep (data : list Z) (k : nat) : list Z :=
  let i := 4 * Z.of_nat k in
  let data := writeAt data i (Some 0) in
  let data := writeAt data (i + 1) (Some 0) in
  let data := writeAt data (i + 2) (Some 0) in
  writeAt data (i + 3) (Some 255).

(** [applySobelFilter].  [sourceImageData] is a reference or [null];
    [context2d] tells whether [getContext("2d")] gave a context.  The result
    is the reference of the new object, in the new store. *)
Definition applySobelFilter (sourceImageData : option nat) (width height : Z)
    (context2d : bool) (σ : store) : result nat * store :=
  if negb context2d then
    let '(σ, fallbackImageData) := createImageData width height σ in
    match sourceImageData with
    | Some src =>
        match typedArraySet (dataOf σ fallbackImageData) (dataOf σ src) with
        | Ok d => (Ok fallbackImageData, setData fallbackImageData d σ)
        | Throw e => (Throw e, σ)
        end
    | None => (Ok fallbackImageData, σ)
    end
  else
    let '(σ, grayscaleImageData) := createImageData width height σ in
    let filled :=
      match sourceImageData with
      | Some src =>
          match typedArraySet (dataOf σ grayscaleImageData) (dataOf σ src) with
          | Ok d =>
              Ok (setData grayscaleImageData (convertToGrayscaleInPlace d) σ)
          | Throw e => Throw e
          end
      | None =>
          let d := dataOf σ grayscaleImageData in
          Ok (setData grayscaleImageData
                (fold_left fillOpaqueBlackStep (pixelIterations d) d) σ)
      end in
    match filled with
    | Throw e => (Throw e, σ)
    | Ok σ =>
        let grayscaleData := dataOf σ grayscaleImageData in
        let '(σ, outputImageData) := createImageData width height σ in
        let outputData := dataOf σ outputImageData in
        (Ok outputImageData,
         setData outputImageData
           (sobelLoops grayscaleData width height outputData) σ)
    end.

(** ** Validation *)

Module File.
(** What the bytes of a file decode to. *)
Inductive content : Type :=
  | Corrupt
  | Picture (naturalWidth naturalHeight : Z) (rgba : list Z).

Record t : Type := mk { type : string; size : Z; bytes : content }.
End File.

(** The argument of the validators: [null] or [undefined], an object that
    is not an instance of [File], or a [File]. *)
Inductive Candidate : Type :=
  | Missing
  | NotFile (f : File.t)
  | IsFile (f : File.t).

(** [array.includes(s)] on strings. *)
Fixpoint includes (array : list string) (s : string) : bool :=
  match array with
  | [] => false
  | t :: rest => String.eqb t s || includes rest s
  end.

(** [validateImage] (apiService.js). *)
Definition validateImage (file : Candidate) : result bool :=
  match file with
  | Missing => Throw EmptyCandidate
  | NotFile f | IsFile f =>
      let validTypes := ["image/jpeg"; "image/png"; "image/webp"; "image/jpg"]%string in
      if negb (includes validTypes (File.type f)) then Throw InvalidType
      else
        let maxSizeInBytes := 20 * 1024 * 1024 in
        if maxSizeInBytes <? File.size f then Throw FileTooLarge
        else Ok true
  end.

Definition MAX_PROCESSING_DIMENSION_SIDE : Z := 4000.
Definition MAX_FILE_SIZE_BYTES : Z := 15 * 1024 * 1024.
Definition VALID_IMAGE_TYPES : list string :=
  ["image/jpeg"; "image/png"; "image/webp"; "image/jpg"]%string.

(** The [options] object of [validateImageFile]: an absent property takes
    its default. *)
Record ValidationOptions : Type := mkValidationOptions {
  maxFileSize : option Z;
  allowedTypes : option (list string)
}.

(** [validateImageFile] (imageProcessing.js). *)
Definition validateImageFile (file : Candidate) (options : ValidationOptions)
    : result bool :=
  let maxFileSize := default MAX_FILE_SIZE_BYTES (maxFileSize options) in
  let allowedTypes := default VALID_IMAGE_TYPES (allowedTypes options) in
  match file with
  | Missing => Throw EmptyCandidate
  | NotFile _ => Throw InvalidInput
  | IsFile f =>
      if negb (includes allowedTypes (File.type f)) then Throw InvalidType
      else if maxFileSize <? File.size f then Throw FileTooLarge
      else Ok true
  end.

(** ** Resizing (step 3 of [ensureProcessableImage]) *)

(** [newWidth], [newHeight] and [wasResized]. *)
Definition resizeDimensions (originalWidth originalHeight targetMaxSide : Z)
    : Z * Z * bool :=
  if (targetMaxSide <? originalWidth) || (targetMaxSide <? originalHeight)
  then
    let '(newWidth, newHeight) :=
      if originalHeight <? originalWidth then
        (targetMaxSide,
         Js.round (inject_Z originalHeight / inject_Z originalWidth
                   * inject_Z targetMaxSide)%Q)
      else
        (Js.round (inject_Z originalWidth / inject_Z originalHeight
                   * inject_Z targetMaxSide)%Q,
         targetMaxSide) in
    (Z.max 1 newWidth, Z.max 1 newHeight, true)
  else (originalWidth, originalHeight, false).

(** ** The dimension gate and the whole of [removeBackground] *)

(** The three checks at the head of [img.onload]. *)
Definition checkDimensions (naturalWidth naturalHeight : Z) : result unit :=
  if (naturalWidth =? 0) || (naturalHeight =? 0) then Throw ZeroDimension
  else if (MAX_DIMENSION_SIDE <? naturalWidth)
          || (MAX_DIMENSION_SIDE <? naturalHeight)
  then Throw DimensionTooLarge
  else
    let totalPixels := naturalWidth * naturalHeight in
    if MAX_TOTAL_IMAGE_PIXELS <? totalPixels then Throw TooManyPixels
    else Ok ().

(** [ctx.getImageData(0, 0, canvas.width, canvas.height)] after the image
    was drawn: the canvas has exactly [width * height] pixels. *)
Definition getImageData (width height : Z) (rgba : list Z) : list Z :=
  let n := Z.to_nat (width * height * 4) in
  take n (rgba ++ replicate n 0).

(** What the browser does with the file. *)
Record Browser : Type := mkBrowser {
  readerGivesString : bool;   (* [reader.onload] with a string result *)
  context2d : bool            (* [canvas.getContext("2d")] is not null *)
}.

(** [removeBackground]: how the promise settles (the pixels that were
    encoded, or the rejection) and the values passed to [onProgress]. *)
Definition removeBackground (imageFile : Candidate) (onProgress : bool)
    (browser : Browser) : result (list Z) * list Z :=
  match imageFile with
  | Missing => (Throw EmptyCandidate, [])
  | NotFile f | IsFile f =>
      match validateImage imageFile with
      | Throw e => (Throw e, [])
      | Ok _ =>
          match imageFile with
          | IsFile _ =>
              if negb (readerGivesString browser) then (Throw ReadError, [])
              else
                match File.bytes f with
                | File.Corrupt => (Throw DecodeError, [])
                | File.Picture naturalWidth naturalHeight rgba =>
                    match checkDimensions naturalWidth naturalHeight with
                    | Throw e => (Throw e, [])
                    | Ok _ =>
                        let trace := report onProgress [] 10 in
                        if negb (context2d browser)
                        then (Throw ContextUnavailable, trace)
                        else
                          let trace := report onProgress trace 20 in
                          processImageData onProgress naturalWidth
                            naturalHeight
                            (getImageData naturalWidth naturalHeight rgba)
                            trace
                    end
                end
          | _ => (Throw ReadError, [])
          end
      end
  end.

(** ** Vocabulary of the statements *)

(** Index [j] belongs to pixel [k]. *)
Definition inPixel (k : nat) (j : Z) : Prop :=
  4 * Z.of_nat k ≤ j < 4 * Z.of_nat k + 4.

(** What an alpha-matching loop does to the array at pixel [k], for a test
    on the color of the pixel. *)
Definition clearIf (test : Rgb → bool) (data : list Z) (k : nat) : list Z :=
  let i := 4 * Z.of_nat k in
  if test (pixelRgb data i) then writeAt data (i + 3) (Some 0) else data.

(** A sequence of progress values never goes down. *)
Definition nondecreasing (l : list Z) : Prop :=
  ∀ (i j : nat) (a b : Z), (i ≤ j)%nat → l !! i = Some a → l !! j = Some b → a ≤ b.

(** Every value is between 0 and 100. *)
Definition percentages (l : list Z) : Prop :=
  Forall (λ v, 0 ≤ v ≤ 100) l.

(** The squared Euclidean distance between two colors. *)
Definition squaredDistance (r g b tr tg tb : Q) : Q :=
  ((r - tr) * (r - tr) + (g - tg) * (g - tg) + (b - tb) * (b - tb))%Q.

(** The Euclidean distance from color [c] to [target] is strictly less than
    [tolerance]: all the numbers are defined, and the inequality holds
    between the squares. *)
Definition strictlyWithin (c target : Rgb) (tolerance : Js.number) : Prop :=
  ∃ r g b tr tg tb t,
    c = mkRgb (Some r) (Some g) (Some b) ∧
    target = mkRgb (Some tr) (Some tg) (Some tb) ∧
    tolerance = Some t ∧
    (0 < t)%Q ∧ (squaredDistance r g b tr tg tb < t * t)%Q.

(** The distance is at most [tolerance]. *)
Definition within (c target : Rgb) (tolerance : Js.number) : Prop :=
  ∃ r g b tr tg tb t,
    c = mkRgb (Some r) (Some g) (Some b) ∧
    target = mkRgb (Some tr) (Some tg) (Some tb) ∧
    tolerance = Some t ∧
    (0 <= t)%Q ∧ (squaredDistance r g b tr tg tb <= t * t)%Q.

(** The test of the pixel loop of [removeBackground]. *)
Definition matchesBackground (avgBg : Rgb) (tolerance : Js.number) (c : Rgb)
    : bool :=
  Js.sqrt_lt (calculateRgbDistance c avgBg) tolerance.

(** The test of [manipulateAlphaByColorMatch]. *)
Definition matchesTarget (targetRgb : Rgb) (tolerance : Js.number) (c : Rgb)
    : bool :=
  Js.sqrt_le (calculateRgbDistance c targetRgb) tolerance.

(** The state of the pixel loop of [removeBackground] before iteration
    [k], for the initial array [data] and the values [trace] reported before
    the loop. *)
Definition matchInv (avgBg : Rgb) (tolerance : Js.number) (MAX_ITERATIONS : Z)
    (onProgress : bool) (data trace : list Z) (k : nat) (st : MatchState)
    : Prop :=
  (k = 0%nat ∨ Z.of_nat k ≤ MAX_ITERATIONS) ∧
  pixels st
    = fold_left (clearIf (matchesBackground avgBg tolerance)) (seq 0 k) data ∧
  iterations st = Z.of_nat k ∧
  30 ≤ lastReportedPixelProgress st ≤ 90 ∧
  ∃ extra,
    reported st = trace ++ extra ∧
    (onProgress = false → extra = []) ∧
    Forall (λ v, 30 < v ≤ lastReportedPixelProgress st) extra ∧
    nondecreasing extra.

(** [out] is [data] after an alpha-matching pass that clears the pixels whose
    color satisfies [hit]: the length and the R, G, B bytes are those of
    [data]; the alpha byte of a pixel is 0 exactly when the pixel is a hit or
    its alpha was 0 before; the alpha byte of a pixel that is no hit is the
    one of [data]. *)
Definition alphaPass (hit : Rgb → Prop) (data out : list Z) : Prop :=
  len out = len data ∧
  ∀ k : Z, 0 ≤ k → 4 * k + 3 < len data →
    readAt out (4 * k) = readAt data (4 * k) ∧
    readAt out (4 * k + 1) = readAt data (4 * k + 1) ∧
    readAt out (4 * k + 2) = readAt data (4 * k + 2) ∧
    (readAt out (4 * k + 3) = Some 0
     ↔ hit (pixelRgb data (4 * k)) ∨ readAt data (4 * k + 3) = Some 0) ∧
    (¬ hit (pixelRgb data (4 * k)) →
     readAt out (4 * k + 3) = readAt data (4 * k + 3)).

(** The state of the loop of [manipulateAlphaByColorMatch] after [k] of
    [n] pixels, as far as the progress reports go. *)
Definition alphaTraceInv (onProgress : bool) (n : Z) (k : nat)
    (st : AlphaState) : Prop :=
  len (alphaData st) = 4 * n ∧
  percentages (alphaReported st) ∧
  nondecreasing (alphaReported st) ∧
  Forall (λ v, v ≤ lastReportedProgress st) (alphaReported st) ∧
  (onProgress = false → alphaReported st = []) ∧
  (k = 0%nat → lastReportedProgress st = -1 ∧ alphaReported st = []) ∧
  (onProgress = true → (0 < k)%nat →
   lastReportedProgress st = 100 * Z.of_nat k / n ∧
   last (alphaReported st) = Some (lastReportedProgress st)).

(** What the spec asks of the values passed to the progress callback in one
    invocation: they never go down, they lie between 0 and 100, none is
    passed without a callback, and when the invocation succeeds with a
    callback the last one is 100. *)
Definition progressContract (onProgress succeeded : bool) (trace : list Z)
    : Prop :=
  nondecreasing trace ∧
  percentages trace ∧
  (onProgress = false → trace = []) ∧
  (onProgress = true → succeeded = true → last trace = Some 100).

(** The promise was fulfilled, the call returned. *)
Definition succeeded {A} (r : result A) : bool :=
  match r with
  | Ok _ => true
  | Throw _ => false
  end.

(** The byte that [convertToGrayscaleInPlace] stores in the R, G and B cells
    of the pixel that starts at index [i] of [data]. *)
Definition grayOf (data : list Z) (i : Z) : Z :=
  toUint8Clamp
    (luminosity (readAt data i) (readAt data (i + 1)) (readAt data (i + 2))).

(** An array of [n] pixels of one color. *)
Fixpoint solid (n : nat) (r g b a : Z) : list Z :=
  match n with
  | O => []
  | S n => r :: g :: b :: a :: solid n r g b a
  end.

(** The four writes of [applySobelFilter] for an output pixel of zero
    magnitude: opaque black at pixel [p]. *)
Definition paintBlack (out : list Z) (p : Z) : list Z :=
  writeAt (writeAt (writeAt (writeAt out (p * 4) (Some 0))
                      (p * 4 + 1) (Some 0))
             (p * 4 + 2) (Some 0))
    (p * 4 + 3) (Some 255).

(** The first [c] pixels of [out] are opaque black, the rest is as in
    [init]. *)
Definition paintedUpTo (n : nat) (init : list Z) (c : Z) (out : list Z)
    : Prop :=
  len out = len init ∧
  ∀ j, readAt out j =
         if decide (0 ≤ j < 4 * c) then readAt (solid n 0 0 0 255) j
         else readAt init j.

(** *** Vocabulary for the estimators *)

(** Where the body of [samplePoints.forEach] looks for a point: both
    coordinates are bounded from above, by [width - 1] and [height - 1]. *)
Definition sampleOffset (width height : Z) (p : Z * Z) : Z :=
  (Z.min (snd p) (height - 1) * width + Z.min (fst p) (width - 1)) * 4.

(** The sample resolves: its pixel lies inside the array. *)
Definition resolves (data : list Z) (width height : Z) (p : Z * Z) : bool :=
  sampleOffset width height p + 3 <? len data.

(** Where [sampleAverageColor] looks for a point. *)
Definition sampleIndex (width : Z) (p : Q * Q) : Z :=
  (Js.floor (snd p) * width + Js.floor (fst p)) * 4.

(** The point is taken by [sampleAverageColor]: once floored it lies in
    the image, and its pixel in the array. *)
Definition inBounds (data : list Z) (width height : Z) (p : Q * Q) : bool :=
  (0 <=? Js.floor (fst p)) && (Js.floor (fst p) <? width)
  && (0 <=? Js.floor (snd p)) && (Js.floor (snd p) <? height)
  && (sampleIndex width p + 2 <? len data).

(** The sum of the bytes at distance [c] from each offset. *)
Definition sumAt (data : list Z) (offsets : list Z) (c : Z) : Z :=
  foldr Z.add 0 ((λ o, default 0 (readAt data (o + c))) <$> offsets).

(** The mean of channel [c] over the offsets, not rounded. *)
Definition meanAt (data : list Z) (offsets : list Z) (c : Z) : Js.number :=
  Some (inject_Z (sumAt data offsets c) / inject_Z (Z.of_nat (length offsets)))%Q.

(** The mean of channel [c] over the offsets, rounded. *)
Definition roundedMeanAt (data : list Z) (offsets : list Z) (c : Z)
    : Js.number :=
  Some (inject_Z (Js.round (inject_Z (sumAt data offsets c)
                            / inject_Z (Z.of_nat (length offsets)))%Q)).

(** Byte [k] of the array as a number, 0 when the array is too short. *)
Definition byteOrZero (data : list Z) (k : Z) : Js.number :=
  if k <? len data then Js.ofByte (readAt data k) else Js.ofZ 0.

(** Add the pixel at [offset] to the sums. *)
Definition addSample (data : list Z) (acc : Sums) (offset : Z) : Sums :=
  mkSums (addByte (rSum acc) (readAt data offset))
         (addByte (gSum acc) (readAt data (offset + 1)))
         (addByte (bSum acc) (readAt data (offset + 2)))
         (validSamples acc + 1).

(** [v] brought into the interval from [lo] to [hi]. *)
Definition clampInto (lo hi v : Z) : Z := Z.min (Z.max lo v) hi.

(** *** The two pipelines compared by C10 *)

(** A point with integer coordinates, as a pair of numbers. *)
Definition toNumbers (p : Z * Z) : Q * Q := (inject_Z p.1, inject_Z p.2).

(** The estimate-and-clear part of [removeBackground], without a progress
    callback: the array after the pixel loop. *)
Definition inlinePipeline (data : list Z) (width height : Z)
    : result (list Z) :=
  (processImageData false width height data []).1.

(** The utility pipeline: [sampleAverageColor] on the same eight points,
    then [manipulateAlphaByColorMatch] with tolerance 45.  The repository has
    no caller that composes the two; with a [null] target the first
    iteration throws. *)
Definition utilityPipeline (data : list Z) (width height : Z)
    : result (list Z) :=
  match sampleAverageColor data width height
          (toNumbers <$> samplePoints width height) with
  | Some targetRgb =>
      Ok (manipulateAlphaByColorMatch data targetRgb colorMatchTolerance false).1
  | None =>
      match data with
      | [] => Ok []
      | _ :: _ => Throw NullTarget
      end
  end.

(** The Euclidean distance between two colors, as a real number. *)
Definition euclideanDistance (r g b tr tg tb : Q) : R :=
  R_sqrt.sqrt (Q2R (squaredDistance r g b tr tg tb)).

(** ** Pixel access (imageProcessing.js) *)

Module Pixel.
(** The object returned by [getPixelColor]: a cell read outside the array
    would be [undefined]. *)
Record t : Type := mk {
  r : option Z;
  g : option Z;
  b : option Z;
  a : option Z
}.
End Pixel.

(** [getPixelColor]: [None] is [null].  The coordinates are numbers; they
    are compared as they are and floored for the index.  [width] is the
    parameter of the source, not [imageData.width]. *)
Definition getPixelColor (imageData : ImageData.t) (x y : Q) (width : Z)
    : option Pixel.t :=
  if Js.Qltb x 0 || Qle_bool (inject_Z width) x
     || Js.Qltb y 0 || Qle_bool (inject_Z (ImageData.height imageData)) y
  then None
  else
    let index := (Js.floor y * width + Js.floor x) * 4 in
    let data := ImageData.data imageData in
    if len data <=? index + 3 then None
    else Some (Pixel.mk (readAt data index) (readAt data (index + 1))
                 (readAt data (index + 2)) (readAt data (index + 3))).

(** [setPixelAlpha], for an integer start index and an integer alpha value:
    the object after the call. *)
Definition setPixelAlpha (imageData : ImageData.t) (pixelStartIndex : Z)
    (alphaValue : Z) : ImageData.t :=
  let data := ImageData.data imageData in
  if (0 <=? pixelStartIndex) && (pixelStartIndex + 3 <? len data)
  then ImageData.mk (ImageData.width imageData) (ImageData.height imageData)
         (writeAt data (pixelStartIndex + 3)
            (Some (Z.max 0 (Z.min 255 alphaValue))))
  else imageData.

(** ** Loading and preprocessing (imageProcessing.js) *)

Module Image.
(** A loaded [HTMLImageElement]. *)
Record t : Type := mk { naturalWidth : Z; naturalHeight : Z; rgba : list Z }.
End Image.

(** The argument of [loadImageElement]: a URL string (with what it decodes
    to), a [File], or anything else. *)
Inductive ImageSource : Type :=
  | SourceUrl (decoded : File.content)
  | SourceFile (f : File.t)
  | SourceOther.

(** [img.src = ...]: [onload] or [onerror]. *)
Definition decodeImage (c : File.content) : result Image.t :=
  match c with
  | File.Corrupt => Throw DecodeError
  | File.Picture w h rgba => Ok (Image.mk w h rgba)
  end.

(** [loadImageElement]. *)
Definition loadImageElement (fileOrUrl : ImageSource)
    (readerGivesString : bool) : result Image.t :=
  match fileOrUrl with
  | SourceUrl c => decodeImage c
  | SourceFile f =>
      if negb readerGivesString then Throw ReadError
      else decodeImage (File.bytes f)
  | SourceOther => Throw InvalidInput
  end.

Definition DEFAULT_OUTPUT_MIME_TYPE : string := "image/png".
Definition DEFAULT_OUTPUT_QUALITY : Q := 92 # 100.

Module Preprocess.

(** The [options] object of [ensureProcessableImage]. *)
Record Options : Type := mkOptions {
  maxFileSize : option Z;
  allowedTypes : option (list string);
  targetMaxSide : option Z;
  outputMimeType : option string;
  outputQuality : option Q
}.

(** [ctx.imageSmoothingQuality]. *)
Inductive Smoothing : Type := high | medium.

(** What [canvas.toDataURL] was asked to encode: the canvas, drawn from the
    loaded image with the smoothing quality, as [mime] with the quality
    argument ([None] is [undefined]). *)
Record DataUrl : Type := mkDataUrl {
  drawn : Image.t;
  smoothing : Smoothing;
  mime : string;
  quality : option Q
}.

(** The object the promise resolves to. *)
Record Output : Type := mkOutput {
  dataUrl : DataUrl;
  width : Z;
  height : Z;
  wasResized : bool;
  originalWidth : Z;
  originalHeight : Z;
  mimeType : string
}.

(** The rejections: an error of the kinds above, or the failure of
    [canvas.toDataURL]. *)
Inductive Failure : Type :=
  | Raised (e : Error)
  | DataUrlFailed.

End Preprocess.

(** [ensureProcessableImage].  [toDataURL] tells whether the canvas could be
    encoded.  The two quotients of the smoothing test are only evaluated
    after a resize, when the divisors are at least 1. *)
Definition ensureProcessableImage (file : Candidate)
    (options : Preprocess.Options) (browser : Browser) (toDataURL : bool)
    : Preprocess.Failure + Preprocess.Output :=
  let maxFileSize :=
    default MAX_FILE_SIZE_BYTES (Preprocess.maxFileSize options) in
  let allowedTypes :=
    default VALID_IMAGE_TYPES (Preprocess.allowedTypes options) in
  let targetMaxSide :=
    default MAX_PROCESSING_DIMENSION_SIDE (Preprocess.targetMaxSide options) in
  let outputMimeType :=
    default DEFAULT_OUTPUT_MIME_TYPE (Preprocess.outputMimeType options) in
  let outputQuality :=
    default DEFAULT_OUTPUT_QUALITY (Preprocess.outputQuality options) in
  match validateImageFile file
          (mkValidationOptions (Some maxFileSize) (Some allowedTypes)) with
  | Throw e => inl (Preprocess.Raised e)
  | Ok _ =>
      let source :=
        match file with
        | IsFile f => SourceFile f
        | _ => SourceOther
        end in
      match loadImageElement source (readerGivesString browser) with
      | Throw e => inl (Preprocess.Raised e)
      | Ok imageElement =>
          let originalWidth := Image.naturalWidth imageElement in
          let originalHeight := Image.naturalHeight imageElement in
          if (originalWidth =? 0) || (originalHeight =? 0)
          then inl (Preprocess.Raised ZeroDimension)
          else
            let '(newWidth, newHeight, wasResized) :=
              resizeDimensions originalWidth originalHeight targetMaxSide in
            if negb (context2d browser)
            then inl (Preprocess.Raised ContextUnavailable)
            else
              let smoothing :=
                if wasResized
                   && (Js.Qltb 2 (inject_Z originalWidth / inject_Z newWidth)
                       || Js.Qltb 2 (inject_Z originalHeight
                                     / inject_Z newHeight))
                then Preprocess.high else Preprocess.medium in
              let quality :=
                if String.eqb outputMimeType "image/jpeg"
                   || String.eqb outputMimeType "image/webp"
                then Some outputQuality else None in
              if negb toDataURL then inl Preprocess.DataUrlFailed
              else
                inr (Preprocess.mkOutput
                       (Preprocess.mkDataUrl imageElement smoothing
                          outputMimeType quality)
                       newWidth newHeight wasResized
                       originalWidth originalHeight outputMimeType)
      end
  end.

(** ** The processing button (ImageProcessor.js) *)

Definition MAX_IMAGE_DIMENSION : Z := 8000.

(** [checkImageDimensions]: the file is read and decoded once more, before
    [removeBackground] does it.  Reading something that is no [File]
    throws. *)
Definition checkImageDimensions (file : Candidate) (browser : Browser)
    : result unit :=
  match file with
  | IsFile f =>
      if negb (readerGivesString browser) then Throw ReadError
      else
        match File.bytes f with
        | File.Corrupt => Throw DecodeError
        | File.Picture naturalWidth naturalHeight _ =>
            if (MAX_IMAGE_DIMENSION <? naturalWidth)
               || (MAX_IMAGE_DIMENSION <? naturalHeight)
            then Throw DimensionTooLarge
            else if (naturalWidth =? 0) || (naturalHeight =? 0)
            then Throw ZeroDimension
            else Ok ()
        end
  | _ => Throw ReadError
  end.

(** [Math.floor] of a double, [None] for [NaN] and the infinities. *)
Definition floorFloat (x : float) : option Z :=
  match Prim2SF x with
  | S754_zero _ => Some 0
  | S754_finite s m e =>
      let v := if s then Z.neg m else Z.pos m in
      Some (if 0 <=? e then v * 2 ^ e else v / 2 ^ (- e))
  | S754_infinity _ => None
  | S754_nan => None
  end.

Set Warnings "-inexact-float".

(** [5 + Math.floor(progressPercent * 0.95)] in binary64, for a progress
    value that is a small natural number. *)
Definition scaleProgress (progressPercent : Z) : option Z :=
  (λ f, 5 + f) <$> floorFloat (Js.toFloat progressPercent * 0.95)%float.

Set Warnings "+inexact-float".

(** What [processImage] does to its surroundings, in order: the calls of
    the three callbacks of the parent and of the two state setters.  The
    message of an error is its kind; [None] is [null], and [NaN] for a
    progress. *)
Inductive Event : Type :=
  | CallOnProcessingStart
  | CallOnError (errorMessage : option Error)
  | CallOnProcessingComplete (processedImageUrl : list Z)
  | SetProgress (v : option Z)
  | SetIsProcessing (status : bool).

(** The [catch] block. *)
Definition catchError (e : Error) : list Event :=
  [CallOnError (Some e); SetProgress (Some 0)].

(** [processImage], with the three callbacks that [App] passes.  The file
    is read twice, by [checkImageDimensions] and by [removeBackground]:
    [checking] and [removing] are what the browser does each time. *)
Definition processImage (selectedImage : Candidate)
    (checking removing : Browser) : list Event :=
  match selectedImage with
  | Missing => [CallOnError (Some EmptyCandidate)]
  | _ =>
      [CallOnProcessingStart; SetIsProcessing true; SetProgress (Some 0);
       CallOnError None]
      ++ match validateImage selectedImage with
         | Throw e => catchError e
         | Ok _ =>
             match checkImageDimensions selectedImage checking with
             | Throw e => catchError e
             | Ok _ =>
                 SetProgress (Some 5)
                 :: let '(settled, progressPercents) :=
                      removeBackground selectedImage true removing in
                    ((λ p, SetProgress (scaleProgress p)) <$> progressPercents)
                    ++ match settled with
                       | Ok processedImageUrl =>
                           [CallOnProcessingComplete processedImageUrl]
                       | Throw e => catchError e
                       end
             end
         end
      ++ [SetIsProcessing false]
  end.

(** ** The application state (App.js) *)

Module Upload.
(** A [File] as [App] uses it: its name and the rest. *)
Record t : Type := mk { name : string; file : File.t }.
End Upload.

Module App.

Record State : Type := mk {
  selectedImage : option Upload.t;
  processedImage : option (list Z);
  isProcessing : bool;
  error : option Error;
  originalFileName : string
}.

(** The five [useState] defaults. *)
Definition initial : State := mk None None false None "".

Definition handleImageSelect (file : option Upload.t) (s : State) : State :=
  mk file None (isProcessing s) None
     (match file with
      | Some f => Upload.name f
      | None => ""
      end).

Definition handleProcessingComplete (resultImageUrl : list Z) (s : State)
    : State :=
  mk (selectedImage s) (Some resultImageUrl) false None (originalFileName s).

Definition handleError (errorMessage : option Error) (s : State) : State :=
  mk (selectedImage s) None false errorMessage (originalFileName s).

Definition handleSetIsProcessing (status : bool) (s : State) : State :=
  if status then mk (selectedImage s) None status None (originalFileName s)
  else mk (selectedImage s) (processedImage s) status (error s)
         (originalFileName s).

(** What a user or a child component can make [App] do. *)
Inductive Action : Type :=
  | Select (file : option Upload.t)
  | Complete (resultImageUrl : list Z)
  | Fail (errorMessage : option Error)
  | Processing (status : bool).

Definition handle (s : State) (a : Action) : State :=
  match a with
  | Select file => handleImageSelect file s
  | Complete resultImageUrl => handleProcessingComplete resultImageUrl s
  | Fail errorMessage => handleError errorMessage s
  | Processing status => handleSetIsProcessing status s
  end.

(** The props of [ImageProcessor]: [onProcessingStart] is
    [() => handleSetIsProcessing(true)], [onProcessingComplete] is
    [handleProcessingComplete], [onError] is [handleError]; the two setters
    of [ImageProcessor] are its own. *)
Definition onEvent (s : State) (e : Event) : State :=
  match e with
  | CallOnProcessingStart => handleSetIsProcessing true s
  | CallOnError errorMessage => handleError errorMessage s
  | CallOnProcessingComplete processedImageUrl =>
      handleProcessingComplete processedImageUrl s
  | SetProgress _ => s
  | SetIsProcessing _ => s
  end.

(** The [selectedImage] prop of [ImageProcessor]. *)
Definition selectedCandidate (s : State) : Candidate :=
  match selectedImage s with
  | Some f => IsFile (Upload.file f)
  | None => Missing
  end.

(** A click on the button of [ImageProcessor]. *)
Definition clickProcess (checking removing : Browser) (s : State) : State :=
  fold_left onEvent (processImage (selectedCandidate s) checking removing) s.

End App.

(** ** The download name (ResultDisplay.js) *)

From Stdlib Require Import Strings.Ascii.

(** [s.split(".")]. *)
Fixpoint splitOnDot (s : string) : list string :=
  match s with
  | EmptyString => [EmptyString]
  | String c rest =>
      if Ascii.eqb c "."%char then EmptyString :: splitOnDot rest
      else
        match splitOnDot rest with
        | part :: parts => String c part :: parts
        | [] => [String c EmptyString]
        end
  end.

(** [parts.join(".")]. *)
Fixpoint joinWithDot (parts : list string) : string :=
  match parts with
  | [] => EmptyString
  | [part] => part
  | part :: rest => (part ++ "." ++ joinWithDot rest)%string
  end.

(** The name passed to [saveAs] by [handleDownload]; nothing is saved
    without a processed image. *)
Definition handleDownload (processedImage : option (list Z))
    (originalFileName : string) : option string :=
  match processedImage with
  | None => None
  | Some _ =>
      Some (if String.eqb originalFileName "" then "processed-image.png"%string
            else
              let nameParts := splitOnDot originalFileName in
              let nameParts := removelast nameParts in
              let name := joinWithDot nameParts in
              (name ++ "-no-bg.png")%string)
  end.

(** ** Vocabulary of the further properties *)

(** The byte that [applySobelFilter] stores in the R, G and B cells of the
    output pixel at column [x] and row [y]. *)
Definition edgeAt (grayscaleData : list Z) (width height x y : Z) : Z :=
  toUint8Clamp
    (clampedMagnitude
       (_applyConvolutionKernelToGrayscale grayscaleData x y width height
          SOBEL_X_KERNEL)
       (_applyConvolutionKernelToGrayscale grayscaleData x y width height
          SOBEL_Y_KERNEL)).

(** The four writes of [applySobelFilter] at pixel [p], for the value
    [m]. *)
Definition paintEdge (out : list Z) (p : Z) (m : option Z) : list Z :=
  writeAt (writeAt (writeAt (writeAt out (p * 4) m) (p * 4 + 1) m)
             (p * 4 + 2) m)
    (p * 4 + 3) (Some 255).

(** The first [c] pixels of [out] hold the edge values of [gray], opaque;
    the rest is as in [init]. *)
Definition edgesUpTo (gray : list Z) (width height : Z) (init : list Z)
    (c : Z) (out : list Z) : Prop :=
  len out = len init ∧
  ∀ j, readAt out j =
         if decide (0 ≤ j < 4 * c)
         then Some (if decide (j mod 4 = 3) then 255
                    else edgeAt gray width height
                           ((j / 4) mod width) ((j / 4) / width))
         else readAt init j.

(** All the bytes of the array are bytes. *)
Definition bytes (data : list Z) : Prop := Forall (λ v, 0 ≤ v ≤ 255) data.

(** The number is defined and lies between 0 and 255. *)
Definition byteValued (x : Js.number) : Prop :=
  ∃ q, x = Some q ∧ (0 <= q <= 255)%Q.

(** The values passed to [setProgress], in order. *)
Definition progressValues (events : list Event) : list (option Z) :=
  omap (λ e, match e with SetProgress v => Some v | _ => None end) events.

(** The errors reported to the parent, in order, the resets left out. *)
Definition reportedErrors (events : list Event) : list Error :=
  omap (λ e, match e with CallOnError (Some m) => Some m | _ => None end)
    events.

(** The results handed to the parent, in order. *)
Definition completions (events : list Event) : list (list Z) :=
  omap (λ e, match e with
             | CallOnProcessingComplete u => Some u
             | _ => None
             end) events.

(** The string has no dot. *)
Fixpoint dotless (s : string) : bool :=
  match s with
  | EmptyString => true
  | String c rest => negb (Ascii.eqb c "."%char) && dotless rest
  end.

(** Color [c] is the color [target], every channel being defined. *)
Definition sameColor (c target : Rgb) : Prop :=
  ∃ r g b tr tg tb,
    c = mkRgb (Some r) (Some g) (Some b) ∧
    target = mkRgb (Some tr) (Some tg) (Some tb) ∧
    (r == tr)%Q ∧ (g == tg)%Q ∧ (b == tb)%Q.

(** * Properties *)

Ltac Zify.zify_post_hook ::= Z.div_mod_to_equations.

(** ** Typed arrays *)

Section arrays.
Implicit Types (data : list Z) (i j : Z) (v : option Z).

Lemma len_nonneg data : 0 ≤ len data.
Proof. unfold len. lia. Qed.

Lemma len_writeAt data i v : len (writeAt data i v) = len data.
Proof.
  unfold writeAt, len. destruct (i <? 0); [done|]. by rewrite length_insert.
Qed.

Lemma readAt_in_range data i : 0 ≤ i < len data → is_Some (readAt data i).
Proof.
  unfold readAt, len. intros H. destruct (Z.ltb_spec i 0); [lia|].
  apply lookup_lt_is_Some. lia.
Qed.

Lemma readAt_out_of_range data i : i < 0 ∨ len data ≤ i → readAt data i = None.
Proof.
  unfold readAt, len. intros H. destruct (Z.ltb_spec i 0); [done|].
  apply lookup_ge_None. lia.
Qed.

Lemma readAt_writeAt_eq data i v :
  0 ≤ i < len data → readAt (writeAt data i v) i = Some (toUint8Clamp v).
Proof.
  unfold readAt, writeAt, len. intros H. destruct (Z.ltb_spec i 0); [lia|].
  apply list_lookup_insert_eq. lia.
Qed.

Lemma readAt_writeAt_ne data i j v :
  i ≠ j → readAt (writeAt data i v) j = readAt data j.
Proof.
  unfold readAt, writeAt. intros H.
  destruct (Z.ltb_spec j 0); [done|]. destruct (Z.ltb_spec i 0); [done|].
  apply list_lookup_insert_ne. lia.
Qed.

Lemma readAt_ext data data' :
  (∀ i, readAt data i = readAt data' i) → data = data'.
Proof.
  intros H. apply list_eq. intros n. specialize (H (Z.of_nat n)).
  unfold readAt in H. destruct (Z.ltb_spec (Z.of_nat n) 0); [lia|].
  by rewrite Nat2Z.id in H.
Qed.

Lemma toUint8Clamp_range v : 0 ≤ toUint8Clamp v ≤ 255.
Proof. destruct v; simpl; lia. Qed.
End arrays.

(** ** Loops *)

Lemma forLoop_inv {St : Type} (Inv : nat → St → Prop) (body : nat → St → result St) :
  ∀ (n a : nat) (s : St),
    Inv a s →
    (∀ k s s', (a ≤ k < a + n)%nat → Inv k s → body k s = Ok s' → Inv (S k) s') →
    match forLoop body (seq a n) s with
    | Completed s' => Inv (a + n)%nat s'
    | Aborted e s' => ∃ k, (a ≤ k < a + n)%nat ∧ Inv k s' ∧ body k s' = Throw e
    end.
Proof.
  induction n as [|n IH]; intros a s Ha Hstep; simpl.
  - by rewrite Nat.add_0_r.
  - destruct (body a s) as [s'|e] eqn:Hb.
    + specialize (IH (S a) s'). rewrite <- Nat.add_succ_comm.
      assert (Inv (S a) s') as Ha' by (apply (Hstep a s); [lia|done..]).
      specialize (IH Ha'). 
      destruct (forLoop body (seq (S a) n) s') as [s''|e s''].
      * apply IH. intros k t t' Hk. apply Hstep. lia.
      * destruct IH as (k & Hk & HI & HT).
        { intros k t t' Hk. apply Hstep. lia. }
        exists k. split; [lia|done].
    + exists a. split; [lia|done].
Qed.

Lemma fold_left_seq_inv {St : Type} (Inv : nat → St → Prop) (body : St → nat → St) :
  ∀ (n a : nat) (s : St),
    Inv a s →
    (∀ k s, (a ≤ k < a + n)%nat → Inv k s → Inv (S k) (body s k)) →
    Inv (a + n)%nat (fold_left body (seq a n) s).
Proof.
  induction n as [|n IH]; intros a s Ha Hstep; simpl.
  - by rewrite Nat.add_0_r.
  - rewrite <- Nat.add_succ_comm. apply IH.
    + apply Hstep; [lia|done].
    + intros k t Hk. apply Hstep. lia.
Qed.

(** A loop whose iteration [k] only touches pixel [k], and only looks at
    pixel [k], acts on every pixel as its body acts on the initial array. *)
Section pixelwise.
Variable step : list Z → nat → list Z.
Hypothesis step_len : ∀ d k, len (step d k) = len d.
Hypothesis step_frame :
  ∀ d k j, ¬ inPixel k j → readAt (step d k) j = readAt d j.
Hypothesis step_local :
  ∀ d d' k, len d = len d' →
    (∀ j, inPixel k j → readAt d j = readAt d' j) →
    ∀ j, inPixel k j → readAt (step d k) j = readAt (step d' k) j.

Lemma fold_pixelwise_len n d : len (fold_left step (seq 0 n) d) = len d.
Proof.
  apply (fold_left_seq_inv (λ _ s, len s = len d) step n 0%nat d); [done|].
  intros k s _ Hs. by rewrite step_len.
Qed.

Lemma fold_pixelwise n d j :
  readAt (fold_left step (seq 0 n) d) j =
    if decide (0 ≤ j < 4 * Z.of_nat n)
    then readAt (step d (Z.to_nat (j / 4))) j
    else readAt d j.
Proof.
  cut (len (fold_left step (seq 0 n) d) = len d ∧
       ∀ j, readAt (fold_left step (seq 0 n) d) j =
              if decide (0 ≤ j < 4 * Z.of_nat (0 + n))
              then readAt (step d (Z.to_nat (j / 4))) j
              else readAt d j).
  { intros [_ H]. apply H. }
  pose (Inv := λ (m : nat) (s : list Z),
          len s = len d ∧ ∀ i : Z, readAt s i =
            if decide (0 ≤ i < 4 * Z.of_nat m)
            then readAt (step d (Z.to_nat (i / 4))) i
            else readAt d i).
  apply (fold_left_seq_inv Inv step n 0%nat d); unfold Inv.
  - split; [done|]. intros j'. case_decide; [lia|done].
  - intros k s _ [Hlen Hs]. split; [by rewrite step_len|]. intros j'.
    destruct (decide (inPixel k j')) as [Hin|Hout].
    + unfold inPixel in Hin. rewrite decide_True by lia.
      replace (Z.to_nat (j' / 4)) with k by lia.
      apply step_local; [done| |done].
      intros i Hi. unfold inPixel in Hi. rewrite Hs.
      rewrite decide_False by lia. done.
    + rewrite step_frame by done. rewrite Hs. unfold inPixel in Hout.
      repeat case_decide; try done; lia.
Qed.
End pixelwise.

(** ** Distances *)

Lemma Qltb_lt (a b : Q) : Js.Qltb a b = true ↔ (a < b)%Q.
Proof.
  unfold Js.Qltb. rewrite negb_true_iff, <- not_true_iff_false, Qle_bool_iff.
  split; [apply Qnot_le_lt | apply Qlt_not_le].
Qed.

Lemma Qsquare_nonneg (x : Q) : (0 <= x * x)%Q.
Proof. destruct x as [n d]. unfold Qle, Qmult. simpl. nia. Qed.

Lemma squaredDistance_nonneg r g b tr tg tb :
  (0 <= squaredDistance r g b tr tg tb)%Q.
Proof.
  unfold squaredDistance.
  pose proof (Qsquare_nonneg (r - tr)). pose proof (Qsquare_nonneg (g - tg)).
  pose proof (Qsquare_nonneg (b - tb)). Lqa.lra.
Qed.

Lemma calculateRgbDistance_defined r g b tr tg tb :
  calculateRgbDistance (mkRgb (Some r) (Some g) (Some b))
                       (mkRgb (Some tr) (Some tg) (Some tb))
  = Some (squaredDistance r g b tr tg tb).
Proof. reflexivity. Qed.

Lemma calculateRgbDistance_Some c target s :
  calculateRgbDistance c target = Some s →
  ∃ r g b tr tg tb,
    c = mkRgb (Some r) (Some g) (Some b) ∧
    target = mkRgb (Some tr) (Some tg) (Some tb) ∧
    s = squaredDistance r g b tr tg tb.
Proof.
  destruct c as [[r|] [g|] [b|]], target as [[tr|] [tg|] [tb|]];
    cbn; intros H; try discriminate.
  injection H as <-. by exists r, g, b, tr, tg, tb.
Qed.

Lemma sqrt_lt_strictlyWithin c target tolerance :
  Js.sqrt_lt (calculateRgbDistance c target) tolerance = true
  ↔ strictlyWithin c target tolerance.
Proof.
  split.
  - unfold Js.sqrt_lt.
    destruct (calculateRgbDistance c target) as [s|] eqn:Hs; [|done].
    destruct tolerance as [t|]; [|done].
    rewrite !andb_true_iff, !Qltb_lt. intros [[_ Ht] Hlt].
    apply calculateRgbDistance_Some in Hs
      as (r & g & b & tr & tg & tb & -> & -> & ->).
    by exists r, g, b, tr, tg, tb, t.
  - intros (r & g & b & tr & tg & tb & t & -> & -> & -> & Ht & Hlt).
    rewrite calculateRgbDistance_defined. unfold Js.sqrt_lt.
    rewrite !andb_true_iff, !Qltb_lt, Qle_bool_iff.
    auto using squaredDistance_nonneg.
Qed.

Lemma sqrt_le_within c target tolerance :
  Js.sqrt_le (calculateRgbDistance c target) tolerance = true
  ↔ within c target tolerance.
Proof.
  split.
  - unfold Js.sqrt_le.
    destruct (calculateRgbDistance c target) as [s|] eqn:Hs; [|done].
    destruct tolerance as [t|]; [|done].
    rewrite !andb_true_iff, !Qle_bool_iff. intros [[_ Ht] Hlt].
    apply calculateRgbDistance_Some in Hs
      as (r & g & b & tr & tg & tb & -> & -> & ->).
    by exists r, g, b, tr, tg, tb, t.
  - intros (r & g & b & tr & tg & tb & t & -> & -> & -> & Ht & Hlt).
    rewrite calculateRgbDistance_defined. unfold Js.sqrt_le.
    rewrite !andb_true_iff, !Qle_bool_iff.
    auto using squaredDistance_nonneg.
Qed.

(** The two comparisons of squares are the comparisons of the Euclidean
    distance with the tolerance. *)
Lemma sqrt_lt_real (s t : Q) :
  (0 <= s)%Q →
  ((0 < t)%Q ∧ (s < t * t)%Q) ↔ (R_sqrt.sqrt (Q2R s) < Q2R t)%R.
Proof.
  intros Hs. apply Qle_Rle in Hs. rewrite RMicromega.Q2R_0 in Hs.
  split.
  - intros [Ht Hlt]. apply Qlt_Rlt in Ht, Hlt.
    rewrite RMicromega.Q2R_0 in Ht. rewrite Q2R_mult in Hlt.
    rewrite <- (sqrt_square (Q2R t)) by Lra.lra.
    apply sqrt_lt_1; Lra.nra.
  - intros Hlt. pose proof (sqrt_pos (Q2R s)) as Hpos.
    assert (0 < Q2R t)%R as Ht by Lra.lra.
    split.
    + apply Rlt_Qlt. by rewrite RMicromega.Q2R_0.
    + apply Rlt_Qlt. rewrite Q2R_mult.
      rewrite <- (sqrt_sqrt (Q2R s)) by done. Lra.nra.
Qed.

Lemma sqrt_le_real (s t : Q) :
  (0 <= s)%Q →
  ((0 <= t)%Q ∧ (s <= t * t)%Q) ↔ (R_sqrt.sqrt (Q2R s) <= Q2R t)%R.
Proof.
  intros Hs. apply Qle_Rle in Hs. rewrite RMicromega.Q2R_0 in Hs.
  split.
  - intros [Ht Hlt]. apply Qle_Rle in Ht, Hlt.
    rewrite RMicromega.Q2R_0 in Ht. rewrite Q2R_mult in Hlt.
    rewrite <- (sqrt_square (Q2R t)) by Lra.lra.
    apply sqrt_le_1; Lra.nra.
  - intros Hlt. pose proof (sqrt_pos (Q2R s)) as Hpos.
    assert (0 <= Q2R t)%R as Ht by Lra.lra.
    split.
    + apply Rle_Qle. by rewrite RMicromega.Q2R_0.
    + apply Rle_Qle. rewrite Q2R_mult.
      rewrite <- (sqrt_sqrt (Q2R s)) by done. Lra.nra.
Qed.

Lemma strictlyWithin_euclidean r g b tr tg tb t :
  strictlyWithin (mkRgb (Some r) (Some g) (Some b))
    (mkRgb (Some tr) (Some tg) (Some tb)) (Some t)
  ↔ (euclideanDistance r g b tr tg tb < Q2R t)%R.
Proof.
  unfold euclideanDistance.
  rewrite <- sqrt_lt_real by apply squaredDistance_nonneg. split.
  - intros (? & ? & ? & ? & ? & ? & ? & [= <- <- <-] & [= <- <- <-] & [= <-] & H).
    exact H.
  - intros H. by exists r, g, b, tr, tg, tb, t.
Qed.

Lemma within_euclidean r g b tr tg tb t :
  within (mkRgb (Some r) (Some g) (Some b))
    (mkRgb (Some tr) (Some tg) (Some tb)) (Some t)
  ↔ (euclideanDistance r g b tr tg tb <= Q2R t)%R.
Proof.
  unfold euclideanDistance.
  rewrite <- sqrt_le_real by apply squaredDistance_nonneg. split.
  - intros (? & ? & ? & ? & ? & ? & ? & [= <- <- <-] & [= <- <- <-] & [= <-] & H).
    exact H.
  - intros H. by exists r, g, b, tr, tg, tb, t.
Qed.

(** ** The effect of an alpha-matching loop on the array *)

Section clearIf.
Variable test : Rgb → bool.

Lemma clearIf_len d k : len (clearIf test d k) = len d.
Proof. unfold clearIf. destruct (test _); [apply len_writeAt|done]. Qed.

Lemma clearIf_frame d k j :
  ¬ inPixel k j → readAt (clearIf test d k) j = readAt d j.
Proof.
  unfold clearIf, inPixel. intros Hj. destruct (test _); [|done].
  apply readAt_writeAt_ne. lia.
Qed.

Lemma pixelRgb_local d d' i :
  (∀ j, i ≤ j < i + 4 → readAt d j = readAt d' j) →
  pixelRgb d i = pixelRgb d' i.
Proof. intros H. unfold pixelRgb. rewrite !H by lia. done. Qed.

(** The cell [j] of pixel [k] after the iteration. *)
Lemma clearIf_at d k j :
  inPixel k j →
  readAt (clearIf test d k) j =
    if test (pixelRgb d (4 * Z.of_nat k)) && bool_decide (j = 4 * Z.of_nat k + 3)
    then (λ _, 0) <$> readAt d j else readAt d j.
Proof.
  unfold clearIf, inPixel. intros Hj. destruct (test _); simpl; [|done].
  case_bool_decide as Hj3.
  - subst j. destruct (decide (4 * Z.of_nat k + 3 < len d)) as [Hin|Hout].
    + rewrite readAt_writeAt_eq by lia.
      destruct (readAt_in_range d (4 * Z.of_nat k + 3)) as [z ->]; [lia|done].
    + rewrite !readAt_out_of_range; [done|lia|rewrite len_writeAt; lia].
  - apply readAt_writeAt_ne. lia.
Qed.

Lemma clearIf_local d d' k :
  len d = len d' →
  (∀ j, inPixel k j → readAt d j = readAt d' j) →
  ∀ j, inPixel k j → readAt (clearIf test d k) j = readAt (clearIf test d' k) j.
Proof.
  intros Hlen H j Hj. rewrite !clearIf_at by done.
  rewrite (pixelRgb_local d d') by (intros; apply H; unfold inPixel; lia).
  by rewrite H.
Qed.

(** The loop as a whole, cell by cell. *)
Lemma clearIf_loop d n j :
  readAt (fold_left (clearIf test) (seq 0 n) d) j =
    if decide (0 ≤ j < 4 * Z.of_nat n)
    then if test (pixelRgb d (4 * (j / 4))) && bool_decide (j mod 4 = 3)
         then (λ _, 0) <$> readAt d j else readAt d j
    else readAt d j.
Proof.
  rewrite (fold_pixelwise _ clearIf_len clearIf_frame clearIf_local).
  case_decide as Hj; [|done].
  rewrite clearIf_at by (unfold inPixel; lia).
  replace (4 * Z.of_nat (Z.to_nat (j / 4))) with (4 * (j / 4)) by lia.
  destruct (test _); [|done]. simpl.
  repeat case_bool_decide; try done; lia.
Qed.
End clearIf.

(** ** The pixel loop of [removeBackground] *)

Lemma fold_left_seq_S {A} (f : A → nat → A) (n : nat) (a : A) :
  fold_left f (seq 0 (S n)) a = f (fold_left f (seq 0 n) a) n.
Proof. by rewrite seq_S, fold_left_app. Qed.

Section matchLoop.
Variables (avgBg : Rgb) (tolerance : Js.number) (MAX_ITERATIONS : Z).
Variable onProgress : bool.

Lemma matchStep_Throw k st e :
  matchStep avgBg tolerance MAX_ITERATIONS onProgress k st = Throw e →
  e = ProcessingTimeout ∧ MAX_ITERATIONS < iterations st + 1.
Proof.
  unfold matchStep. destruct (Z.ltb_spec MAX_ITERATIONS (iterations st + 1)).
  - by intros [= <-].
  - by destruct (_ && _).
Qed.

Lemma matchStep_Ok k st st' :
  matchStep avgBg tolerance MAX_ITERATIONS onProgress k st = Ok st' →
  iterations st + 1 ≤ MAX_ITERATIONS ∧
  pixels st' = clearIf (matchesBackground avgBg tolerance) (pixels st) k ∧
  iterations st' = iterations st + 1 ∧
  ((reported st' = reported st ∧
    lastReportedPixelProgress st' = lastReportedPixelProgress st)
   ∨ (onProgress = true ∧
      lastReportedPixelProgress st < lastReportedPixelProgress st' ≤ 90 ∧
      reported st' = reported st ++ [lastReportedPixelProgress st'])).
Proof.
  unfold matchStep. destruct (Z.ltb_spec MAX_ITERATIONS (iterations st + 1)); [done|].
  destruct (_ && _) eqn:Hc; intros [= <-]; simpl; (split; [lia|]);
    (split; [done|]); (split; [done|]); [|by left].
  right. rewrite !andb_true_iff in Hc.
  destruct Hc as [[[[-> _] _] ?%Z.ltb_lt] ?%Z.leb_le]. done.
Qed.

End matchLoop.

(** ** Progress sequences *)

Lemma nondecreasing_nil : nondecreasing [].
Proof. intros i j a b _ H. by rewrite lookup_nil in H. Qed.

Lemma nondecreasing_app (l1 l2 : list Z) :
  nondecreasing l1 → nondecreasing l2 →
  (∀ a b, a ∈ l1 → b ∈ l2 → a ≤ b) →
  nondecreasing (l1 ++ l2).
Proof.
  intros H1 H2 H12 i j a b Hij Ha Hb.
  destruct (decide (j < length l1)%nat) as [Hj|Hj].
  - rewrite lookup_app_l in Ha by lia. rewrite lookup_app_l in Hb by lia.
    by apply (H1 i j a b).
  - rewrite lookup_app_r in Hb by lia.
    destruct (decide (i < length l1)%nat) as [Hi|Hi].
    + rewrite lookup_app_l in Ha by lia.
      apply H12; eapply list_elem_of_lookup_2; eassumption.
    + rewrite lookup_app_r in Ha by lia.
      apply (H2 (i - length l1)%nat (j - length l1)%nat a b); [lia|done..].
Qed.

Lemma nondecreasing_singleton (v : Z) : nondecreasing [v].
Proof.
  intros [|i] [|j] a b _ Ha Hb; simplify_eq/=; [lia|..];
    rewrite ?lookup_nil in *; done.
Qed.

Lemma nondecreasing_snoc (l : list Z) (v : Z) :
  nondecreasing l → Forall (λ a, a ≤ v) l → nondecreasing (l ++ [v]).
Proof.
  intros Hl Hv. apply nondecreasing_app; [done|apply nondecreasing_singleton|].
  intros a b Ha ->%list_elem_of_singleton.
  by eapply (proj1 (Forall_forall _ _) Hv).
Qed.

Section matchLoop_outcome.
Variables (avgBg : Rgb) (tolerance : Js.number) (MAX_ITERATIONS : Z).
Variable onProgress : bool.
Variables data trace : list Z.

Let Inv := matchInv avgBg tolerance MAX_ITERATIONS onProgress data trace.

Lemma matchInv_start : Inv 0%nat (mkMatchState data 0 30 trace).
Proof.
  unfold Inv, matchInv. simpl. split; [by left|]. do 2 (split; [done|]).
  split; [lia|]. exists []. rewrite app_nil_r.
  auto using nondecreasing_nil.
Qed.

Lemma matchInv_step k st st' :
  Inv k st →
  matchStep avgBg tolerance MAX_ITERATIONS onProgress k st = Ok st' →
  Inv (S k) st'.
Proof.
  intros (_ & Hpix & Hit & Hlast & extra & Hrep & Hoff & Hall & Hmono).
  intros (Hmax & Hpix' & Hit' & Hrep')%matchStep_Ok.
  split; [right; lia|]. split; [by rewrite fold_left_seq_S, <- Hpix|].
  split; [lia|].
  destruct Hrep' as [[Hr Hl]|(Hon & Hl & Hr)].
  - rewrite Hl. split; [done|]. exists extra. by rewrite Hr.
  - split; [lia|]. exists (extra ++ [lastReportedPixelProgress st']).
    split; [by rewrite Hr, Hrep, app_assoc|].
    split; [intros; congruence|]. split.
    + apply Forall_app. split.
      * eapply Forall_impl; [exact Hall|]. simpl. lia.
      * apply Forall_singleton. lia.
    + apply nondecreasing_snoc; [done|].
      eapply Forall_impl; [exact Hall|]. simpl. lia.
Qed.

(** How the loop ends. *)
Lemma matchLoop_outcome :
  match matchLoop avgBg tolerance MAX_ITERATIONS onProgress data trace with
  | Completed st => Inv (length (pixelIterations data)) st
  | Aborted e st =>
      e = ProcessingTimeout ∧
      ∃ k, (k < length (pixelIterations data))%nat ∧ Inv k st ∧
           MAX_ITERATIONS < Z.of_nat k + 1
  end.
Proof.
  unfold matchLoop, pixelIterations. rewrite length_seq.
  pose proof (forLoop_inv Inv
    (matchStep avgBg tolerance MAX_ITERATIONS onProgress)
    (Z.to_nat ((len data + 3) / 4)) 0%nat (mkMatchState data 0 30 trace)
    matchInv_start) as H.
  destruct (forLoop _ _ _) as [st|e st].
  - apply H. intros k s s' _. apply matchInv_step.
  - destruct H as (k & Hk & HI & HT).
    { intros k s s' _. apply matchInv_step. }
    apply matchStep_Throw in HT as [-> HT].
    split; [done|]. exists k. split; [lia|]. split; [done|].
    destruct HI as (_ & _ & Hit & _). lia.
Qed.
End matchLoop_outcome.

(** ** The loop of [manipulateAlphaByColorMatch] *)

Lemma alphaStep_data targetRgb tolerance onProgress k st :
  alphaData (alphaStep targetRgb tolerance onProgress k st)
  = clearIf (matchesTarget targetRgb tolerance) (alphaData st) k.
Proof. unfold alphaStep. by destruct (_ && _). Qed.

Lemma manipulateAlphaByColorMatch_data data targetRgb tolerance onProgress :
  (manipulateAlphaByColorMatch data targetRgb tolerance onProgress).1
  = fold_left (clearIf (matchesTarget targetRgb tolerance))
      (pixelIterations data) data.
Proof.
  unfold manipulateAlphaByColorMatch, pixelIterations. simpl.
  generalize (Z.to_nat ((len data + 3) / 4)). intros n.
  apply (fold_left_seq_inv
           (λ m st, alphaData st
              = fold_left (clearIf (matchesTarget targetRgb tolerance))
                  (seq 0 m) data) _ n 0%nat); [done|].
  intros k st _ Hst. by rewrite fold_left_seq_S, alphaStep_data, Hst.
Qed.

(** ** What a pass leaves in the array *)

Lemma seq_pixelIterations data :
  seq 0 (length (pixelIterations data)) = pixelIterations data.
Proof. unfold pixelIterations. by rewrite length_seq. Qed.

Lemma pixelIterations_covers data j :
  0 ≤ j < len data →
  0 ≤ j < 4 * Z.of_nat (Z.to_nat ((len data + 3) / 4)).
Proof. lia. Qed.

Lemma clearIf_alphaPass (test : Rgb → bool) (hit : Rgb → Prop) data :
  (∀ c, test c = true ↔ hit c) →
  alphaPass hit data (fold_left (clearIf test) (pixelIterations data) data).
Proof.
  intros Htest. unfold pixelIterations. split.
  { apply fold_pixelwise_len, clearIf_len. }
  intros k Hk Hin.
  assert (∀ c, 0 ≤ c < 4 → 4 * ((4 * k + c) / 4) = 4 * k) as Hdiv by lia.
  assert (∀ c, 0 ≤ c < 4 → (4 * k + c) mod 4 = c) as Hmod by lia.
  pose proof (Hdiv 0) as Hdiv0. rewrite Z.add_0_r in Hdiv0.
  pose proof (Hmod 0) as Hmod0. rewrite Z.add_0_r in Hmod0.
  rewrite !clearIf_loop.
  rewrite !decide_True by (apply pixelIterations_covers; lia).
  rewrite Hdiv0, Hmod0, !Hdiv, !Hmod by lia.
  rewrite !bool_decide_eq_false_2, !andb_false_r by lia.
  do 3 (split; [done|]).
  rewrite bool_decide_eq_true_2, andb_true_r by done.
  destruct (readAt_in_range data (4 * k + 3)) as [a Ha]; [lia|]. rewrite Ha.
  destruct (test (pixelRgb data (4 * k))) eqn:Ht; simpl.
  - apply Htest in Ht. split; [tauto|done].
  - assert (¬ hit (pixelRgb data (4 * k))) as Hno.
    { rewrite <- Htest. congruence. }
    split; [|done]. split; [by right|]. by intros [?|?].
Qed.

(** ** C1: what the matching pass does to alpha *)




(** ** Exact values of the quotients *)

Lemma Qfloor_div (a b : Z) : Qfloor (inject_Z a / inject_Z b) = a / b.
Proof. symmetry. apply Zdiv_Qdiv. Qed.

Lemma inject_Z_nonzero (n : Z) : n ≠ 0 → ¬ (inject_Z n == 0)%Q.
Proof. unfold Qeq. simpl. lia. Qed.

(** The percentage computed by [manipulateAlphaByColorMatch] after
    [processed] of [n] pixels. *)
Lemma alpha_progress_value (n processed : Z) :
  0 < n →
  Js.floor (inject_Z processed / (inject_Z (4 * n) / 4) * 100)%Q
  = 100 * processed / n.
Proof.
  intros Hn. unfold Js.floor. rewrite <- Qfloor_div.
  apply Qfloor_comp. rewrite !inject_Z_mult.
  pose proof (inject_Z_nonzero n ltac:(lia)) as Hn0.
  change (inject_Z 4) with 4%Q. change (inject_Z 100) with 100%Q.
  field. done.
Qed.

Lemma percent_range (n k : Z) : 0 < n → 0 ≤ k ≤ n → 0 ≤ 100 * k / n ≤ 100.
Proof.
  intros Hn Hk. split.
  - apply Z.div_pos; lia.
  - apply Z.div_le_upper_bound; lia.
Qed.

Lemma percent_mono (n k : Z) : 0 < n → 100 * k / n ≤ 100 * (k + 1) / n.
Proof. intros Hn. apply Z.div_le_mono; lia. Qed.

Lemma percent_full (n : Z) : 0 < n → 100 * n / n = 100.
Proof. intros Hn. apply Z.div_mul. lia. Qed.

(** ** Progress of [manipulateAlphaByColorMatch] *)

Section alphaTrace.
Variables (targetRgb : Rgb) (tolerance : Js.number) (onProgress : bool).
Variable n : Z.

Lemma alphaTraceInv_step (k : nat) (st : AlphaState) :
  Z.of_nat k < n →
  alphaTraceInv onProgress n k st →
  alphaTraceInv onProgress n (S k)
    (alphaStep targetRgb tolerance onProgress k st).
Proof.
  intros Hk (Hlen & Hpct & Hmono & Hle & Hoff & Hzero & Hon).
  assert (0 < n) as Hn by lia.
  pose proof (percent_range n (Z.of_nat k + 1) Hn ltac:(lia)) as Hrange.
  pose proof (percent_mono n (Z.of_nat k) Hn) as Hup.
  unfold alphaStep.
  replace (4 * Z.of_nat k / 4 + 1) with (Z.of_nat k + 1) by lia.
  rewrite Hlen, alpha_progress_value by done.
  set (progress := 100 * (Z.of_nat k + 1) / n) in *.
  assert (100 * Z.of_nat (S k) / n = progress) as HS.
  { unfold progress. f_equal. lia. }
  assert (len (clearIf (matchesTarget targetRgb tolerance) (alphaData st) k)
          = 4 * n) as Hlen' by (by rewrite clearIf_len).
  destruct onProgress eqn:Hp; simpl.
  - destruct (Z.ltb_spec (lastReportedProgress st) progress) as [Hlt|Hge].
    + unfold alphaTraceInv. simpl. split; [exact Hlen'|].
      split; [apply Forall_app; split; [done|by apply Forall_singleton]|].
      split.
      { apply nondecreasing_snoc; [done|].
        eapply Forall_impl; [exact Hle|]. simpl. lia. }
      split.
      { apply Forall_app. split; [|by apply Forall_singleton].
        eapply Forall_impl; [exact Hle|]. simpl. lia. }
      split; [done|]. split; [done|]. intros _ _.
      by rewrite HS, last_snoc.
    + unfold alphaTraceInv. simpl. split; [exact Hlen'|].
      do 3 (split; [done|]). split; [done|]. split; [done|]. intros _ _.
      destruct k as [|k].
      * destruct Hzero as [Hm _]; [done|]. lia.
      * destruct Hon as [Hl Hlast]; [done|lia|].
        split; [|done]. lia.
  - unfold alphaTraceInv. simpl. split; [exact Hlen'|].
    do 3 (split; [done|]). split; [done|]. split; [done|]. done.
Qed.

(** The state after the loop. *)
Lemma alphaTraceInv_end (data : list Z) :
  len data = 4 * n →
  alphaTraceInv onProgress n (Z.to_nat n)
    (fold_left (λ st k, alphaStep targetRgb tolerance onProgress k st)
       (pixelIterations data) (mkAlphaState data (-1) [])).
Proof.
  intros Hlen. unfold pixelIterations.
  replace (Z.to_nat ((len data + 3) / 4)) with (Z.to_nat n) by lia.
  pose proof (len_nonneg data) as Hnn.
  apply (fold_left_seq_inv (λ k st, alphaTraceInv onProgress n k st)
           _ (Z.to_nat n) 0%nat).
  - unfold alphaTraceInv, percentages. simpl.
    split; [done|]. split; [done|]. split; [apply nondecreasing_nil|].
    split; [done|]. split; [done|]. split; [done|]. lia.
  - intros k st Hk. apply alphaTraceInv_step. lia.
Qed.

(** The values reported by one call. *)
Lemma manipulateAlphaByColorMatch_progress (data : list Z) :
  len data = 4 * n →
  progressContract onProgress true
    (manipulateAlphaByColorMatch data targetRgb tolerance onProgress).2.
Proof.
  intros Hlen. pose proof (alphaTraceInv_end data Hlen) as H.
  unfold manipulateAlphaByColorMatch. simpl.
  destruct H as (_ & Hpct & Hmono & Hle & Hoff & Hzero & Hon).
  set (st := fold_left _ _ _) in *.
  pose proof (len_nonneg data) as Hnn. unfold progressContract.
  destruct onProgress eqn:Hp; simpl.
  - destruct (decide (n = 0)) as [->|Hn].
    + destruct Hzero as [Hl Hr]; [done|]. rewrite Hr, Hl. simpl.
      replace (0 <? len data) with false by (symmetry; apply Z.ltb_ge; lia).
      replace (len data =? 0) with true by (symmetry; apply Z.eqb_eq; lia).
      simpl. split; [apply nondecreasing_singleton|].
      split; [apply Forall_singleton; lia|done].
    + destruct Hon as [Hl Hlast]; [done|lia|].
      rewrite Z2Nat.id, percent_full in Hl by lia.
      rewrite Hl in *. simpl.
      replace (len data =? 0) with false by (symmetry; apply Z.eqb_neq; lia).
      done.
  - rewrite Hoff by done. split; [apply nondecreasing_nil|].
    split; [by apply Forall_nil|done].
Qed.
End alphaTrace.

(** ** Progress of [removeBackground] *)

Lemma nondecreasing_app_bound (m : Z) (l1 l2 : list Z) :
  nondecreasing l1 → nondecreasing l2 →
  Forall (λ a, a ≤ m) l1 → Forall (λ b, m ≤ b) l2 →
  nondecreasing (l1 ++ l2).
Proof.
  intros H1 H2 Hl1 Hl2. apply nondecreasing_app; [done..|].
  intros a b Ha Hb.
  pose proof (proj1 (Forall_forall _ _) Hl1 a Ha).
  pose proof (proj1 (Forall_forall _ _) Hl2 b Hb). simpl in *. lia.
Qed.

Lemma processImageData_progress onProgress width height data trace0 :
  nondecreasing trace0 →
  Forall (λ v, 0 ≤ v ≤ 30) trace0 →
  (onProgress = false → trace0 = []) →
  progressContract onProgress
    (succeeded (processImageData onProgress width height data trace0).1)
    (processImageData onProgress width height data trace0).2.
Proof.
  intros Hmono Hrange Hoff. unfold processImageData.
  set (avgBg := averageBackground _ _ _ _).
  set (trace1 := report onProgress trace0 30).
  pose proof (matchLoop_outcome avgBg colorMatchTolerance MAX_ITERATIONS
                onProgress data trace1) as H.
  assert (∀ k st,
            matchInv avgBg colorMatchTolerance MAX_ITERATIONS onProgress data
              trace1 k st →
            nondecreasing (reported st) ∧
            Forall (λ v, 0 ≤ v ≤ 90) (reported st) ∧
            (onProgress = false → reported st = []) ∧
            (onProgress = true → reported st ≠ [])) as Hinv.
  { intros k st (_ & _ & _ & Hlast & extra & -> & Hex & Hall & Hmon).
    unfold trace1, report. destruct onProgress.
    - split.
      + apply (nondecreasing_app_bound 30); [|done| |].
        * apply nondecreasing_snoc; [done|].
          eapply Forall_impl; [exact Hrange|]. simpl. lia.
        * apply Forall_app. split; [|apply Forall_singleton; lia].
          eapply Forall_impl; [exact Hrange|]. simpl. lia.
        * eapply Forall_impl; [exact Hall|]. simpl. lia.
      + split; [|split; [done|]].
        * repeat apply Forall_app, conj.
          -- eapply Forall_impl; [exact Hrange|]. simpl. lia.
          -- apply Forall_singleton. lia.
          -- eapply Forall_impl; [exact Hall|]. simpl. lia.
        * intros _. destruct trace0; done.
    - rewrite Hoff, Hex by done. simpl.
      split; [apply nondecreasing_nil|]. split; [by apply Forall_nil|done]. }
  destruct (matchLoop _ _ _ _ _ _) as [st|e st]; simpl.
  - apply Hinv in H as (Hm & Hr & Hoff' & Hne). unfold progressContract, report.
    destruct onProgress.
    + split.
      { apply nondecreasing_snoc.
        - apply nondecreasing_snoc; [done|].
          eapply Forall_impl; [exact Hr|]. simpl. lia.
        - apply Forall_app. split; [|apply Forall_singleton; lia].
          eapply Forall_impl; [exact Hr|]. simpl. lia. }
      split.
      { unfold percentages. repeat apply Forall_app, conj.
        - eapply Forall_impl; [exact Hr|]. simpl. lia.
        - apply Forall_singleton. lia.
        - apply Forall_singleton. lia. }
      split; [done|]. intros _ _. apply last_snoc.
    + rewrite Hoff' by done. split; [apply nondecreasing_nil|].
      split; [by apply Forall_nil|done].
  - destruct H as (_ & k & _ & HI & _).
    apply Hinv in HI as (Hm & Hr & Hoff' & Hne). unfold progressContract.
    split; [done|]. split; [|done].
    eapply Forall_impl; [exact Hr|]. simpl. lia.
Qed.

(** The ways [removeBackground] can end. *)
Lemma removeBackground_cases imageFile onProgress browser :
  (∃ e, removeBackground imageFile onProgress browser = (Throw e, []))
  ∨ removeBackground imageFile onProgress browser
    = (Throw ContextUnavailable, report onProgress [] 10)
  ∨ ∃ f width height rgba,
      imageFile = IsFile f ∧
      File.bytes f = File.Picture width height rgba ∧
      checkDimensions width height = Ok () ∧
      removeBackground imageFile onProgress browser
      = processImageData onProgress width height
          (getImageData width height rgba)
          (report onProgress (report onProgress [] 10) 20).
Proof.
  unfold removeBackground.
  destruct imageFile as [|f|f]; [by left; eexists| |].
  - destruct (validateImage _); left; by eexists.
  - destruct (validateImage _); [|by left; eexists].
    destruct (readerGivesString browser); simpl; [|by left; eexists].
    destruct (File.bytes f) as [|w h rgba] eqn:Hb; [by left; eexists|].
    destruct (checkDimensions w h) as [[]|e] eqn:Hc; [|by left; eexists].
    destruct (context2d browser); simpl; [|by right; left].
    right; right. by exists f, w, h, rgba.
Qed.

Lemma removeBackground_progress imageFile onProgress browser :
  progressContract onProgress
    (succeeded (removeBackground imageFile onProgress browser).1)
    (removeBackground imageFile onProgress browser).2.
Proof.
  destruct (removeBackground_cases imageFile onProgress browser)
    as [[e ->]|[->|(f & w & h & rgba & _ & _ & _ & ->)]]; simpl.
  - split; [apply nondecreasing_nil|]. split; [by apply Forall_nil|done].
  - unfold report. destruct onProgress; simpl.
    + split; [apply nondecreasing_singleton|].
      split; [apply Forall_singleton; lia|done].
    + split; [apply nondecreasing_nil|]. split; [by apply Forall_nil|done].
  - apply processImageData_progress; unfold report; destruct onProgress; simpl;
      try done; try apply nondecreasing_nil.
    + apply (nondecreasing_snoc [10] 20); [apply nondecreasing_singleton|].
      apply Forall_singleton. lia.
    + repeat constructor; lia.
Qed.



(** ** C9: the ceiling on the iterations *)

Lemma MAX_ITERATIONS_value : MAX_ITERATIONS = 45000000.
Proof. reflexivity. Qed.

Lemma matchLoop_ceiling avgBg tolerance ceiling onProgress data trace n :
  0 ≤ ceiling →
  len data = 4 * n →
  (ceiling < n →
   ∃ st, matchLoop avgBg tolerance ceiling onProgress data trace
         = Aborted ProcessingTimeout st)
  ∧ (n ≤ ceiling →
     ∃ st, matchLoop avgBg tolerance ceiling onProgress data trace
           = Completed st).
Proof.
  intros Hc Hlen.
  pose proof (matchLoop_outcome avgBg tolerance ceiling onProgress data trace)
    as H.
  assert (length (pixelIterations data) = Z.to_nat n) as Hn.
  { unfold pixelIterations. rewrite length_seq. lia. }
  rewrite Hn in H.
  destruct (matchLoop _ _ _ _ _ _) as [st|e st].
  - destruct H as (Hk & _). split; [|by eexists]. intros Hgt. lia.
  - destruct H as (-> & k & Hk & _ & Hmax). split; [by eexists|].
    intros Hle. lia.
Qed.



(** ** C3: the dimension gate *)

(** C3.  The checks are made in this order: a width or height of 0 gives the
    zero-dimension error; otherwise a longer side above 8000 gives the
    dimension error; otherwise more than 30,000,000 pixels give the
    resolution error; otherwise the gate passes: the gate rejects exactly
    when one of the three conditions holds.  When the gate rejects a
    picture that was validated and read, [removeBackground] rejects with that
    error whatever the pixels are, and no progress value has been reported:
    the first checkpoint, which precedes the canvas, the sampling and the
    pixel loop, was not reached.  A 9000 x 9000 picture is rejected so. *)
Theorem dimension_gate_rejects_before_sampling
    (f : File.t) (onProgress : bool) (browser : Browser)
    (naturalWidth naturalHeight : Z) (rgba : list Z) :
  validateImage (IsFile f) = Ok true →
  readerGivesString browser = true →
  File.bytes f = File.Picture naturalWidth naturalHeight rgba →
  (naturalWidth = 0 ∨ naturalHeight = 0 →
   checkDimensions naturalWidth naturalHeight = Throw ZeroDimension)
  ∧ (naturalWidth ≠ 0 → naturalHeight ≠ 0 →
     8000 < Z.max naturalWidth naturalHeight →
     checkDimensions naturalWidth naturalHeight = Throw DimensionTooLarge)
  ∧ (naturalWidth ≠ 0 → naturalHeight ≠ 0 →
     Z.max naturalWidth naturalHeight ≤ 8000 →
     30000000 < naturalWidth * naturalHeight →
     checkDimensions naturalWidth naturalHeight = Throw TooManyPixels)
  ∧ (naturalWidth ≠ 0 → naturalHeight ≠ 0 →
     Z.max naturalWidth naturalHeight ≤ 8000 →
     naturalWidth * naturalHeight ≤ 30000000 →
     checkDimensions naturalWidth naturalHeight = Ok ())
  ∧ (succeeded (checkDimensions naturalWidth naturalHeight) = false
     ↔ naturalWidth = 0 ∨ naturalHeight = 0
       ∨ 8000 < Z.max naturalWidth naturalHeight
       ∨ 30000000 < naturalWidth * naturalHeight)
  ∧ (∀ e, checkDimensions naturalWidth naturalHeight = Throw e →
          removeBackground (IsFile f) onProgress browser = (Throw e, []))
  ∧ checkDimensions 9000 9000 = Throw DimensionTooLarge.
Proof.
  intros Hvalid Hread Hbytes.
  assert (succeeded (checkDimensions naturalWidth naturalHeight) = false
          ↔ naturalWidth = 0 ∨ naturalHeight = 0
            ∨ 8000 < Z.max naturalWidth naturalHeight
            ∨ 30000000 < naturalWidth * naturalHeight) as Hiff.
  { unfold checkDimensions.
    change MAX_DIMENSION_SIDE with 8000.
    change MAX_TOTAL_IMAGE_PIXELS with 30000000.
    destruct (Z.eqb_spec naturalWidth 0), (Z.eqb_spec naturalHeight 0);
      simpl; try (split; [intros _|done]; lia).
    destruct (Z.ltb_spec 8000 naturalWidth), (Z.ltb_spec 8000 naturalHeight);
      simpl; try (split; [intros _|done]; lia).
    destruct (Z.ltb_spec 30000000 (naturalWidth * naturalHeight)); simpl;
      (split; [intros ?|intros ?]); try done; lia. }
  unfold checkDimensions.
  change MAX_DIMENSION_SIDE with 8000.
  change MAX_TOTAL_IMAGE_PIXELS with 30000000.
  split; [|split; [|split; [|split; [|split; [exact Hiff|split]]]]].
  - intros Hz.
    destruct (Z.eqb_spec naturalWidth 0), (Z.eqb_spec naturalHeight 0);
      simpl; try done; lia.
  - intros Hw Hh Hmax.
    destruct (Z.eqb_spec naturalWidth 0), (Z.eqb_spec naturalHeight 0);
      try done; simpl.
    destruct (Z.ltb_spec 8000 naturalWidth), (Z.ltb_spec 8000 naturalHeight);
      simpl; try done; lia.
  - intros Hw Hh Hmax Hpix.
    destruct (Z.eqb_spec naturalWidth 0), (Z.eqb_spec naturalHeight 0);
      try done; simpl.
    destruct (Z.ltb_spec 8000 naturalWidth), (Z.ltb_spec 8000 naturalHeight);
      simpl; try lia.
    destruct (Z.ltb_spec 30000000 (naturalWidth * naturalHeight)); [done|lia].
  - intros Hw Hh Hmax Hpix.
    destruct (Z.eqb_spec naturalWidth 0), (Z.eqb_spec naturalHeight 0);
      try done; simpl.
    destruct (Z.ltb_spec 8000 naturalWidth), (Z.ltb_spec 8000 naturalHeight);
      simpl; try lia.
    destruct (Z.ltb_spec 30000000 (naturalWidth * naturalHeight)); [lia|done].
  - intros e He. unfold removeBackground.
    rewrite Hvalid, Hread, Hbytes. simpl. unfold checkDimensions.
    change MAX_DIMENSION_SIDE with 8000.
    change MAX_TOTAL_IMAGE_PIXELS with 30000000. by rewrite He.
  - reflexivity.
Qed.

Lemma dimension_gate_witness :
  validateImage
    (IsFile (File.mk "image/png" 1000 (File.Picture 9000 9000 []))) = Ok true
  ∧ readerGivesString (mkBrowser true true) = true
  ∧ removeBackground
      (IsFile (File.mk "image/png" 1000 (File.Picture 9000 9000 [])))
      true (mkBrowser true true)
    = (Throw DimensionTooLarge, []).
Proof.
  split; [reflexivity|]. split; [reflexivity|].
  destruct (dimension_gate_rejects_before_sampling
              (File.mk "image/png" 1000 (File.Picture 9000 9000 []))
              true (mkBrowser true true) 9000 9000 []
              eq_refl eq_refl eq_refl) as (_ & _ & _ & _ & _ & Hreject & Hbig).
  apply Hreject, Hbig.
Defined.

(** ** C4: validation *)

(** [includes] is membership. *)
Lemma includes_In (array : list string) (s : string) :
  includes array s = true ↔ In s array.
Proof.
  induction array as [|t rest IH]; simpl; [done|].
  rewrite orb_true_iff, IH, String.eqb_eq. tauto.
Qed.

(** C4.  [validateImageFile] rejects an absent candidate as empty, a file
    whose declared type is not among the allowed types as of invalid type,
    and a file of an allowed type whose size exceeds the maximum as too
    large; every other file passes, so that a file is rejected exactly when
    its type is not allowed or its size exceeds the maximum.  The allowed
    types default to image/jpeg, image/png, image/webp and image/jpg.
    [validateImage] does the same with these four types and a maximum of
    20 MB.  The verdict depends on the declared type and the size only: two
    files that differ in what their bytes decode to (their pixel dimensions)
    get the same verdict. *)
Theorem validation_verdicts
    (options : ValidationOptions) (f f' : File.t) :
  File.type f = File.type f' →
  File.size f = File.size f' →
  let allowed := default VALID_IMAGE_TYPES (allowedTypes options) in
  let maximum := default MAX_FILE_SIZE_BYTES (maxFileSize options) in
  validateImageFile Missing options = Throw EmptyCandidate
  ∧ (¬ In (File.type f) allowed →
     validateImageFile (IsFile f) options = Throw InvalidType)
  ∧ (In (File.type f) allowed → maximum < File.size f →
     validateImageFile (IsFile f) options = Throw FileTooLarge)
  ∧ (In (File.type f) allowed → File.size f ≤ maximum →
     validateImageFile (IsFile f) options = Ok true)
  ∧ (succeeded (validateImageFile (IsFile f) options) = false
     ↔ ¬ In (File.type f) allowed ∨ maximum < File.size f)
  ∧ VALID_IMAGE_TYPES
    = ["image/jpeg"; "image/png"; "image/webp"; "image/jpg"]%string
  ∧ validateImage Missing = Throw EmptyCandidate
  ∧ validateImage (IsFile f)
    = validateImageFile (IsFile f)
        (mkValidationOptions (Some (20 * 1024 * 1024)) None)
  ∧ validateImageFile (IsFile f) options = validateImageFile (IsFile f') options
  ∧ validateImage (IsFile f) = validateImage (IsFile f').
Proof.
  intros Htype Hsize allowed maximum. unfold validateImageFile, validateImage.
  fold allowed maximum. simpl. rewrite <- Htype, <- Hsize.
  split; [done|]. split.
  { intros Hno. rewrite <- includes_In in Hno.
    by destruct (includes allowed (File.type f)). }
  split.
  { intros Hin%includes_In Hbig. rewrite Hin. simpl.
    by destruct (Z.ltb_spec maximum (File.size f)); [|lia]. }
  split.
  { intros Hin%includes_In Hsmall. rewrite Hin. simpl.
    by destruct (Z.ltb_spec maximum (File.size f)); [lia|]. }
  split; [|done].
  rewrite <- includes_In.
  destruct (includes allowed (File.type f)); simpl.
  - destruct (Z.ltb_spec maximum (File.size f)); simpl.
    + split; [by right|done].
    + split; [done|]. intros [Hno|Hbig]; [by destruct Hno|lia].
  - split; [intros _; left; congruence|done].
Qed.

Lemma validation_witness :
  File.type (File.mk "image/gif" 10 File.Corrupt)
  = File.type (File.mk "image/gif" 10 (File.Picture 9000 9000 []))
  ∧ File.size (File.mk "image/gif" 10 File.Corrupt)
    = File.size (File.mk "image/gif" 10 (File.Picture 9000 9000 []))
  ∧ validateImageFile (IsFile (File.mk "image/gif" 10 File.Corrupt))
      (mkValidationOptions None None)
    = Throw InvalidType.
Proof.
  split; [reflexivity|]. split; [reflexivity|].
  destruct (validation_verdicts (mkValidationOptions None None)
              (File.mk "image/gif" 10 File.Corrupt)
              (File.mk "image/gif" 10 (File.Picture 9000 9000 []))
              eq_refl eq_refl) as (_ & Hinvalid & _).
  apply Hinvalid. simpl. intros H. decompose [or] H; discriminate || done.
Defined.

(** ** C5: resizing *)

(** [Math.round] of a quotient of integers. *)
Lemma round_div (a b : Z) :
  0 < b → Js.round (inject_Z a / inject_Z b) = (2 * a + b) / (2 * b).
Proof.
  intros Hb. unfold Js.round. rewrite <- Qfloor_div. apply Qfloor_comp.
  rewrite inject_Z_plus, !inject_Z_mult.
  pose proof (inject_Z_nonzero b ltac:(lia)) as Hb0.
  change (inject_Z 2) with 2%Q. field. done.
Qed.

(** The side computed by the source, [(other / longer) * target], is the
    rounded value of [other * target / longer]. *)
Lemma round_scaled (other longer target : Z) :
  0 < longer →
  Js.round (inject_Z other / inject_Z longer * inject_Z target)
  = Js.round (inject_Z (other * target) / inject_Z longer).
Proof.
  intros Hl. unfold Js.round. apply Qfloor_comp.
  rewrite inject_Z_mult.
  pose proof (inject_Z_nonzero longer ltac:(lia)) as Hl0.
  field. done.
Qed.

(** The rounded quotient is within half a unit of the exact one. *)
Lemma round_div_close (a b : Z) :
  0 < b → Z.abs (2 * ((2 * a + b) / (2 * b)) * b - 2 * a) ≤ b.
Proof.
  intros Hb.
  pose proof (Z.div_mod (2 * a + b) (2 * b) ltac:(lia)).
  pose proof (Z.mod_pos_bound (2 * a + b) (2 * b) ltac:(lia)).
  lia.
Qed.

Lemma round_div_bounds (a b : Z) :
  0 < b → 0 ≤ a → 0 ≤ (2 * a + b) / (2 * b) ∧ ((2 * a + b) / (2 * b)) * b ≤ a + b.
Proof.
  intros Hb Ha.
  pose proof (Z.div_mod (2 * a + b) (2 * b) ltac:(lia)).
  pose proof (Z.mod_pos_bound (2 * a + b) (2 * b) ltac:(lia)).
  split; [apply Z.div_pos; lia|nia].
Qed.

(** What the resize step computes for the shorter side. *)
Lemma scaled_side (other longer target : Z) :
  1 ≤ other → other ≤ longer → 1 ≤ target → target < longer →
  let side :=
    Z.max 1 (Js.round (inject_Z other / inject_Z longer * inject_Z target)) in
  side = Z.max 1 (Js.round (inject_Z (other * target) / inject_Z longer))
  ∧ 1 ≤ side ≤ target
  ∧ Z.abs (side * longer - other * target) ≤ longer.
Proof.
  intros Ho Hol Ht Htl side. subst side.
  rewrite round_scaled, round_div by lia.
  pose proof (round_div_close (other * target) longer ltac:(lia)) as Hclose.
  pose proof (round_div_bounds (other * target) longer ltac:(lia) ltac:(nia))
    as [Hq0 Hq].
  set (q := (2 * (other * target) + longer) / (2 * longer)) in *.
  split; [done|]. split; [nia|].
  destruct (Z.max_spec 1 q) as [[Hlt ->]|[Hge ->]]; nia.
Qed.



(** ** C6: grayscale conversion *)

(** The luminosity of a gray pixel is its gray level: checked on the 256
    levels, in binary64. *)
Lemma luminosity_gray_table :
  forallb (λ v, bool_decide (luminosity (Some v) (Some v) (Some v) = Some v))
    (seqZ 0 256) = true.
Proof. vm_compute. reflexivity. Qed.

Lemma luminosity_gray (v : Z) :
  0 ≤ v ≤ 255 → luminosity (Some v) (Some v) (Some v) = Some v.
Proof.
  intros Hv. pose proof luminosity_gray_table as H.
  rewrite forallb_forall in H.
  assert (In v (seqZ 0 256)) as Hin by (apply list_elem_of_In, elem_of_seqZ; lia).
  apply H in Hin. by apply bool_decide_eq_true in Hin.
Qed.

Lemma grayscaleStep_len d k : len (grayscaleStep d k) = len d.
Proof. unfold grayscaleStep. by rewrite !len_writeAt. Qed.

Lemma grayscaleStep_frame d k j :
  ¬ inPixel k j → readAt (grayscaleStep d k) j = readAt d j.
Proof.
  unfold grayscaleStep, inPixel. intros Hj.
  rewrite !readAt_writeAt_ne by lia. done.
Qed.

(** A cell after a write at the same index. *)
Lemma readAt_writeAt_same d i v :
  readAt (writeAt d i v) i = (λ _, toUint8Clamp v) <$> readAt d i.
Proof.
  destruct (decide (0 ≤ i < len d)) as [Hi|Hi].
  - rewrite readAt_writeAt_eq by done.
    destruct (readAt_in_range d i Hi) as [z ->]. done.
  - rewrite !readAt_out_of_range; [done|lia|rewrite len_writeAt; lia].
Qed.

(** The cell [j] of pixel [k] after the iteration. *)
Lemma grayscaleStep_at d k j :
  inPixel k j →
  readAt (grayscaleStep d k) j =
    if bool_decide (j = 4 * Z.of_nat k + 3) then readAt d j
    else (λ _, grayOf d (4 * Z.of_nat k)) <$> readAt d j.
Proof.
  unfold grayscaleStep, inPixel, grayOf. intros Hj.
  set (i := 4 * Z.of_nat k) in *. set (gray := luminosity _ _ _).
  case_bool_decide as H3.
  - rewrite !readAt_writeAt_ne by lia. done.
  - destruct (decide (j = i + 2)) as [->|H2].
    { rewrite readAt_writeAt_same, !readAt_writeAt_ne by lia. done. }
    rewrite readAt_writeAt_ne by lia.
    destruct (decide (j = i + 1)) as [->|H1].
    { rewrite readAt_writeAt_same, !readAt_writeAt_ne by lia. done. }
    rewrite readAt_writeAt_ne by lia.
    replace j with i by lia. apply readAt_writeAt_same.
Qed.

Lemma grayOf_local d d' i :
  (∀ j, i ≤ j < i + 4 → readAt d j = readAt d' j) → grayOf d i = grayOf d' i.
Proof. intros H. unfold grayOf. rewrite !H by lia. done. Qed.

Lemma grayscaleStep_local d d' k :
  len d = len d' →
  (∀ j, inPixel k j → readAt d j = readAt d' j) →
  ∀ j, inPixel k j → readAt (grayscaleStep d k) j = readAt (grayscaleStep d' k) j.
Proof.
  intros Hlen H j Hj. rewrite !grayscaleStep_at by done.
  rewrite (grayOf_local d d') by (intros; apply H; unfold inPixel; lia).
  by rewrite H.
Qed.

(** The conversion, cell by cell. *)
Lemma convertToGrayscaleInPlace_at d j :
  readAt (convertToGrayscaleInPlace d) j =
    if bool_decide (j mod 4 = 3) then readAt d j
    else (λ _, grayOf d (4 * (j / 4))) <$> readAt d j.
Proof.
  unfold convertToGrayscaleInPlace, pixelIterations.
  rewrite (fold_pixelwise _ grayscaleStep_len grayscaleStep_frame
             grayscaleStep_local).
  destruct (decide (0 ≤ j < len d)) as [Hj|Hj].
  - rewrite decide_True by (by apply pixelIterations_covers).
    rewrite grayscaleStep_at by (unfold inPixel; lia).
    replace (4 * Z.of_nat (Z.to_nat (j / 4))) with (4 * (j / 4)) by lia.
    repeat case_bool_decide; try done; lia.
  - rewrite (readAt_out_of_range d j) by lia.
    case_decide; [|by case_bool_decide].
    rewrite grayscaleStep_at by (unfold inPixel; lia).
    rewrite (readAt_out_of_range d j) by lia.
    by repeat case_bool_decide.
Qed.

Lemma convertToGrayscaleInPlace_len d :
  len (convertToGrayscaleInPlace d) = len d.
Proof.
  apply (fold_pixelwise_len _ grayscaleStep_len).
Qed.

(** The gray level of a converted pixel is the one it already has. *)
Lemma grayOf_converted d i :
  0 ≤ i → i mod 4 = 0 →
  grayOf (convertToGrayscaleInPlace d) i = grayOf d i.
Proof.
  intros Hi Hmod. unfold grayOf at 1.
  rewrite !convertToGrayscaleInPlace_at.
  rewrite !bool_decide_eq_false_2 by lia.
  replace (4 * (i / 4)) with i by lia.
  replace (4 * ((i + 1) / 4)) with i by lia.
  replace (4 * ((i + 2) / 4)) with i by lia.
  pose proof (toUint8Clamp_range
                (luminosity (readAt d i) (readAt d (i + 1)) (readAt d (i + 2))))
    as Hrange.
  unfold grayOf in *.
  destruct (readAt d i) as [r|]; [|done].
  destruct (readAt d (i + 1)) as [g|]; [|done].
  destruct (readAt d (i + 2)) as [b|]; [|done].
  set (gray := toUint8Clamp _) in *. cbn [fmap option_fmap option_map].
  rewrite luminosity_gray by done. unfold toUint8Clamp. lia.
Qed.

(** C6.  Converting to grayscale twice gives the same bytes as converting
    once.  One conversion keeps the length, writes the rounded luminosity
    [round(0.299 r + 0.587 g + 0.114 b)], as a byte, in the R, G and B cells
    of every pixel, and leaves alpha unchanged. *)
Theorem grayscale_idempotent (data : list Z) :
  convertToGrayscaleInPlace (convertToGrayscaleInPlace data)
  = convertToGrayscaleInPlace data
  ∧ len (convertToGrayscaleInPlace data) = len data
  ∧ ∀ k r g b a,
      0 ≤ k →
      readAt data (4 * k) = Some r → readAt data (4 * k + 1) = Some g →
      readAt data (4 * k + 2) = Some b → readAt data (4 * k + 3) = Some a →
      let gray := toUint8Clamp (luminosity (Some r) (Some g) (Some b)) in
      readAt (convertToGrayscaleInPlace data) (4 * k) = Some gray ∧
      readAt (convertToGrayscaleInPlace data) (4 * k + 1) = Some gray ∧
      readAt (convertToGrayscaleInPlace data) (4 * k + 2) = Some gray ∧
      readAt (convertToGrayscaleInPlace data) (4 * k + 3) = Some a.
Proof.
  split; [|split; [apply convertToGrayscaleInPlace_len|]].
  - apply readAt_ext. intros j.
    rewrite (convertToGrayscaleInPlace_at (convertToGrayscaleInPlace data)).
    case_bool_decide as H3; [done|].
    destruct (decide (0 ≤ j)) as [Hj|Hj].
    + rewrite grayOf_converted by lia.
      rewrite convertToGrayscaleInPlace_at, bool_decide_eq_false_2 by done.
      by destruct (readAt data j).
    + rewrite !(readAt_out_of_range _ j) by lia. done.
  - intros k r g b a Hk Hr Hg Hb Ha gray.
    rewrite !convertToGrayscaleInPlace_at.
    rewrite !bool_decide_eq_false_2 by lia.
    rewrite bool_decide_eq_true_2 by lia.
    replace (4 * (4 * k / 4)) with (4 * k) by lia.
    replace (4 * ((4 * k + 1) / 4)) with (4 * k) by lia.
    replace (4 * ((4 * k + 2) / 4)) with (4 * k) by lia.
    unfold grayOf. rewrite Hr, Hg, Hb, Ha. done.
Qed.

Lemma grayscale_witness :
  readAt [10; 200; 30; 255] (4 * 0) = Some 10
  ∧ readAt (convertToGrayscaleInPlace [10; 200; 30; 255]) (4 * 0) = Some 124
  ∧ readAt (convertToGrayscaleInPlace [10; 200; 30; 255]) (4 * 0 + 3) = Some 255.
Proof.
  split; [reflexivity|].
  destruct (grayscale_idempotent [10; 200; 30; 255]) as (_ & _ & Hpixel).
  destruct (Hpixel 0 10 200 30 255 ltac:(lia) eq_refl eq_refl eq_refl eq_refl)
    as (Hr & _ & _ & Ha).
  split; [exact Hr|exact Ha].
Defined.

(** ** C7: the Sobel filter on one color *)

Lemma solid_lookup n r g b a (i : nat) :
  solid n r g b a !! i =
    if decide (i < 4 * n)%nat
    then Some (match (i mod 4)%nat with
               | 0%nat => r | 1%nat => g | 2%nat => b | _ => a
               end)
    else None.
Proof.
  revert i. induction n as [|n IH]; intros i.
  - cbn [solid]. rewrite lookup_nil, decide_False by lia. done.
  - destruct i as [|[|[|[|i]]]]; cbn [solid lookup list_lookup];
      try (rewrite decide_True by lia; done).
    rewrite IH.
    replace (S (S (S (S i))) mod 4)%nat with (i mod 4)%nat by lia.
    repeat case_decide; try done; lia.
Qed.

Lemma solid_len n r g b a : len (solid n r g b a) = 4 * Z.of_nat n.
Proof. unfold len. induction n; simpl in *; lia. Qed.

Lemma solid_readAt n r g b a (k c : Z) :
  0 ≤ k < Z.of_nat n → 0 ≤ c < 4 →
  readAt (solid n r g b a) (4 * k + c) =
    Some (if decide (c = 0) then r else if decide (c = 1) then g
          else if decide (c = 2) then b else a).
Proof.
  intros Hk Hc. unfold readAt.
  destruct (Z.ltb_spec (4 * k + c) 0); [lia|].
  rewrite solid_lookup, decide_True by lia. f_equal.
  replace (Z.to_nat (4 * k + c) mod 4)%nat with (Z.to_nat c) by lia.
  assert (c = 0 ∨ c = 1 ∨ c = 2 ∨ c = 3) as [-> | [-> | [-> | ->]]] by lia; done.
Qed.

Lemma solid_readAt_outside n r g b a (j : Z) :
  j < 0 ∨ 4 * Z.of_nat n ≤ j → readAt (solid n r g b a) j = None.
Proof. intros Hj. apply readAt_out_of_range. rewrite solid_len. lia. Qed.

Lemma convertToGrayscaleInPlace_solid_at n r g b a (k c : Z) :
  0 ≤ k < Z.of_nat n → 0 ≤ c < 4 →
  readAt (convertToGrayscaleInPlace (solid n r g b a)) (4 * k + c)
  = readAt (solid n (toUint8Clamp (luminosity (Some r) (Some g) (Some b)))
              (toUint8Clamp (luminosity (Some r) (Some g) (Some b)))
              (toUint8Clamp (luminosity (Some r) (Some g) (Some b))) a)
      (4 * k + c).
Proof.
  intros Hk Hc. rewrite convertToGrayscaleInPlace_at.
  replace ((4 * k + c) mod 4) with c by lia.
  replace (4 * ((4 * k + c) / 4)) with (4 * k) by lia.
  unfold grayOf.
  pose proof (solid_readAt n r g b a k 0 Hk ltac:(lia)) as H0.
  rewrite Z.add_0_r in H0. rewrite H0.
  rewrite (solid_readAt n r g b a k 1), (solid_readAt n r g b a k 2) by lia.
  rewrite !solid_readAt by lia.
  cbn [fmap option_fmap option_map].
  repeat case_decide; repeat case_bool_decide; try done; lia.
Qed.

(** The grayscale of one color is one gray. *)
Lemma convertToGrayscaleInPlace_solid n r g b a :
  convertToGrayscaleInPlace (solid n r g b a)
  = solid n (toUint8Clamp (luminosity (Some r) (Some g) (Some b)))
      (toUint8Clamp (luminosity (Some r) (Some g) (Some b)))
      (toUint8Clamp (luminosity (Some r) (Some g) (Some b))) a.
Proof.
  apply readAt_ext. intros j.
  destruct (decide (0 ≤ j < 4 * Z.of_nat n)) as [Hj|Hj].
  - assert (j = 4 * (j / 4) + j mod 4) as Hd by lia. rewrite Hd.
    apply convertToGrayscaleInPlace_solid_at; lia.
  - rewrite convertToGrayscaleInPlace_at.
    rewrite !solid_readAt_outside by lia. by case_bool_decide.
Qed.

Section sobel_on_solid.
Variables (n : nat) (gray a : Z) (width height : Z).
Hypothesis Hn : Z.of_nat n = width * height.

Let grayscaleData := solid n gray gray gray a.

(** Every tap of the kernel reads the gray level. *)
Lemma convolutionStep_solid x y kernel ky sum kx :
  0 ≤ x < width → 0 ≤ y < height →
  convolutionStep grayscaleData x y width height kernel ky sum kx
  = addByte sum (mulByte (Some gray) (kernelAt kernel ky kx)).
Proof.
  intros Hx Hy. unfold convolutionStep.
  set (pixelX := Z.min (width - 1) (Z.max 0 (x + kx))).
  set (pixelY := Z.min (height - 1) (Z.max 0 (y + ky))).
  assert (0 ≤ pixelX < width) as HX by (unfold pixelX; lia).
  assert (0 ≤ pixelY < height) as HY by (unfold pixelY; lia).
  replace ((pixelY * width + pixelX) * 4)
    with (4 * (pixelY * width + pixelX) + 0) by lia.
  unfold grayscaleData. rewrite solid_readAt by nia. done.
Qed.

(** Both gradients vanish. *)
Lemma sobel_gradients_solid x y :
  0 ≤ x < width → 0 ≤ y < height →
  _applyConvolutionKernelToGrayscale grayscaleData x y width height
    SOBEL_X_KERNEL = Some 0
  ∧ _applyConvolutionKernelToGrayscale grayscaleData x y width height
      SOBEL_Y_KERNEL = Some 0.
Proof.
  intros Hx Hy. unfold _applyConvolutionKernelToGrayscale.
  cbn [fold_left]. rewrite !convolutionStep_solid by done.
  split; vm_compute kernelAt; cbn [addByte mulByte]; f_equal; lia.
Qed.

(** One pixel of the output. *)
Lemma sobelStep_solid x y out :
  0 ≤ x < width → 0 ≤ y < height →
  sobelStep grayscaleData width height y out x
  = writeAt (writeAt (writeAt (writeAt out ((y * width + x) * 4) (Some 0))
                        ((y * width + x) * 4 + 1) (Some 0))
               ((y * width + x) * 4 + 2) (Some 0))
      ((y * width + x) * 4 + 3) (Some 255).
Proof.
  intros Hx Hy. unfold sobelStep.
  destruct (sobel_gradients_solid x y Hx Hy) as [-> ->]. done.
Qed.
End sobel_on_solid.

Lemma fold_left_seqZ_inv {St : Type} (Inv : Z → St → Prop) (body : St → Z → St)
    (n : Z) (s : St) :
  0 ≤ n →
  Inv 0 s →
  (∀ i s, 0 ≤ i < n → Inv i s → Inv (i + 1) (body s i)) →
  Inv n (fold_left body (seqZ 0 n) s).
Proof.
  intros Hn H0. rewrite <- (Z2Nat.id n) by done.
  generalize (Z.to_nat n). clear Hn n. intros m.
  induction m as [|m IH]; intros Hstep.
  - by rewrite seqZ_nil.
  - rewrite seqZ_S, fold_left_app. simpl.
    replace (Z.of_nat (S m)) with (Z.of_nat m + 1) by lia.
    apply Hstep; [lia|]. apply IH. intros i t Hi. apply Hstep. lia.
Qed.

Section painting.
Variables (n : nat) (init : list Z).
Hypothesis Hinit : len init = 4 * Z.of_nat n.

Lemma paintBlack_len out p : len (paintBlack out p) = len out.
Proof. unfold paintBlack. by rewrite !len_writeAt. Qed.

Lemma paintBlack_step c out :
  0 ≤ c < Z.of_nat n →
  paintedUpTo n init c out → paintedUpTo n init (c + 1) (paintBlack out c).
Proof.
  intros Hc [Hlen Hout]. split; [by rewrite paintBlack_len|]. intros j.
  unfold paintBlack.
  destruct (decide (j = c * 4 + 3)) as [->|H3].
  { rewrite readAt_writeAt_eq by (rewrite !len_writeAt; lia).
    rewrite decide_True by lia.
    replace (c * 4 + 3) with (4 * c + 3) by lia.
    by rewrite solid_readAt by lia. }
  rewrite readAt_writeAt_ne by lia.
  destruct (decide (j = c * 4 + 2)) as [->|H2].
  { rewrite readAt_writeAt_eq by (rewrite !len_writeAt; lia).
    rewrite decide_True by lia.
    replace (c * 4 + 2) with (4 * c + 2) by lia.
    by rewrite solid_readAt by lia. }
  rewrite readAt_writeAt_ne by lia.
  destruct (decide (j = c * 4 + 1)) as [->|H1].
  { rewrite readAt_writeAt_eq by (rewrite !len_writeAt; lia).
    rewrite decide_True by lia.
    replace (c * 4 + 1) with (4 * c + 1) by lia.
    by rewrite solid_readAt by lia. }
  rewrite readAt_writeAt_ne by lia.
  destruct (decide (j = c * 4)) as [->|H0].
  { rewrite readAt_writeAt_eq by lia.
    rewrite decide_True by lia.
    replace (c * 4) with (4 * c + 0) by lia.
    by rewrite solid_readAt by lia. }
  rewrite readAt_writeAt_ne by lia. rewrite Hout.
  repeat case_decide; try done; lia.
Qed.

Lemma paintedUpTo_all out :
  paintedUpTo n init (Z.of_nat n) out → out = solid n 0 0 0 255.
Proof.
  intros [Hlen Hout]. apply readAt_ext. intros j. rewrite Hout.
  case_decide as Hj; [done|].
  rewrite solid_readAt_outside by lia.
  apply readAt_out_of_range. lia.
Qed.
End painting.

(** The two loops of [applySobelFilter] over one gray. *)
Lemma sobelLoops_solid (n : nat) (gray a width height : Z) (out : list Z) :
  0 ≤ width → 0 ≤ height →
  Z.of_nat n = width * height →
  len out = 4 * Z.of_nat n →
  sobelLoops (solid n gray gray gray a) width height out = solid n 0 0 0 255.
Proof.
  intros Hw Hh Hn Hout. apply (paintedUpTo_all n out Hout).
  rewrite Hn, (Z.mul_comm width height). unfold sobelLoops.
  apply (fold_left_seqZ_inv (λ y o, paintedUpTo n out (y * width) o));
    [done| |].
  - split; [done|]. intros j. by rewrite decide_False by lia.
  - intros y o Hy Ho.
    replace ((y + 1) * width) with (y * width + width) by lia.
    apply (fold_left_seqZ_inv (λ x o, paintedUpTo n out (y * width + x) o));
      [done|by rewrite Z.add_0_r|].
    intros x o' Hx Ho'.
    rewrite (sobelStep_solid n gray a width height Hn) by done.
    rewrite Z.add_assoc. apply (paintBlack_step n out Hout); [nia|done].
Qed.

(** *** The store *)

Lemma dataOf_new (σ : store) (img : ImageData.t) :
  dataOf (σ ++ [img]) (length σ) = ImageData.data img.
Proof. unfold dataOf. by rewrite lookup_app_r, Nat.sub_diag by lia. Qed.

Lemma dataOf_old (σ : store) (img : ImageData.t) (i : nat) :
  (i < length σ)%nat → dataOf (σ ++ [img]) i = dataOf σ i.
Proof. intros Hi. unfold dataOf. by rewrite lookup_app_l. Qed.

Lemma setData_new (σ : store) (img : ImageData.t) (d : list Z) :
  setData (length σ) d (σ ++ [img])
  = σ ++ [ImageData.mk (ImageData.width img) (ImageData.height img) d].
Proof.
  unfold setData.
  replace (length σ) with (length σ + 0)%nat at 1 by lia.
  by rewrite alter_app_r.
Qed.

Lemma len_replicate (m : nat) (v : Z) : len (replicate m v) = Z.of_nat m.
Proof. unfold len. by rewrite length_replicate. Qed.

Lemma typedArraySet_same_length (target source : list Z) :
  length target = length source → typedArraySet target source = Ok source.
Proof.
  intros Hlen. unfold typedArraySet.
  destruct (Nat.ltb_spec (length target) (length source)); [lia|].
  rewrite drop_ge by lia. by rewrite app_nil_r.
Qed.

(** C7.  When the 2D context is available, [applySobelFilter] on a source
    of one color, of any width and height, returns a new object of the same
    width and height whose every pixel is black and opaque (R = G = B = 0,
    alpha = 255); the source object, like every object that existed before
    the call, is left as it was.  The gradients vanish because the taps
    outside the image are clamped to the nearest pixel, which has the same
    gray level. *)
Theorem sobel_of_one_color_is_black
    (σ : store) (src : nat) (width height r g b a : Z) :
  0 ≤ width → 0 ≤ height →
  σ !! src
  = Some (ImageData.mk width height
            (solid (Z.to_nat (width * height)) r g b a)) →
  ∃ (out : nat) (σ' : store),
    applySobelFilter (Some src) width height true σ = (Ok out, σ')
    ∧ σ !! out = None
    ∧ σ' !! out
      = Some (ImageData.mk width height
                (solid (Z.to_nat (width * height)) 0 0 0 255))
    ∧ σ' !! src = σ !! src
    ∧ ∀ i, (i < length σ)%nat → σ' !! i = σ !! i.
Proof.
  intros Hw Hh Hsrc.
  pose proof (lookup_lt_Some _ _ _ Hsrc) as Hlt.
  set (n := Z.to_nat (width * height)) in *.
  assert (Z.of_nat n = width * height) as Hn by (unfold n; nia).
  set (zeros := replicate (Z.to_nat (width * height * 4)) 0).
  assert (len zeros = 4 * Z.of_nat n) as Hzeros.
  { unfold zeros. rewrite len_replicate. nia. }
  unfold applySobelFilter, createImageData. cbn [negb].
  fold zeros.
  rewrite dataOf_new, dataOf_old by done. cbn [ImageData.data].
  assert (dataOf σ src = solid n r g b a) as ->.
  { unfold dataOf. by rewrite Hsrc. }
  rewrite typedArraySet_same_length.
  2:{ pose proof (solid_len n r g b a) as Hs. unfold len in *. lia. }
  rewrite convertToGrayscaleInPlace_solid, setData_new.
  cbn [ImageData.width ImageData.height].
  set (gray := toUint8Clamp _).
  set (σ2 := σ ++ [ImageData.mk width height (solid n gray gray gray a)]).
  rewrite (dataOf_new σ2).
  assert (dataOf σ2 (length σ) = solid n gray gray gray a) as ->.
  { unfold σ2. by rewrite dataOf_new. }
  cbn [ImageData.data].
  rewrite sobelLoops_solid, setData_new by done.
  cbn [ImageData.width ImageData.height].
  exists (length σ2), (σ2 ++ [ImageData.mk width height (solid n 0 0 0 255)]).
  split; [done|]. unfold σ2.
  split; [apply lookup_ge_None; rewrite length_app; simpl; lia|].
  split; [by rewrite lookup_app_r, Nat.sub_diag by lia|].
  assert (∀ i, (i < length σ)%nat →
            ((σ ++ [ImageData.mk width height (solid n gray gray gray a)])
               ++ [ImageData.mk width height (solid n 0 0 0 255)]) !! i
            = σ !! i) as Hold.
  { intros i Hi. rewrite lookup_app_l by (rewrite length_app; simpl; lia).
    by rewrite lookup_app_l. }
  split; [by apply Hold|done].
Qed.

Lemma sobel_witness :
  (0 ≤ 2 ∧ 0 ≤ 2)
  ∧ ∃ (out : nat) (σ' : store),
      applySobelFilter (Some 0%nat) 2 2 true
        [ImageData.mk 2 2 (solid (Z.to_nat (2 * 2)) 5 6 7 8)]
      = (Ok out, σ')
      ∧ σ' !! out
        = Some (ImageData.mk 2 2 (solid (Z.to_nat (2 * 2)) 0 0 0 255)).
Proof.
  split; [lia|].
  destruct (sobel_of_one_color_is_black
              [ImageData.mk 2 2 (solid (Z.to_nat (2 * 2)) 5 6 7 8)]
              0%nat 2 2 5 6 7 8 ltac:(lia) ltac:(lia) eq_refl)
    as (out & σ' & Hrun & _ & Hout & _).
  by exists out, σ'.
Defined.

(** ** C2: the background estimators *)

Section estimators.
Variables (data : list Z) (width height : Z).

Lemma sampleStep_filter (points : list (Z * Z)) (acc : Sums) :
  fold_left (sampleStep data width height) points acc
  = fold_left (addSample data)
      (sampleOffset width height <$> filter (resolves data width height) points)
      acc.
Proof.
  revert acc. induction points as [|p points IH]; intros acc; [done|].
  cbn [fold_left]. rewrite IH. unfold sampleStep, addSample.
  fold (sampleOffset width height p).
  change (sampleOffset width height p + 3 <? len data)
    with (resolves data width height p).
  destruct (resolves data width height p) eqn:Hres.
  - rewrite filter_cons_True by (rewrite Hres; exact I). done.
  - rewrite filter_cons_False by (rewrite Hres; exact (λ H, H)). done.
Qed.

Lemma sampleColorStep_filter (points : list (Q * Q)) (acc : Sums) :
  fold_left (sampleColorStep data width height) points acc
  = fold_left (addSample data)
      (sampleIndex width <$> filter (inBounds data width height) points) acc.
Proof.
  revert acc. induction points as [|p points IH]; intros acc; [done|].
  cbn [fold_left]. rewrite IH. unfold sampleColorStep.
  fold (sampleIndex width p).
  assert ((if (0 <=? Js.floor p.1) && (Js.floor p.1 <? width)
              && (0 <=? Js.floor p.2) && (Js.floor p.2 <? height)
           then if sampleIndex width p + 2 <? len data
                then addSample data acc (sampleIndex width p) else acc
           else acc)
          = if inBounds data width height p
            then addSample data acc (sampleIndex width p) else acc) as Hstep.
  { unfold inBounds. destruct (_ && _ && _ && _); [|done].
    by destruct (sampleIndex width p + 2 <? len data). }
  unfold addSample in Hstep at 1. rewrite Hstep.
  destruct (inBounds data width height p) eqn:Hin.
  - rewrite filter_cons_True by (rewrite Hin; exact I). done.
  - rewrite filter_cons_False by (rewrite Hin; exact (λ H, H)). done.
Qed.

(** The sums over offsets that lie in the array. *)
Lemma addSample_sums (offsets : list Z) (r g b v : Z) :
  Forall (λ o, 0 ≤ o ∧ o + 2 < len data) offsets →
  fold_left (addSample data) offsets (mkSums (Some r) (Some g) (Some b) v)
  = mkSums (Some (r + sumAt data offsets 0)) (Some (g + sumAt data offsets 1))
      (Some (b + sumAt data offsets 2)) (v + Z.of_nat (length offsets)).
Proof.
  revert r g b v. induction offsets as [|o offsets IH]; intros r g b v Hall.
  - unfold sumAt. simpl. by rewrite !Z.add_0_r.
  - apply Forall_cons in Hall as [[Ho0 Ho2] Hall].
    cbn [fold_left]. unfold addSample at 2. cbn [rSum gSum bSum validSamples].
    destruct (readAt_in_range data o) as [x Hx]; [lia|].
    destruct (readAt_in_range data (o + 1)) as [y Hy]; [lia|].
    destruct (readAt_in_range data (o + 2)) as [z Hz]; [lia|].
    rewrite Hx, Hy, Hz. cbn [addByte]. rewrite IH by done.
    unfold sumAt. cbn [fmap list_fmap foldr length].
    rewrite Z.add_0_r, Hx, Hy, Hz. cbn [default from_option].
    unfold Datatypes.id. f_equal; [f_equal; lia..|lia].
Qed.
End estimators.

Lemma div_by_count (s n : Z) :
  0 < n →
  Js.div (Js.ofByte (Some s)) (Js.ofZ n) = Some (inject_Z s / inject_Z n)%Q.
Proof.
  intros Hn. unfold Js.div, Js.ofByte, Js.ofZ. cbn [fmap option_fmap option_map].
  destruct (Qeq_bool (inject_Z n) 0) eqn:H0; [|done].
  apply Qeq_bool_eq in H0. by apply inject_Z_nonzero in H0; [|lia].
Qed.

Section estimator_results.
Variables (data : list Z) (width height : Z).
Hypothesis Hwidth : 1 ≤ width.
Hypothesis Hheight : 1 ≤ height.

Lemma sampleOffset_clamped (p : Z * Z) :
  0 ≤ p.1 → 0 ≤ p.2 →
  sampleOffset width height p
  = (clampInto 0 (height - 1) p.2 * width + clampInto 0 (width - 1) p.1) * 4
  ∧ 0 ≤ clampInto 0 (width - 1) p.1 ≤ width - 1
  ∧ 0 ≤ clampInto 0 (height - 1) p.2 ≤ height - 1
  ∧ 0 ≤ sampleOffset width height p.
Proof.
  intros Hx Hy. unfold sampleOffset, clampInto.
  rewrite !Z.max_r by lia. split; [done|]. split; [lia|]. split; [lia|]. nia.
Qed.

Lemma samplePoints_inside :
  Forall (λ p, 0 ≤ p.1 ≤ width - 1 ∧ 0 ≤ p.2 ≤ height - 1)
    (samplePoints width height).
Proof. unfold samplePoints. repeat constructor; simpl; lia. Qed.

Lemma taken_in_array (points : list (Z * Z)) :
  Forall (λ p, 0 ≤ p.1 ∧ 0 ≤ p.2) points →
  Forall (λ o, 0 ≤ o ∧ o + 3 < len data)
    (sampleOffset width height <$> filter (resolves data width height) points).
Proof.
  intros Hpos. apply Forall_fmap, Forall_forall. intros p Hp.
  apply list_elem_of_filter in Hp as [Hres Hp].
  pose proof (proj1 (Forall_forall _ _) Hpos p Hp) as [Hx Hy]. simpl.
  destruct (sampleOffset_clamped p Hx Hy) as (_ & _ & _ & H0).
  split; [done|]. unfold resolves in Hres. by apply Is_true_true, Z.ltb_lt in Hres.
Qed.

Lemma looked_in_array (qpoints : list (Q * Q)) :
  Forall (λ o, 0 ≤ o ∧ o + 2 < len data)
    (sampleIndex width <$> filter (inBounds data width height) qpoints).
Proof.
  apply Forall_fmap, Forall_forall. intros p Hp.
  apply list_elem_of_filter in Hp as [Hin _]. simpl.
  unfold inBounds in Hin. apply Is_true_true in Hin.
  rewrite !andb_true_iff in Hin.
  destruct Hin as [[[[Hx0%Z.leb_le Hx1%Z.ltb_lt] Hy0%Z.leb_le] Hy1%Z.ltb_lt]
                     Hi%Z.ltb_lt].
  split; [unfold sampleIndex; nia|done].
Qed.

Lemma averageBackground_mean (points : list (Z * Z)) :
  Forall (λ p, 0 ≤ p.1 ∧ 0 ≤ p.2) points →
  let offsets :=
    sampleOffset width height <$> filter (resolves data width height) points in
  averageBackground data width height points
  = if decide (offsets = [])
    then mkRgb (byteOrZero data 0) (byteOrZero data 1) (byteOrZero data 2)
    else mkRgb (meanAt data offsets 0) (meanAt data offsets 1)
           (meanAt data offsets 2).
Proof.
  intros Hpos offsets. unfold averageBackground, sampleSums.
  rewrite sampleStep_filter. fold offsets. unfold noSums.
  rewrite addSample_sums.
  2:{ eapply Forall_impl; [apply (taken_in_array points Hpos)|].
      simpl. lia. }
  cbn [rSum gSum bSum validSamples]. rewrite !Z.add_0_l.
  unfold averageOrFirst.
  destruct offsets as [|o offsets'] eqn:Ho.
  - rewrite decide_True by done. done.
  - rewrite decide_False by done.
    destruct (Z.ltb_spec 0 (Z.of_nat (length (o :: offsets'))));
      [|simpl in *; lia].
    rewrite !div_by_count by done. done.
Qed.

Lemma sampleAverageColor_mean (qpoints : list (Q * Q)) :
  let indices :=
    sampleIndex width <$> filter (inBounds data width height) qpoints in
  sampleAverageColor data width height qpoints
  = if decide (indices = []) then None
    else Some (mkRgb (roundedMeanAt data indices 0)
                 (roundedMeanAt data indices 1)
                 (roundedMeanAt data indices 2)).
Proof.
  intros indices. unfold sampleAverageColor.
  rewrite sampleColorStep_filter. fold indices. unfold noSums.
  rewrite addSample_sums by apply looked_in_array.
  cbn [rSum gSum bSum validSamples]. rewrite !Z.add_0_l.
  destruct indices as [|o indices'] eqn:Ho.
  - rewrite decide_True by done. done.
  - rewrite decide_False by done.
    destruct (Z.eqb_spec (Z.of_nat (length (o :: indices'))) 0);
      [simpl in *; lia|].
    unfold roundedAverage. rewrite !div_by_count by (simpl; lia). done.
Qed.
End estimator_results.

Lemma every_sample_resolves (data : list Z) (width height : Z)
    (points : list (Z * Z)) :
  1 ≤ width → 1 ≤ height →
  len data = 4 * (width * height) →
  Forall (λ p, 0 ≤ p.1 ∧ 0 ≤ p.2) points →
  filter (resolves data width height) points = points.
Proof.
  intros Hw Hh Hlen. induction 1 as [|p points [Hx Hy] _ IH]; [done|].
  rewrite filter_cons_True, IH; [done|].
  apply Is_true_true, Z.ltb_lt.
  destruct (sampleOffset_clamped width height Hw Hh p Hx Hy)
    as (-> & Hcx & Hcy & _).
  nia.
Qed.

(** C2 (as amended).  The estimator of [removeBackground] looks every
    sample point up at the pixel obtained by bringing its coordinates into
    the image (for coordinates that are not negative, as those of its eight
    sample points are); it reads inside the array only; it returns the mean,
    not rounded, of the R, G and B bytes of the samples whose pixel lies in
    the array, every entry of the list counting once and alpha being ignored;
    when no sample resolves it falls back to the first three bytes of the
    array, 0 standing for a missing byte; and on an array of
    [width * height] pixels every sample resolves.  [sampleAverageColor],
    which takes any list of points, does not clamp: it floors the
    coordinates, skips the points that then fall outside the image or the
    array, returns the rounded mean of the others, and returns [null], no
    fallback color, when there is none. *)
Theorem background_estimators
    (data : list Z) (width height : Z)
    (points : list (Z * Z)) (qpoints : list (Q * Q)) :
  1 ≤ width → 1 ≤ height →
  Forall (λ p, 0 ≤ p.1 ∧ 0 ≤ p.2) points →
  let offsets :=
    sampleOffset width height <$> filter (resolves data width height) points in
  let indices :=
    sampleIndex width <$> filter (inBounds data width height) qpoints in
  Forall (λ p, 0 ≤ p.1 ≤ width - 1 ∧ 0 ≤ p.2 ≤ height - 1)
    (samplePoints width height)
  ∧ Forall (λ p,
       sampleOffset width height p
       = (clampInto 0 (height - 1) p.2 * width
          + clampInto 0 (width - 1) p.1) * 4
       ∧ 0 ≤ clampInto 0 (width - 1) p.1 ≤ width - 1
       ∧ 0 ≤ clampInto 0 (height - 1) p.2 ≤ height - 1) points
  ∧ Forall (λ o, 0 ≤ o ∧ o + 3 < len data) offsets
  ∧ averageBackground data width height points
    = (if decide (offsets = [])
       then mkRgb (byteOrZero data 0) (byteOrZero data 1) (byteOrZero data 2)
       else mkRgb (meanAt data offsets 0) (meanAt data offsets 1)
              (meanAt data offsets 2))
  ∧ (len data = 4 * (width * height) →
     filter (resolves data width height) points = points)
  ∧ Forall (λ o, 0 ≤ o ∧ o + 2 < len data) indices
  ∧ sampleAverageColor data width height qpoints
    = (if decide (indices = []) then None
       else Some (mkRgb (roundedMeanAt data indices 0)
                    (roundedMeanAt data indices 1)
                    (roundedMeanAt data indices 2))).
Proof.
  intros Hw Hh Hpos offsets indices.
  split; [by apply samplePoints_inside|].
  split.
  { eapply Forall_impl; [exact Hpos|]. intros p [Hx Hy].
    destruct (sampleOffset_clamped width height Hw Hh p Hx Hy)
      as (? & ? & ? & _). done. }
  split; [by apply taken_in_array|].
  split; [by apply averageBackground_mean|].
  split; [intros Hlen; by apply every_sample_resolves|].
  split; [by apply looked_in_array|by apply sampleAverageColor_mean].
Qed.

Lemma background_estimators_witness :
  (1 ≤ 2 ∧ 1 ≤ 1 ∧ Forall (λ p, 0 ≤ p.1 ∧ 0 ≤ p.2) (samplePoints 2 1))
  ∧ averageBackground [10; 20; 30; 255; 50; 60; 70; 255] 2 1 (samplePoints 2 1)
    = mkRgb (Some (inject_Z 280 / inject_Z 8)%Q)
        (Some (inject_Z 360 / inject_Z 8)%Q)
        (Some (inject_Z 440 / inject_Z 8)%Q).
Proof.
  assert (Forall (λ p, 0 ≤ p.1 ∧ 0 ≤ p.2) (samplePoints 2 1)) as Hpos.
  { repeat constructor; simpl; lia. }
  split; [split; [lia|split; [lia|exact Hpos]]|].
  destruct (background_estimators [10; 20; 30; 255; 50; 60; 70; 255] 2 1
              (samplePoints 2 1) [] ltac:(lia) ltac:(lia) Hpos)
    as (_ & _ & _ & Hmean & _).
  rewrite Hmean. reflexivity.
Defined.

(** C2 as stated fails on [sampleAverageColor], the estimator that takes any
    list of points.  A point outside the image is skipped, not clamped: with
    the points (0,0) and (5,0) on a 2 x 1 image the result is the first
    pixel, not the mean of the two pixels.  With no point the result is
    [null], not the first pixel.  And the mean is rounded: 110 / 3 gives
    37. *)
Lemma sampleAverageColor_skips_and_rounds :
  sampleAverageColor [10; 20; 30; 255; 50; 60; 70; 255] 2 1
    [(0, 0); (5, 0)]%Q
  = Some (mkRgb (Js.ofZ 10) (Js.ofZ 20) (Js.ofZ 30))
  ∧ sampleAverageColor [10; 20; 30; 255; 50; 60; 70; 255] 2 1 [] = None
  ∧ sampleAverageColor [10; 20; 30; 255; 50; 60; 70; 255] 2 1
      [(0, 0); (1, 0); (1, 0)]%Q
    = Some (mkRgb (Js.ofZ 37) (Js.ofZ 47) (Js.ofZ 57)).
Proof. repeat split; vm_compute; reflexivity. Qed.

(** ** C10: the two pipelines *)


(** Two tests that agree on the pixels of the array clear the same
    pixels. *)
Lemma clearIf_fold_ext (test1 test2 : Rgb → bool) (data : list Z) (n : nat) :
  (∀ k : Z, 0 ≤ k < Z.of_nat n →
     test1 (pixelRgb data (4 * k)) = test2 (pixelRgb data (4 * k))) →
  fold_left (clearIf test1) (seq 0 n) data
  = fold_left (clearIf test2) (seq 0 n) data.
Proof.
  intros Htest. apply readAt_ext. intros j. rewrite !clearIf_loop.
  case_decide as Hj; [|done]. by rewrite Htest by lia.
Qed.

(** The squared distance between integer colors. *)
Lemma squaredDistance_integers (r g b tr tg tb : Z) :
  (squaredDistance (inject_Z r) (inject_Z g) (inject_Z b)
     (inject_Z tr) (inject_Z tg) (inject_Z tb)
   == inject_Z ((r - tr) * (r - tr) + (g - tg) * (g - tg)
                + (b - tb) * (b - tb)))%Q.
Proof.
  unfold squaredDistance, Z.sub.
  rewrite !inject_Z_plus, !inject_Z_mult, !inject_Z_plus, !inject_Z_opp.
  ring.
Qed.

(** A mean of eight samples whose sum is a multiple of 8. *)
Lemma mean_of_eight (m : Z) : (inject_Z (8 * m) / inject_Z 8 == inject_Z m)%Q.
Proof. rewrite inject_Z_mult. change (inject_Z 8) with 8%Q. field. Qed.

Lemma squaredDistance_compat (r g b tr tg tb tr' tg' tb' : Q) :
  (tr == tr')%Q → (tg == tg')%Q → (tb == tb')%Q →
  (squaredDistance r g b tr tg tb == squaredDistance r g b tr' tg' tb')%Q.
Proof. intros H1 H2 H3. unfold squaredDistance. by rewrite H1, H2, H3. Qed.

(** Away from the boundary the strict and the inclusive test agree. *)
Lemma tests_agree_off_boundary (r g b ar ag ab : Z) :
  (r - ar) * (r - ar) + (g - ag) * (g - ag) + (b - ab) * (b - ab) ≠ 2025 →
  matchesBackground
    (mkRgb (Some (inject_Z (8 * ar) / inject_Z 8)%Q)
           (Some (inject_Z (8 * ag) / inject_Z 8)%Q)
           (Some (inject_Z (8 * ab) / inject_Z 8)%Q))
    colorMatchTolerance
    (mkRgb (Some (inject_Z r)) (Some (inject_Z g)) (Some (inject_Z b)))
  = matchesTarget
      (mkRgb (Some (inject_Z ar)) (Some (inject_Z ag)) (Some (inject_Z ab)))
      colorMatchTolerance
      (mkRgb (Some (inject_Z r)) (Some (inject_Z g)) (Some (inject_Z b))).
Proof.
  intros Hoff. unfold matchesBackground, matchesTarget.
  rewrite !calculateRgbDistance_defined.
  unfold Js.sqrt_lt, Js.sqrt_le, colorMatchTolerance, Js.ofZ.
  set (D := (r - ar) * (r - ar) + (g - ag) * (g - ag) + (b - ab) * (b - ab))
    in *.
  assert (squaredDistance (inject_Z r) (inject_Z g) (inject_Z b)
            (inject_Z ar) (inject_Z ag) (inject_Z ab) == inject_Z D)%Q as H2
    by apply squaredDistance_integers.
  assert (squaredDistance (inject_Z r) (inject_Z g) (inject_Z b)
            (inject_Z (8 * ar) / inject_Z 8) (inject_Z (8 * ag) / inject_Z 8)
            (inject_Z (8 * ab) / inject_Z 8) == inject_Z D)%Q as H1.
  { rewrite <- H2. apply squaredDistance_compat; apply mean_of_eight. }
  apply eq_true_iff_eq.
  rewrite !andb_true_iff, !Qltb_lt, !Qle_bool_iff, H1, H2.
  change (inject_Z 45 * inject_Z 45)%Q with (inject_Z 2025).
  change 0%Q with (inject_Z 0).
  rewrite <- !Zle_Qle, <- !Zlt_Qlt. lia.
Qed.

Section pipelines_agree.
Variables (data : list Z) (width height : Z).
Hypothesis Hwidth : 1 ≤ width.
Hypothesis Hheight : 1 ≤ height.
Hypothesis Hlen : len data = 4 * (width * height).

Let offsets := sampleOffset width height <$> samplePoints width height.

Lemma samplePoints_nonneg :
  Forall (λ p, 0 ≤ p.1 ∧ 0 ≤ p.2) (samplePoints width height).
Proof.
  eapply Forall_impl; [apply (samplePoints_inside width height); done|].
  simpl. lia.
Qed.

(** An integer point of the image is taken by [sampleAverageColor], at the
    offset where [removeBackground] looks. *)
Lemma inBounds_inside (p : Z * Z) :
  0 ≤ p.1 ≤ width - 1 → 0 ≤ p.2 ≤ height - 1 →
  inBounds data width height (toNumbers p) = true
  ∧ sampleIndex width (toNumbers p) = sampleOffset width height p.
Proof.
  intros Hx Hy. unfold inBounds, sampleIndex, sampleOffset, toNumbers, Js.floor.
  cbn [fst snd]. rewrite !Qfloor_Z, !Z.min_l by lia. split; [|done].
  rewrite !andb_true_iff, !Z.leb_le, !Z.ltb_lt. repeat split; try lia. nia.
Qed.

Lemma indices_are_offsets :
  sampleIndex width
    <$> filter (inBounds data width height)
          (toNumbers <$> samplePoints width height)
  = offsets.
Proof.
  unfold offsets. pose proof (samplePoints_inside width height Hwidth Hheight) as H.
  induction H as [|p points [Hx Hy] _ IH]; [done|].
  destruct (inBounds_inside p Hx Hy) as [Hin Hidx].
  rewrite !fmap_cons, filter_cons_True by (rewrite Hin; exact I).
  by rewrite fmap_cons, Hidx, IH.
Qed.

Lemma offsets_length : Z.of_nat (length offsets) = 8.
Proof. reflexivity. Qed.

Lemma offsets_not_empty : offsets ≠ [].
Proof. discriminate. Qed.

Lemma rounded_mean_of_eight (m : Z) :
  Js.round (inject_Z (8 * m) / inject_Z 8) = m.
Proof. rewrite round_div by lia. lia. Qed.

Variables ar ag ab : Z.
Hypothesis Hred : sumAt data offsets 0 = 8 * ar.
Hypothesis Hgreen : sumAt data offsets 1 = 8 * ag.
Hypothesis Hblue : sumAt data offsets 2 = 8 * ab.

Lemma inline_background :
  averageBackground data width height (samplePoints width height)
  = mkRgb (Some (inject_Z (8 * ar) / inject_Z 8)%Q)
      (Some (inject_Z (8 * ag) / inject_Z 8)%Q)
      (Some (inject_Z (8 * ab) / inject_Z 8)%Q).
Proof.
  rewrite averageBackground_mean by (done || apply samplePoints_nonneg).
  rewrite every_sample_resolves by (done || apply samplePoints_nonneg).
  fold offsets. rewrite decide_False by apply offsets_not_empty.
  unfold meanAt. by rewrite Hred, Hgreen, Hblue, offsets_length.
Qed.

Lemma utility_target :
  sampleAverageColor data width height (toNumbers <$> samplePoints width height)
  = Some (mkRgb (Some (inject_Z ar)) (Some (inject_Z ag)) (Some (inject_Z ab))).
Proof.
  rewrite sampleAverageColor_mean by done. rewrite indices_are_offsets.
  rewrite decide_False by apply offsets_not_empty.
  unfold roundedMeanAt.
  by rewrite Hred, Hgreen, Hblue, offsets_length, !rounded_mean_of_eight.
Qed.
End pipelines_agree.



(** * Further properties *)

(** ** [removeBackground] as a whole *)

Lemma len_getImageData (width height : Z) (rgba : list Z) :
  len (getImageData width height rgba) = 4 * Z.max 0 (width * height).
Proof.
  unfold getImageData, len.
  rewrite length_take_le; [lia|].
  rewrite length_app, length_replicate. lia.
Qed.

Lemma checkDimensions_Ok (naturalWidth naturalHeight : Z) :
  checkDimensions naturalWidth naturalHeight = Ok () ↔
  naturalWidth ≠ 0 ∧ naturalHeight ≠ 0 ∧
  naturalWidth ≤ MAX_DIMENSION_SIDE ∧ naturalHeight ≤ MAX_DIMENSION_SIDE ∧
  naturalWidth * naturalHeight ≤ MAX_TOTAL_IMAGE_PIXELS.
Proof.
  unfold checkDimensions.
  destruct (Z.eqb_spec naturalWidth 0), (Z.eqb_spec naturalHeight 0);
    cbn [orb]; try (split; [done|lia]).
  destruct (Z.ltb_spec MAX_DIMENSION_SIDE naturalWidth),
    (Z.ltb_spec MAX_DIMENSION_SIDE naturalHeight);
    cbn [orb]; try (split; [done|lia]).
  destruct (Z.ltb_spec MAX_TOTAL_IMAGE_PIXELS (naturalWidth * naturalHeight));
    split; try done; lia.
Qed.

Lemma checkDimensions_Throw (naturalWidth naturalHeight : Z) (e : Error) :
  checkDimensions naturalWidth naturalHeight = Throw e →
  e = ZeroDimension ∨ e = DimensionTooLarge ∨ e = TooManyPixels.
Proof.
  unfold checkDimensions.
  repeat (destruct (_ || _) || destruct (_ <? _)); intros [=]; auto.
Qed.

Lemma validateImage_Throw (file : Candidate) (e : Error) :
  validateImage file = Throw e →
  e = EmptyCandidate ∨ e = InvalidType ∨ e = FileTooLarge.
Proof.
  unfold validateImage.
  destruct file as [|f|f];
    repeat first [destruct (negb _) | destruct (_ <? _)]; intros [=]; auto.
Qed.

Lemma validateImage_Ok (file : Candidate) (v : bool) :
  validateImage file = Ok v → validateImage file = Ok true.
Proof.
  unfold validateImage.
  destruct file as [|f|f];
    repeat first [destruct (negb _) | destruct (_ <? _)]; done.
Qed.

(** The pixel loop of [processImageData] runs to its end on an array of at
    most [MAX_ITERATIONS] pixels, and leaves what the matching test
    dictates. *)
Lemma processImageData_completes onProgress width height data trace n :
  len data = 4 * n → n ≤ MAX_ITERATIONS →
  (processImageData onProgress width height data trace).1
  = Ok (fold_left
          (clearIf (matchesBackground
                      (averageBackground data width height
                         (samplePoints width height))
                      colorMatchTolerance))
          (pixelIterations data) data).
Proof.
  intros Hlen Hn. unfold processImageData.
  set (avgBg := averageBackground _ _ _ _).
  set (t := report onProgress trace 30).
  pose proof (matchLoop_outcome avgBg colorMatchTolerance MAX_ITERATIONS
                onProgress data t) as H.
  destruct (matchLoop_ceiling avgBg colorMatchTolerance MAX_ITERATIONS
              onProgress data t n ltac:(by vm_compute) Hlen) as [_ Hdone].
  destruct (Hdone Hn) as [st Hst]. rewrite Hst in *. simpl.
  destruct H as (_ & -> & _). by rewrite seq_pixelIterations.
Qed.

Lemma gate_below_ceiling (width height : Z) :
  checkDimensions width height = Ok () →
  Z.max 0 (width * height) ≤ MAX_ITERATIONS.
Proof.
  intros (_ & _ & _ & _ & H)%checkDimensions_Ok.
  rewrite MAX_ITERATIONS_value. unfold MAX_TOTAL_IMAGE_PIXELS in H. lia.
Qed.



(** X2.  What a fulfilled [removeBackground] hands over: the canvas array
    of the decoded picture after one matching pass against the background
    estimated from it.  The array keeps its length and every R, G and B
    byte; the alpha byte of a pixel is 0 exactly when the color of the pixel
    is at a distance strictly below 45 from the estimate or the alpha was 0
    already, and is untouched otherwise. *)
Theorem removeBackground_output
    (imageFile : Candidate) (onProgress : bool) (browser : Browser)
    (out : list Z) :
  (removeBackground imageFile onProgress browser).1 = Ok out →
  ∃ f naturalWidth naturalHeight rgba,
    imageFile = IsFile f
    ∧ File.bytes f = File.Picture naturalWidth naturalHeight rgba
    ∧ let data := getImageData naturalWidth naturalHeight rgba in
      let avgBg :=
        averageBackground data naturalWidth naturalHeight
          (samplePoints naturalWidth naturalHeight) in
      len data = 4 * Z.max 0 (naturalWidth * naturalHeight)
      ∧ alphaPass (λ c, strictlyWithin c avgBg colorMatchTolerance) data out.
Proof.
  intros Hout.
  destruct (removeBackground_cases imageFile onProgress browser)
    as [[e He]|[He|(f & w & h & rgba & -> & Hb & Hc & He)]];
    rewrite He in Hout; try done.
  exists f, w, h, rgba. split; [done|]. split; [done|]. cbn zeta.
  split; [apply len_getImageData|].
  rewrite (processImageData_completes _ _ _ _ _ _
             (len_getImageData w h rgba) (gate_below_ceiling _ _ Hc)) in Hout.
  injection Hout as <-.
  apply clearIf_alphaPass. intros c. unfold matchesBackground.
  apply sqrt_lt_strictlyWithin.
Qed.

Lemma removeBackground_output_witness :
  (removeBackground
     (IsFile (File.mk "image/png" 100
                (File.Picture 2 1 [45; 0; 0; 255; 9; 9; 9; 255])))
     false (mkBrowser true true)).1 = Ok [45; 0; 0; 0; 9; 9; 9; 0]
  ∧ ∃ f naturalWidth naturalHeight rgba,
      IsFile (File.mk "image/png" 100
                (File.Picture 2 1 [45; 0; 0; 255; 9; 9; 9; 255])) = IsFile f
      ∧ File.bytes f = File.Picture naturalWidth naturalHeight rgba.
Proof.
  assert ((removeBackground
     (IsFile (File.mk "image/png" 100
                (File.Picture 2 1 [45; 0; 0; 255; 9; 9; 9; 255])))
     false (mkBrowser true true)).1 = Ok [45; 0; 0; 0; 9; 9; 9; 0]) as H
    by (vm_compute; reflexivity).
  split; [exact H|].
  destruct (removeBackground_output _ _ _ _ H)
    as (f & w & h & rgba & Hf & Hb & _).
  exists f, w, h, rgba. split; [exact Hf|exact Hb].
Defined.

(** ** An image of one color *)

Lemma sumAt_solid n r g b a (offsets : list Z) (c : Z) :
  0 ≤ c < 4 →
  Forall (λ o, ∃ k, 0 ≤ k < Z.of_nat n ∧ o = 4 * k) offsets →
  sumAt (solid n r g b a) offsets c
  = Z.of_nat (length offsets)
    * (if decide (c = 0) then r else if decide (c = 1) then g
       else if decide (c = 2) then b else a).
Proof.
  intros Hc. unfold sumAt. induction 1 as [|o offsets (k & Hk & ->) _ IH].
  - simpl. lia.
  - cbn [fmap list_fmap foldr length]. rewrite IH.
    rewrite solid_readAt by done. cbn [default from_option]. unfold Datatypes.id.
    lia.
Qed.

Lemma sample_offsets_are_pixels (n : nat) (width height : Z) :
  1 ≤ width → 1 ≤ height → Z.of_nat n = width * height →
  Forall (λ o, ∃ k, 0 ≤ k < Z.of_nat n ∧ o = 4 * k)
    (sampleOffset width height <$> samplePoints width height).
Proof.
  intros Hw Hh Hn. apply Forall_fmap.
  eapply Forall_impl; [apply (samplePoints_inside width height Hw Hh)|].
  intros p [Hx Hy]. simpl. unfold sampleOffset.
  exists (p.2 * width + p.1). rewrite !Z.min_l by lia. split; [nia|lia].
Qed.

Lemma getImageData_exact (width height : Z) (rgba : list Z) :
  len rgba = 4 * (width * height) →
  getImageData width height rgba = rgba.
Proof.
  unfold getImageData, len. intros Hlen.
  rewrite take_app_le by lia. apply take_ge. lia.
Qed.

(** A color matches itself, strictly, for every positive tolerance. *)
Lemma matchesBackground_mean_of_eight (r g b : Z) :
  matchesBackground
    (mkRgb (Some (inject_Z (8 * r) / inject_Z 8)%Q)
           (Some (inject_Z (8 * g) / inject_Z 8)%Q)
           (Some (inject_Z (8 * b) / inject_Z 8)%Q))
    colorMatchTolerance
    (mkRgb (Some (inject_Z r)) (Some (inject_Z g)) (Some (inject_Z b)))
  = true.
Proof.
  unfold matchesBackground. apply sqrt_lt_strictlyWithin.
  eexists _, _, _, _, _, _, _. split; [reflexivity|].
  split; [reflexivity|]. split; [reflexivity|]. split; [done|].
  rewrite (squaredDistance_compat _ _ _ _ _ _ _ _ _
             (mean_of_eight r) (mean_of_eight g) (mean_of_eight b)).
  assert (squaredDistance (inject_Z r) (inject_Z g) (inject_Z b)
            (inject_Z r) (inject_Z g) (inject_Z b) == 0)%Q as ->
    by (unfold squaredDistance; ring).
  done.
Qed.

(** X3.  A picture of one color comes out of [removeBackground] entirely
    transparent: the estimated background is that color, every pixel is at
    distance 0 from it, and every alpha byte is set to 0 while the R, G and B
    bytes stay. *)
Theorem uniform_image_becomes_transparent
    (f : File.t) (width height r g b a : Z) (onProgress : bool)
    (browser : Browser) :
  validateImage (IsFile f) = Ok true →
  readerGivesString browser = true →
  context2d browser = true →
  1 ≤ width → 1 ≤ height →
  checkDimensions width height = Ok () →
  File.bytes f
  = File.Picture width height (solid (Z.to_nat (width * height)) r g b a) →
  (removeBackground (IsFile f) onProgress browser).1
  = Ok (solid (Z.to_nat (width * height)) r g b 0).
Proof.
  intros Hv Hr Hx Hw Hh Hc Hb.
  unfold removeBackground. rewrite Hv, Hr, Hb, Hc, Hx. cbn [negb].
  set (n := Z.to_nat (width * height)).
  assert (Z.of_nat n = width * height) as Hn by (unfold n; nia).
  assert (len (solid n r g b a) = 4 * (width * height)) as Hlen
    by (rewrite solid_len; lia).
  rewrite getImageData_exact by done.
  rewrite (processImageData_completes _ _ _ _ _ (width * height) Hlen).
  2:{ pose proof (gate_below_ceiling _ _ Hc). lia. }
  f_equal.
  pose proof (sample_offsets_are_pixels n width height Hw Hh Hn) as Hoff.
  rewrite (inline_background (solid n r g b a) width height Hw Hh Hlen r g b).
  2-4: rewrite sumAt_solid by (done || lia); simpl; lia.
  apply readAt_ext. intros j. unfold pixelIterations. rewrite clearIf_loop.
  destruct (decide (0 ≤ j < 4 * Z.of_nat n)) as [Hj|Hj].
  2:{ rewrite decide_False by (rewrite Hlen; lia).
      by rewrite !solid_readAt_outside by lia. }
  rewrite decide_True by (rewrite Hlen; lia).
  assert (pixelRgb (solid n r g b a) (4 * (j / 4))
          = mkRgb (Some (inject_Z r)) (Some (inject_Z g)) (Some (inject_Z b)))
    as ->.
  { unfold pixelRgb.
    pose proof (solid_readAt n r g b a (j / 4) 0 ltac:(lia) ltac:(lia)) as H0.
    rewrite Z.add_0_r in H0. rewrite H0.
    rewrite !solid_readAt by lia. done. }
  rewrite matchesBackground_mean_of_eight. cbn [andb].
  replace (readAt (solid n r g b a) j)
    with (readAt (solid n r g b a) (4 * (j / 4) + j mod 4))
    by (f_equal; lia).
  replace (readAt (solid n r g b 0) j)
    with (readAt (solid n r g b 0) (4 * (j / 4) + j mod 4))
    by (f_equal; lia).
  rewrite !solid_readAt by lia.
  case_bool_decide as H3; cbn [fmap option_fmap option_map]; f_equal;
    repeat case_decide; try done; lia.
Qed.

Lemma uniform_image_witness :
  (removeBackground
     (IsFile (File.mk "image/png" 100
                (File.Picture 2 1 (solid (Z.to_nat (2 * 1)) 7 8 9 255))))
     true (mkBrowser true true)).1
  = Ok (solid (Z.to_nat (2 * 1)) 7 8 9 0).
Proof.
  apply (uniform_image_becomes_transparent
           (File.mk "image/png" 100
              (File.Picture 2 1 (solid (Z.to_nat (2 * 1)) 7 8 9 255)))
           2 1 7 8 9 255 true (mkBrowser true true));
    (reflexivity || lia).
Defined.

(** ** The matching passes: composition and edge cases *)

Lemma pixelIterations_len (d d' : list Z) :
  len d = len d' → pixelIterations d = pixelIterations d'.
Proof. unfold pixelIterations. by intros ->. Qed.

Lemma clearIf_fold_len (test : Rgb → bool) (d : list Z) (n : nat) :
  len (fold_left (clearIf test) (seq 0 n) d) = len d.
Proof. apply fold_pixelwise_len, clearIf_len. Qed.

(** A pass leaves the colors as they are. *)
Lemma clearIf_fold_pixelRgb (test : Rgb → bool) (d : list Z) (n : nat) (k : Z) :
  pixelRgb (fold_left (clearIf test) (seq 0 n) d) (4 * k) = pixelRgb d (4 * k).
Proof.
  unfold pixelRgb. rewrite !clearIf_loop.
  assert ((4 * k) mod 4 ≠ 3 ∧ (4 * k + 1) mod 4 ≠ 3 ∧ (4 * k + 2) mod 4 ≠ 3)
    as (H0 & H1 & H2) by lia.
  rewrite !bool_decide_eq_false_2, !andb_false_r by done.
  by repeat case_decide.
Qed.

(** A second pass with the same test changes nothing. *)
Lemma clearIf_fold_idempotent (test : Rgb → bool) (d : list Z) (n : nat) :
  fold_left (clearIf test) (seq 0 n) (fold_left (clearIf test) (seq 0 n) d)
  = fold_left (clearIf test) (seq 0 n) d.
Proof.
  apply readAt_ext. intros j. rewrite clearIf_loop.
  case_decide as Hj; [|done]. rewrite clearIf_fold_pixelRgb.
  rewrite clearIf_loop, decide_True by done.
  destruct (_ && _); [|done]. by destruct (readAt d j).
Qed.

(** A pass with a test that holds more often clears at least as much. *)
Lemma clearIf_fold_mono (test1 test2 : Rgb → bool) (d : list Z) (n : nat) (j : Z) :
  (∀ c, test1 c = true → test2 c = true) →
  (j mod 4 ≠ 3 →
   readAt (fold_left (clearIf test1) (seq 0 n) d) j
   = readAt (fold_left (clearIf test2) (seq 0 n) d) j)
  ∧ (readAt (fold_left (clearIf test1) (seq 0 n) d) j = Some 0 →
     readAt (fold_left (clearIf test2) (seq 0 n) d) j = Some 0).
Proof.
  intros Himp. rewrite !clearIf_loop. case_decide as Hj; [|done]. split.
  - intros H3. by rewrite !bool_decide_eq_false_2, !andb_false_r by done.
  - specialize (Himp (pixelRgb d (4 * (j / 4)))).
    destruct (test1 _); [rewrite Himp by done|]; cbn [andb];
      destruct (test2 _), (bool_decide _), (readAt d j); cbn; congruence.
Qed.

(** A pass with a test that never holds changes nothing. *)
Lemma clearIf_fold_never (test : Rgb → bool) (d : list Z) (n : nat) :
  (∀ c, test c = false) →
  fold_left (clearIf test) (seq 0 n) d = d.
Proof.
  intros Hno. apply readAt_ext. intros j. rewrite clearIf_loop, Hno.
  by case_decide.
Qed.

(** X4.  [manipulateAlphaByColorMatch] is idempotent on the array: a
    second call with the same target and tolerance, with or without a
    progress callback, leaves what the first call left. *)
Theorem manipulateAlphaByColorMatch_idempotent
    (data : list Z) (targetRgb : Rgb) (tolerance : Js.number)
    (onProgress onProgress' : bool) :
  (manipulateAlphaByColorMatch
     (manipulateAlphaByColorMatch data targetRgb tolerance onProgress).1
     targetRgb tolerance onProgress').1
  = (manipulateAlphaByColorMatch data targetRgb tolerance onProgress).1.
Proof.
  rewrite !manipulateAlphaByColorMatch_data.
  rewrite (pixelIterations_len (fold_left _ _ _) data).
  - apply clearIf_fold_idempotent.
  - apply clearIf_fold_len.
Qed.

(** Two passes in a row are one pass with the disjunction of the tests. *)
Lemma clearIf_fold_twice (test1 test2 : Rgb → bool) (d : list Z) (n : nat) :
  fold_left (clearIf test2) (seq 0 n) (fold_left (clearIf test1) (seq 0 n) d)
  = fold_left (clearIf (λ c, test1 c || test2 c)) (seq 0 n) d.
Proof.
  apply readAt_ext. intros j. rewrite clearIf_loop.
  rewrite clearIf_fold_pixelRgb, !clearIf_loop.
  case_decide as Hj; [|done].
  destruct (test1 _), (test2 _), (bool_decide _), (readAt d j); done.
Qed.


Lemma within_mono (c target : Rgb) (t1 t2 : Q) :
  (t1 <= t2)%Q → within c target (Some t1) → within c target (Some t2).
Proof.
  intros Ht (r & g & b & tr & tg & tb & t & -> & -> & [= <-] & H0 & Hd).
  exists r, g, b, tr, tg, tb, t2. do 3 (split; [done|]).
  split; [Lqa.lra|]. 
  assert (t1 * t1 <= t2 * t2)%Q by Lqa.nra. Lqa.lra.
Qed.

Lemma strictlyWithin_within (c target : Rgb) (tolerance : Js.number) :
  strictlyWithin c target tolerance → within c target tolerance.
Proof.
  intros (r & g & b & tr & tg & tb & t & -> & -> & -> & H0 & Hd).
  exists r, g, b, tr, tg, tb, t. do 3 (split; [done|]).
  split; Lqa.lra.
Qed.

(** X6.  Raising the tolerance of [manipulateAlphaByColorMatch] never
    brings a pixel back: the two results have the same R, G and B bytes, and
    every alpha byte that is 0 with the smaller tolerance is 0 with the
    larger one. *)
Theorem manipulateAlphaByColorMatch_monotone
    (data : list Z) (targetRgb : Rgb) (t1 t2 : Q)
    (onProgress onProgress' : bool) (j : Z) :
  (t1 <= t2)%Q →
  let out1 :=
    (manipulateAlphaByColorMatch data targetRgb (Some t1) onProgress).1 in
  let out2 :=
    (manipulateAlphaByColorMatch data targetRgb (Some t2) onProgress').1 in
  (j mod 4 ≠ 3 → readAt out1 j = readAt out2 j)
  ∧ (readAt out1 j = Some 0 → readAt out2 j = Some 0).
Proof.
  intros Ht. cbn zeta. rewrite !manipulateAlphaByColorMatch_data.
  apply clearIf_fold_mono. intros c. unfold matchesTarget.
  rewrite !sqrt_le_within. by apply within_mono.
Qed.

Lemma manipulateAlphaByColorMatch_monotone_witness :
  (40 <= 45)%Q
  ∧ (readAt (manipulateAlphaByColorMatch [40; 0; 0; 255; 42; 0; 0; 255]
               (mkRgb (Js.ofZ 0) (Js.ofZ 0) (Js.ofZ 0)) (Some 40%Q) false).1 3
     = Some 0 →
     readAt (manipulateAlphaByColorMatch [40; 0; 0; 255; 42; 0; 0; 255]
               (mkRgb (Js.ofZ 0) (Js.ofZ 0) (Js.ofZ 0)) (Some 45%Q) false).1 3
     = Some 0).
Proof.
  assert (40 <= 45)%Q as H by (vm_compute; discriminate).
  split; [exact H|].
  exact (proj2 (manipulateAlphaByColorMatch_monotone
                  [40; 0; 0; 255; 42; 0; 0; 255]
                  (mkRgb (Js.ofZ 0) (Js.ofZ 0) (Js.ofZ 0)) 40 45 false false 3
                  H)).
Defined.

(** X7.  With the same target and tolerance, the pixel loop of
    [removeBackground] (strict test) clears no pixel that
    [manipulateAlphaByColorMatch] (inclusive test) keeps: the two results
    have the same R, G and B bytes, and every alpha byte that is 0 after the
    loop is 0 after the utility. *)
Theorem strict_loop_clears_no_more
    (target : Rgb) (tolerance : Js.number) (ceiling : Z)
    (onProgress onProgress' : bool) (data trace : list Z) (st : MatchState)
    (j : Z) :
  matchLoop target tolerance ceiling onProgress data trace = Completed st →
  let out := (manipulateAlphaByColorMatch data target tolerance onProgress').1 in
  (j mod 4 ≠ 3 → readAt (pixels st) j = readAt out j)
  ∧ (readAt (pixels st) j = Some 0 → readAt out j = Some 0).
Proof.
  intros Hloop. cbn zeta.
  pose proof (matchLoop_outcome target tolerance ceiling onProgress data trace)
    as H.
  rewrite Hloop in H. destruct H as (_ & -> & _).
  rewrite seq_pixelIterations, manipulateAlphaByColorMatch_data.
  apply clearIf_fold_mono. intros c. unfold matchesBackground, matchesTarget.
  rewrite sqrt_lt_strictlyWithin, sqrt_le_within.
  apply strictlyWithin_within.
Qed.

Lemma strict_loop_clears_no_more_witness :
  matchLoop (mkRgb (Js.ofZ 0) (Js.ofZ 0) (Js.ofZ 0)) colorMatchTolerance
    MAX_ITERATIONS false [44; 0; 0; 255; 45; 0; 0; 255] []
  = Completed (mkMatchState [44; 0; 0; 0; 45; 0; 0; 255] 2 30 [])
  ∧ (readAt [44; 0; 0; 0; 45; 0; 0; 255] 3 = Some 0 →
     readAt (manipulateAlphaByColorMatch [44; 0; 0; 255; 45; 0; 0; 255]
               (mkRgb (Js.ofZ 0) (Js.ofZ 0) (Js.ofZ 0)) colorMatchTolerance
               false).1 3 = Some 0).
Proof.
  assert (matchLoop (mkRgb (Js.ofZ 0) (Js.ofZ 0) (Js.ofZ 0))
            colorMatchTolerance MAX_ITERATIONS false
            [44; 0; 0; 255; 45; 0; 0; 255] []
          = Completed (mkMatchState [44; 0; 0; 0; 45; 0; 0; 255] 2 30 []))
    as Hrun by (vm_compute; reflexivity).
  split; [exact Hrun|].
  exact (proj2 (strict_loop_clears_no_more _ _ _ _ false _ _ _ 3 Hrun)).
Defined.

Lemma matchesTarget_degenerate (targetRgb : Rgb) (tolerance : Js.number) :
  tolerance = None ∨ (∃ t, tolerance = Some t ∧ (t < 0)%Q)
  ∨ red targetRgb = None ∨ green targetRgb = None ∨ blue targetRgb = None →
  ∀ c, matchesTarget targetRgb tolerance c = false.
Proof.
  intros Hdeg c. apply not_true_iff_false. unfold matchesTarget.
  rewrite sqrt_le_within.
  intros (r & g & b & tr & tg & tb & t & -> & -> & -> & H0 & Hd).
  destruct Hdeg as [?|[(t' & [= <-] & Hneg)|[?|[?|?]]]]; try done.
  Lqa.lra.
Qed.

Lemma matchesBackground_degenerate (avgBg : Rgb) (tolerance : Js.number) :
  tolerance = None ∨ (∃ t, tolerance = Some t ∧ (t <= 0)%Q) →
  ∀ c, matchesBackground avgBg tolerance c = false.
Proof.
  intros Hdeg c. apply not_true_iff_false. unfold matchesBackground.
  rewrite sqrt_lt_strictlyWithin.
  intros (r & g & b & tr & tg & tb & t & -> & -> & -> & H0 & Hd).
  destruct Hdeg as [?|(t' & [= <-] & Hneg)]; [done|]. Lqa.lra.
Qed.

(** X8.  Degenerate arguments make the passes do nothing.
    [manipulateAlphaByColorMatch] leaves the array as it is when the
    tolerance is [NaN] or negative, or when a channel of the target is not a
    number; the pixel loop of [removeBackground], whose test is strict, does
    so when the tolerance is [NaN], negative or zero. *)
Theorem degenerate_tolerance_clears_nothing
    (data trace : list Z) (target : Rgb) (tolerance : Js.number)
    (ceiling : Z) (onProgress : bool) :
  (tolerance = None ∨ (∃ t, tolerance = Some t ∧ (t < 0)%Q)
   ∨ red target = None ∨ green target = None ∨ blue target = None →
   (manipulateAlphaByColorMatch data target tolerance onProgress).1 = data)
  ∧ (tolerance = None ∨ (∃ t, tolerance = Some t ∧ (t <= 0)%Q) →
     ∀ st, matchLoop target tolerance ceiling onProgress data trace
           = Completed st →
           pixels st = data).
Proof.
  split.
  - intros Hdeg. rewrite manipulateAlphaByColorMatch_data.
    apply clearIf_fold_never. by apply matchesTarget_degenerate.
  - intros Hdeg st Hloop.
    pose proof (matchLoop_outcome target tolerance ceiling onProgress data
                  trace) as H.
    rewrite Hloop in H. destruct H as (_ & -> & _).
    apply clearIf_fold_never. by apply matchesBackground_degenerate.
Qed.

Lemma degenerate_tolerance_witness :
  (manipulateAlphaByColorMatch [1; 2; 3; 255]
     (mkRgb (Js.ofZ 1) (Js.ofZ 2) (Js.ofZ 3)) (Some (-1)%Q) true).1
  = [1; 2; 3; 255]
  ∧ (∀ st, matchLoop (mkRgb (Js.ofZ 1) (Js.ofZ 2) (Js.ofZ 3)) (Some 0%Q)
             MAX_ITERATIONS true [1; 2; 3; 255] [] = Completed st →
           pixels st = [1; 2; 3; 255]).
Proof.
  destruct (degenerate_tolerance_clears_nothing [1; 2; 3; 255] []
              (mkRgb (Js.ofZ 1) (Js.ofZ 2) (Js.ofZ 3)) (Some (-1)%Q)
              MAX_ITERATIONS true) as [Hutil _].
  destruct (degenerate_tolerance_clears_nothing [1; 2; 3; 255] []
              (mkRgb (Js.ofZ 1) (Js.ofZ 2) (Js.ofZ 3)) (Some 0%Q)
              MAX_ITERATIONS true) as [_ Hloop].
  split.
  - apply Hutil. right. left. exists (-1)%Q. split; [reflexivity|].
    vm_compute. reflexivity.
  - apply Hloop. right. exists 0%Q. split; [reflexivity|].
    vm_compute. discriminate.
Defined.

Lemma Qsquare_zero (x : Q) : (x * x <= 0)%Q → (x == 0)%Q.
Proof.
  intros H. pose proof (Qsquare_nonneg x) as H'.
  assert (x * x == 0)%Q as H0 by Lqa.lra.
  by apply Qmult_integral in H0 as [?|?].
Qed.

Lemma within_zero (c target : Rgb) :
  within c target (Some 0%Q) ↔ sameColor c target.
Proof.
  split.
  - intros (r & g & b & tr & tg & tb & t & -> & -> & [= <-] & _ & Hd).
    exists r, g, b, tr, tg, tb. do 2 (split; [done|]).
    unfold squaredDistance in Hd.
    pose proof (Qsquare_nonneg (r - tr)). pose proof (Qsquare_nonneg (g - tg)).
    pose proof (Qsquare_nonneg (b - tb)).
    assert (r - tr == 0)%Q by (apply Qsquare_zero; Lqa.lra).
    assert (g - tg == 0)%Q by (apply Qsquare_zero; Lqa.lra).
    assert (b - tb == 0)%Q by (apply Qsquare_zero; Lqa.lra).
    repeat split; Lqa.lra.
  - intros (r & g & b & tr & tg & tb & -> & -> & Hr & Hg & Hb).
    exists r, g, b, tr, tg, tb, 0%Q. do 3 (split; [done|]).
    split; [done|]. unfold squaredDistance. rewrite Hr, Hg, Hb.
    Lqa.lra.
Qed.


(** ** The Sobel filter on any source *)

Lemma sobelStep_paintEdge (grayscaleData : list Z) (width height y : Z)
    (out : list Z) (x : Z) :
  sobelStep grayscaleData width height y out x
  = paintEdge out (y * width + x)
      (clampedMagnitude
         (_applyConvolutionKernelToGrayscale grayscaleData x y width height
            SOBEL_X_KERNEL)
         (_applyConvolutionKernelToGrayscale grayscaleData x y width height
            SOBEL_Y_KERNEL)).
Proof. reflexivity. Qed.

Lemma paintEdge_len (out : list Z) (p : Z) (m : option Z) :
  len (paintEdge out p m) = len out.
Proof. unfold paintEdge. by rewrite !len_writeAt. Qed.

(** The cells of the array after the four writes at pixel [p]. *)
Lemma paintEdge_at (out : list Z) (p : Z) (m : option Z) (j : Z) :
  0 ≤ p → p * 4 + 3 < len out →
  readAt (paintEdge out p m) j
  = if decide (p * 4 ≤ j < p * 4 + 4)
    then Some (if decide (j = p * 4 + 3) then 255 else toUint8Clamp m)
    else readAt out j.
Proof.
  intros Hp Hin. unfold paintEdge.
  destruct (decide (j = p * 4 + 3)) as [->|H3].
  { rewrite readAt_writeAt_eq by (rewrite !len_writeAt; lia).
    by rewrite decide_True by lia. }
  rewrite readAt_writeAt_ne by lia.
  destruct (decide (j = p * 4 + 2)) as [->|H2].
  { rewrite readAt_writeAt_eq by (rewrite !len_writeAt; lia).
    by rewrite decide_True by lia. }
  rewrite readAt_writeAt_ne by lia.
  destruct (decide (j = p * 4 + 1)) as [->|H1].
  { rewrite readAt_writeAt_eq by (rewrite !len_writeAt; lia).
    by rewrite decide_True by lia. }
  rewrite readAt_writeAt_ne by lia.
  destruct (decide (j = p * 4)) as [->|H0].
  { rewrite readAt_writeAt_eq by lia. by rewrite decide_True by lia. }
  rewrite readAt_writeAt_ne by lia. by rewrite decide_False by lia.
Qed.

Section edges.
Variables (gray init : list Z) (width height : Z).
Hypothesis Hwidth : 0 ≤ width.
Hypothesis Hheight : 0 ≤ height.
Hypothesis Hinit : len init = 4 * (width * height).

Lemma edgesUpTo_step (x y : Z) (out : list Z) :
  0 ≤ x < width → 0 ≤ y < height →
  edgesUpTo gray width height init (y * width + x) out →
  edgesUpTo gray width height init (y * width + x + 1)
    (sobelStep gray width height y out x).
Proof.
  intros Hx Hy [Hlen Hout]. rewrite sobelStep_paintEdge.
  split; [by rewrite paintEdge_len|]. intros j.
  rewrite paintEdge_at by nia. rewrite Hout.
  destruct (decide ((y * width + x) * 4 ≤ j < (y * width + x) * 4 + 4))
    as [Hj|Hj].
  - assert (0 ≤ y * width) as Hyw by nia.
    destruct (decide (0 ≤ j < 4 * (y * width + x + 1))) as [_|Hn]; [|lia].
    f_equal.
    assert (j / 4 = y * width + x) as -> by lia.
    assert ((y * width + x) mod width = x) as ->
      by (rewrite Z.add_comm, Z.mod_add by lia; apply Z.mod_small; lia).
    assert ((y * width + x) / width = y) as ->
      by (rewrite Z.add_comm, Z.div_add by lia; rewrite Z.div_small; lia).
    repeat case_decide; try done; lia.
  - repeat case_decide; try done; lia.
Qed.

Lemma sobelLoops_edges :
  edgesUpTo gray width height init (width * height)
    (sobelLoops gray width height init).
Proof.
  rewrite (Z.mul_comm width height). unfold sobelLoops.
  apply (fold_left_seqZ_inv
           (λ y o, edgesUpTo gray width height init (y * width) o));
    [done| |].
  - split; [done|]. intros j. by rewrite decide_False by lia.
  - intros y o Hy Ho.
    replace ((y + 1) * width) with (y * width + width) by lia.
    apply (fold_left_seqZ_inv
             (λ x o, edgesUpTo gray width height init (y * width + x) o));
      [done|by rewrite Z.add_0_r|].
    intros x o' Hx Ho'. rewrite Z.add_assoc. by apply edgesUpTo_step.
Qed.
End edges.

Lemma edgeAt_range (gray : list Z) (width height x y : Z) :
  0 ≤ edgeAt gray width height x y ≤ 255.
Proof. apply toUint8Clamp_range. Qed.

Lemma lookup_appended (σ : store) (a b : ImageData.t) (i : nat) :
  (i < length σ)%nat → ((σ ++ [a]) ++ [b]) !! i = σ !! i.
Proof.
  intros Hi. rewrite lookup_app_l by (rewrite length_app; simpl; lia).
  by rewrite lookup_app_l.
Qed.

(** X10.  With a 2D context and a source of [width * height] pixels,
    [applySobelFilter] returns a new object of the same width and height, of
    [width * height] pixels, each of them opaque and gray: its R, G and B
    bytes are the clamped gradient magnitude computed, at its column and row,
    on the grayscale of the source, a byte between 0 and 255, and its alpha
    is 255 whatever the alpha of the source.  The source object, like every
    object that existed before the call, is left as it was. *)
Theorem sobel_output_is_opaque_gray
    (σ : store) (src : nat) (img : ImageData.t) (width height : Z) :
  0 ≤ width → 0 ≤ height →
  σ !! src = Some img →
  len (ImageData.data img) = 4 * (width * height) →
  ∃ (out : nat) (σ' : store) (outputData : list Z),
    applySobelFilter (Some src) width height true σ = (Ok out, σ')
    ∧ σ !! out = None
    ∧ (∀ i, (i < length σ)%nat → σ' !! i = σ !! i)
    ∧ σ' !! out = Some (ImageData.mk width height outputData)
    ∧ len outputData = 4 * (width * height)
    ∧ ∀ x y, 0 ≤ x < width → 0 ≤ y < height →
        let e :=
          edgeAt (convertToGrayscaleInPlace (ImageData.data img))
            width height x y in
        let i := (y * width + x) * 4 in
        0 ≤ e ≤ 255
        ∧ readAt outputData i = Some e
        ∧ readAt outputData (i + 1) = Some e
        ∧ readAt outputData (i + 2) = Some e
        ∧ readAt outputData (i + 3) = Some 255.
Proof.
  intros Hw Hh Hsrc Hlen.
  pose proof (lookup_lt_Some _ _ _ Hsrc) as Hlt.
  set (zeros := replicate (Z.to_nat (width * height * 4)) 0).
  assert (len zeros = 4 * (width * height)) as Hzeros.
  { unfold zeros. rewrite len_replicate. nia. }
  unfold applySobelFilter, createImageData. cbn [negb]. fold zeros.
  rewrite dataOf_new, dataOf_old by done. cbn [ImageData.data].
  assert (dataOf σ src = ImageData.data img) as ->.
  { unfold dataOf. by rewrite Hsrc. }
  rewrite typedArraySet_same_length by (unfold len in *; lia).
  rewrite setData_new. cbn [ImageData.width ImageData.height].
  set (gray := convertToGrayscaleInPlace (ImageData.data img)).
  set (σ2 := σ ++ [ImageData.mk width height gray]).
  rewrite (dataOf_new σ2).
  assert (dataOf σ2 (length σ) = gray) as ->.
  { unfold σ2. by rewrite dataOf_new. }
  cbn [ImageData.data]. rewrite setData_new.
  cbn [ImageData.width ImageData.height].
  destruct (sobelLoops_edges gray zeros width height Hw Hh Hzeros)
    as [Hout Hcells].
  set (outputData := sobelLoops gray width height zeros) in *.
  exists (length σ2), (σ2 ++ [ImageData.mk width height outputData]),
    outputData.
  split; [done|]. unfold σ2.
  split; [apply lookup_ge_None; rewrite length_app; simpl; lia|].
  split; [intros i Hi; by apply lookup_appended|].
  split; [by rewrite lookup_app_r, Nat.sub_diag by lia|].
  split; [lia|].
  intros x y Hx Hy. set (i := (y * width + x) * 4).
  split; [apply edgeAt_range|].
  assert (0 ≤ y * width + x < width * height) as Hp by nia.
  rewrite !Hcells. rewrite !decide_True by (unfold i; lia).
  assert (∀ c, 0 ≤ c < 4 → (i + c) / 4 = y * width + x) as Hdiv
    by (intros; unfold i; lia).
  assert (∀ c, 0 ≤ c < 4 → (i + c) mod 4 = c) as Hmod
    by (intros; unfold i; lia).
  pose proof (Hdiv 0 ltac:(lia)) as Hdiv0. rewrite Z.add_0_r in Hdiv0.
  pose proof (Hmod 0 ltac:(lia)) as Hmod0. rewrite Z.add_0_r in Hmod0.
  rewrite Hdiv0, Hmod0, !Hdiv, !Hmod by lia.
  assert ((y * width + x) mod width = x) as ->
    by (rewrite Z.add_comm, Z.mod_add by lia; apply Z.mod_small; lia).
  assert ((y * width + x) / width = y) as ->
    by (rewrite Z.add_comm, Z.div_add by lia; rewrite Z.div_small; lia).
  repeat split; repeat case_decide; try done; unfold i in *; lia.
Qed.

Lemma sobel_output_witness :
  ∃ (out : nat) (σ' : store) (outputData : list Z),
    applySobelFilter (Some 0%nat) 2 1 true
      [ImageData.mk 2 1 [0; 0; 0; 255; 255; 255; 255; 7]] = (Ok out, σ')
    ∧ σ' !! out = Some (ImageData.mk 2 1 outputData)
    ∧ len outputData = 4 * (2 * 1).
Proof.
  destruct (sobel_output_is_opaque_gray
              [ImageData.mk 2 1 [0; 0; 0; 255; 255; 255; 255; 7]] 0%nat
              (ImageData.mk 2 1 [0; 0; 0; 255; 255; 255; 255; 7]) 2 1
              ltac:(lia) ltac:(lia) eq_refl eq_refl)
    as (out & σ' & outputData & Hrun & _ & _ & Hout & Hlen & _).
  by exists out, σ', outputData.
Defined.

(** The fill loop paints the whole array opaque black. *)
Lemma fill_opaque_black (n : nat) (zeros : list Z) :
  len zeros = 4 * Z.of_nat n →
  fold_left fillOpaqueBlackStep (pixelIterations zeros) zeros
  = solid n 0 0 0 255.
Proof.
  intros Hlen. apply (paintedUpTo_all n zeros Hlen).
  unfold pixelIterations. replace (Z.to_nat ((len zeros + 3) / 4)) with n by lia.
  apply (fold_left_seq_inv
           (λ (k : nat) o, paintedUpTo n zeros (Z.of_nat k) o)
           fillOpaqueBlackStep n 0%nat zeros).
  - split; [done|]. intros j. by rewrite decide_False by lia.
  - intros k o Hk Ho.
    replace (Z.of_nat (S k)) with (Z.of_nat k + 1) by lia.
    replace (fillOpaqueBlackStep o k) with (paintBlack o (Z.of_nat k)).
    + apply (paintBlack_step n zeros Hlen); [lia|done].
    + unfold paintBlack, fillOpaqueBlackStep.
      by replace (4 * Z.of_nat k) with (Z.of_nat k * 4) by lia.
Qed.





Lemma typedArraySet_Throw (target source : list Z) :
  (∃ e, typedArraySet target source = Throw e)
  ↔ (length target < length source)%nat.
Proof.
  unfold typedArraySet.
  destruct (Nat.ltb_spec (length target) (length source)).
  - split; [done|]. by eexists.
  - split; [by intros [e ?]|lia].
Qed.



(** ** Pixel access *)

Lemma floor_ge (w : Z) (x : Q) : (inject_Z w <= x)%Q ↔ w ≤ Js.floor x.
Proof.
  unfold Js.floor. split.
  - intros H. apply Qfloor_resp_le in H. by rewrite Qfloor_Z in H.
  - intros H. apply Qle_trans with (inject_Z (Qfloor x)); [|apply Qfloor_le].
    by rewrite <- Zle_Qle.
Qed.

Lemma floor_negative (x : Q) : (x < 0)%Q ↔ Js.floor x < 0.
Proof.
  pose proof (floor_ge 0 x) as H. change (inject_Z 0) with 0%Q in H.
  split.
  - intros Hx. apply Z.nle_gt. intros H0. apply H in H0.
    by apply Qlt_not_le in Hx.
  - intros Hf. apply Qnot_le_lt. intros H0. apply H in H0. lia.
Qed.

(** The bounds test of [getPixelColor], on the floored coordinates. *)
Lemma getPixelColor_guard (height : Z) (x y : Q) (width : Z) :
  Js.Qltb x 0 || Qle_bool (inject_Z width) x
  || Js.Qltb y 0 || Qle_bool (inject_Z height) y
  = negb ((0 <=? Js.floor x) && (Js.floor x <? width)
          && (0 <=? Js.floor y) && (Js.floor y <? height)).
Proof.
  apply eq_true_iff_eq.
  rewrite negb_true_iff, <- not_true_iff_false.
  rewrite !orb_true_iff, !andb_true_iff, !Qltb_lt, !Qle_bool_iff.
  rewrite !floor_negative, !floor_ge, !Z.leb_le, !Z.ltb_lt. lia.
Qed.

(** On an image whose array has [width * height] pixels, [getPixelColor]
    with the width of the image. *)
Lemma getPixelColor_inside (imageData : ImageData.t) (x y : Q) :
  let width := ImageData.width imageData in
  let height := ImageData.height imageData in
  let data := ImageData.data imageData in
  let index := (Js.floor y * width + Js.floor x) * 4 in
  len data = 4 * (width * height) →
  getPixelColor imageData x y width
  = if (0 <=? Js.floor x) && (Js.floor x <? width)
       && (0 <=? Js.floor y) && (Js.floor y <? height)
    then Some (Pixel.mk (readAt data index) (readAt data (index + 1))
                 (readAt data (index + 2)) (readAt data (index + 3)))
    else None.
Proof.
  intros width height data index Hlen. unfold getPixelColor.
  rewrite getPixelColor_guard. fold width height data index.
  destruct (_ && _ && _ && _) eqn:Hin; cbn [negb]; [|done].
  rewrite !andb_true_iff, !Z.leb_le, !Z.ltb_lt in Hin.
  destruct (Z.leb_spec (len data) (index + 3)) as [Hout|_]; [|done].
  unfold index in Hout. nia.
Qed.

(** X14.  On an image whose array has [width * height] pixels,
    [getPixelColor] with the width of the image returns [null] exactly for
    the coordinates outside the image ([x < 0], [x >= width], [y < 0] or
    [y >= height]); inside, the four channels of the result are bytes of the
    array, none is [undefined]: the second bounds check of the source never
    fires on such an image. *)
Theorem getPixelColor_null_iff_outside (imageData : ImageData.t) (x y : Q) :
  let width := ImageData.width imageData in
  let height := ImageData.height imageData in
  len (ImageData.data imageData) = 4 * (width * height) →
  (getPixelColor imageData x y width = None
   ↔ (x < 0)%Q ∨ (inject_Z width <= x)%Q
     ∨ (y < 0)%Q ∨ (inject_Z height <= y)%Q)
  ∧ ∀ p, getPixelColor imageData x y width = Some p →
      ∃ r g b a, p = Pixel.mk (Some r) (Some g) (Some b) (Some a).
Proof.
  cbn zeta. intros Hlen.
  rewrite (getPixelColor_inside imageData x y Hlen).
  set (width := ImageData.width imageData) in *.
  set (height := ImageData.height imageData) in *.
  rewrite !floor_negative, !floor_ge.
  destruct (_ && _ && _ && _) eqn:Hin.
  - rewrite !andb_true_iff, !Z.leb_le, !Z.ltb_lt in Hin. split.
    + split; [done|lia].
    + intros p [= <-].
      set (index := (Js.floor y * width + Js.floor x) * 4).
      assert (0 ≤ index ∧ index + 3 < len (ImageData.data imageData))
        as [H0 H3] by (unfold index; nia).
      destruct (readAt_in_range (ImageData.data imageData) index) as [r ->];
        [lia|].
      destruct (readAt_in_range (ImageData.data imageData) (index + 1))
        as [g ->]; [lia|].
      destruct (readAt_in_range (ImageData.data imageData) (index + 2))
        as [b ->]; [lia|].
      destruct (readAt_in_range (ImageData.data imageData) (index + 3))
        as [a ->]; [lia|].
      by exists r, g, b, a.
  - split; [|done]. split; [|done]. intros _.
    apply not_true_iff_false in Hin.
    rewrite !andb_true_iff, !Z.leb_le, !Z.ltb_lt in Hin. lia.
Qed.

Lemma getPixelColor_null_witness :
  getPixelColor (ImageData.mk 2 1 [1; 2; 3; 4; 5; 6; 7; 8]) (5 # 2) 0 2 = None
  ↔ ((5 # 2) < 0)%Q ∨ (inject_Z 2 <= 5 # 2)%Q
    ∨ (0 < 0)%Q ∨ (inject_Z 1 <= 0)%Q.
Proof.
  exact (proj1 (getPixelColor_null_iff_outside
                  (ImageData.mk 2 1 [1; 2; 3; 4; 5; 6; 7; 8]) (5 # 2) 0
                  eq_refl)).
Defined.

(** X15.  [setPixelAlpha] at the start index of a pixel, then
    [getPixelColor] at that pixel: the alpha read back is the value written,
    brought into 0..255, and the R, G and B read back are the ones read
    before; [getPixelColor] at any other pixel gives what it gave before. *)
Theorem setPixelAlpha_getPixelColor
    (imageData : ImageData.t) (x y alphaValue : Z) :
  let width := ImageData.width imageData in
  let height := ImageData.height imageData in
  let updated := setPixelAlpha imageData ((y * width + x) * 4) alphaValue in
  len (ImageData.data imageData) = 4 * (width * height) →
  0 ≤ x < width → 0 ≤ y < height →
  (∃ r g b a,
     getPixelColor imageData (inject_Z x) (inject_Z y) width
     = Some (Pixel.mk (Some r) (Some g) (Some b) (Some a))
     ∧ getPixelColor updated (inject_Z x) (inject_Z y) width
       = Some (Pixel.mk (Some r) (Some g) (Some b)
                 (Some (Z.max 0 (Z.min 255 alphaValue)))))
  ∧ ∀ x' y' : Z, (x', y') ≠ (x, y) →
      getPixelColor updated (inject_Z x') (inject_Z y') width
      = getPixelColor imageData (inject_Z x') (inject_Z y') width.
Proof.
  intros width height updated Hlen Hx Hy.
  set (data := ImageData.data imageData) in *.
  set (index := (y * width + x) * 4).
  assert (0 ≤ index ∧ index + 3 < len data) as [H0 H3] by (unfold index; nia).
  assert (updated
          = ImageData.mk width height
              (writeAt data (index + 3)
                 (Some (Z.max 0 (Z.min 255 alphaValue))))) as Hupd.
  { unfold updated, setPixelAlpha. fold data index.
    destruct (Z.leb_spec 0 index); [|lia].
    destruct (Z.ltb_spec (index + 3) (len data)); [|lia]. done. }
  assert (len (ImageData.data updated)
          = 4 * (ImageData.width updated * ImageData.height updated))
    as Hlen'.
  { rewrite Hupd. cbn [ImageData.data ImageData.width ImageData.height].
    by rewrite len_writeAt. }
  assert (ImageData.width updated = width) as Hw by (by rewrite Hupd).
  pose proof (λ qx qy, getPixelColor_inside updated qx qy Hlen') as Hget'.
  cbn zeta in Hget'. rewrite Hw in Hget'.
  pose proof (λ qx qy, getPixelColor_inside imageData qx qy Hlen) as Hget.
  cbn zeta in Hget. fold width in Hget. split.
  - destruct (readAt_in_range data index) as [r Hr]; [lia|].
    destruct (readAt_in_range data (index + 1)) as [g Hg]; [lia|].
    destruct (readAt_in_range data (index + 2)) as [b Hb]; [lia|].
    destruct (readAt_in_range data (index + 3)) as [a Ha]; [lia|].
    exists r, g, b, a.
    rewrite Hget, Hget'. unfold Js.floor. rewrite !Qfloor_Z.
    fold height. rewrite Hupd.
    cbn [ImageData.data ImageData.width ImageData.height].
    fold data index.
    destruct (Z.leb_spec 0 x); [|lia]. destruct (Z.ltb_spec x width); [|lia].
    destruct (Z.leb_spec 0 y); [|lia]. destruct (Z.ltb_spec y height); [|lia].
    cbn [andb]. rewrite Hr, Hg, Hb, Ha. split; [done|].
    rewrite !readAt_writeAt_ne by lia.
    rewrite readAt_writeAt_eq by lia. rewrite Hr, Hg, Hb.
    do 3 f_equal. cbn [toUint8Clamp]. lia.
  - intros x' y' Hne. rewrite Hget, Hget'.
    unfold Js.floor. rewrite !Qfloor_Z. fold height. rewrite Hupd.
    cbn [ImageData.data ImageData.width ImageData.height]. fold data.
    destruct (_ && _ && _ && _) eqn:Hin; [|done].
    rewrite !andb_true_iff, !Z.leb_le, !Z.ltb_lt in Hin.
    assert (y' * width + x' ≠ y * width + x) as Hp.
    { intros Heq. apply Hne.
      assert (y' = y) as -> by nia. f_equal. lia. }
    rewrite !readAt_writeAt_ne by (unfold index; lia). done.
Qed.

Lemma setPixelAlpha_getPixelColor_witness :
  ∃ r g b a,
    getPixelColor (ImageData.mk 2 1 [1; 2; 3; 4; 5; 6; 7; 8])
      (inject_Z 1) (inject_Z 0) 2
    = Some (Pixel.mk (Some r) (Some g) (Some b) (Some a))
    ∧ getPixelColor
        (setPixelAlpha (ImageData.mk 2 1 [1; 2; 3; 4; 5; 6; 7; 8])
           ((0 * 2 + 1) * 4) 300)
        (inject_Z 1) (inject_Z 0) 2
      = Some (Pixel.mk (Some r) (Some g) (Some b)
                (Some (Z.max 0 (Z.min 255 300)))).
Proof.
  exact (proj1 (setPixelAlpha_getPixelColor
                  (ImageData.mk 2 1 [1; 2; 3; 4; 5; 6; 7; 8]) 1 0 300
                  eq_refl ltac:(cbn; lia) ltac:(cbn; lia))).
Defined.

(** X16.  [setPixelAlpha] writes nothing when the four bytes that start at
    the index do not all lie in the array (a negative index, or an index
    within three bytes of the end); otherwise it changes the byte at
    [index + 3] only, to the alpha value brought into 0..255, and keeps the
    width, the height and the length of the array. *)
Theorem setPixelAlpha_bounds
    (imageData : ImageData.t) (pixelStartIndex alphaValue : Z) :
  let data := ImageData.data imageData in
  let updated := setPixelAlpha imageData pixelStartIndex alphaValue in
  (pixelStartIndex < 0 ∨ len data ≤ pixelStartIndex + 3 →
   updated = imageData)
  ∧ ImageData.width updated = ImageData.width imageData
  ∧ ImageData.height updated = ImageData.height imageData
  ∧ len (ImageData.data updated) = len data
  ∧ (∀ j, j ≠ pixelStartIndex + 3 →
       readAt (ImageData.data updated) j = readAt data j)
  ∧ (0 ≤ pixelStartIndex → pixelStartIndex + 3 < len data →
     readAt (ImageData.data updated) (pixelStartIndex + 3)
     = Some (Z.max 0 (Z.min 255 alphaValue))).
Proof.
  cbn zeta. unfold setPixelAlpha.
  destruct (Z.leb_spec 0 pixelStartIndex) as [H0|H0];
    destruct (Z.ltb_spec (pixelStartIndex + 3)
                (len (ImageData.data imageData))) as [H3|H3];
    cbn [andb ImageData.data ImageData.width ImageData.height];
    repeat split; try done; try lia.
  - apply len_writeAt.
  - intros j Hj. apply readAt_writeAt_ne. lia.
  - intros _ _. rewrite readAt_writeAt_eq by lia. cbn [toUint8Clamp].
    f_equal. lia.
Qed.

Lemma setPixelAlpha_bounds_witness :
  setPixelAlpha (ImageData.mk 1 1 [1; 2; 3; 4]) 1 0
  = ImageData.mk 1 1 [1; 2; 3; 4].
Proof.
  apply (proj1 (setPixelAlpha_bounds (ImageData.mk 1 1 [1; 2; 3; 4]) 1 0)).
  right. vm_compute. discriminate.
Defined.

(** ** The estimators on byte arrays *)

Lemma bytes_readAt (data : list Z) (i v : Z) :
  bytes data → readAt data i = Some v → 0 ≤ v ≤ 255.
Proof.
  unfold bytes, readAt. intros Hall. destruct (i <? 0); [done|].
  intros Hv. by apply (Forall_lookup_1 _ _ _ _ Hall Hv).
Qed.

Lemma sumAt_bounds (data offsets : list Z) (c : Z) :
  bytes data →
  0 ≤ sumAt data offsets c ≤ 255 * Z.of_nat (length offsets).
Proof.
  intros Hall. unfold sumAt. induction offsets as [|o offsets IH].
  - simpl. lia.
  - cbn [fmap list_fmap foldr length].
    assert (0 ≤ default 0 (readAt data (o + c)) ≤ 255) as Hv.
    { destruct (readAt data (o + c)) as [v|] eqn:Hr; cbn; [|lia].
      by apply (bytes_readAt data (o + c)). }
    lia.
Qed.

Lemma byteValued_quotient (s n : Z) :
  0 < n → 0 ≤ s ≤ 255 * n →
  byteValued (Some (inject_Z s / inject_Z n)%Q).
Proof.
  intros Hn Hs. eexists. split; [reflexivity|].
  assert (0 < inject_Z n)%Q as Hn' by (change 0%Q with (inject_Z 0); by rewrite <- Zlt_Qlt).
  split.
  - apply Qle_shift_div_l; [done|]. rewrite Qmult_0_l.
    change 0%Q with (inject_Z 0). rewrite <- Zle_Qle. lia.
  - apply Qle_shift_div_r; [done|].
    change 255%Q with (inject_Z 255). rewrite <- inject_Z_mult, <- Zle_Qle.
    lia.
Qed.

Lemma byteValued_rounded (s n : Z) :
  0 < n → 0 ≤ s ≤ 255 * n →
  byteValued (Some (inject_Z (Js.round (inject_Z s / inject_Z n)%Q))).
Proof.
  intros Hn Hs. eexists. split; [reflexivity|].
  rewrite round_div by done.
  change 0%Q with (inject_Z 0). change 255%Q with (inject_Z 255).
  rewrite <- !Zle_Qle. split.
  - apply Z.div_pos; lia.
  - apply Z.lt_succ_r. apply Z.div_lt_upper_bound; lia.
Qed.

Lemma byteValued_byteOrZero (data : list Z) (k : Z) :
  bytes data → 0 ≤ k → byteValued (byteOrZero data k).
Proof.
  intros Hall Hk. unfold byteOrZero.
  destruct (Z.ltb_spec k (len data)) as [Hin|Hout].
  - destruct (readAt_in_range data k) as [v Hv]; [lia|]. rewrite Hv.
    pose proof (bytes_readAt data k v Hall Hv).
    exists (inject_Z v). split; [done|].
    change 0%Q with (inject_Z 0). change 255%Q with (inject_Z 255).
    by rewrite <- !Zle_Qle.
  - exists 0%Q. split; [done|]. split; [done|]. vm_compute. discriminate.
Qed.

(** X17.  On an array of bytes both estimators return colors whose channels
    are numbers between 0 and 255, never [NaN]: the estimator of
    [removeBackground], for sample points that are not negative (with its
    fallback when no sample resolves), and [sampleAverageColor] whenever it
    returns a color. *)
Theorem estimates_are_byte_valued
    (data : list Z) (width height : Z)
    (points : list (Z * Z)) (qpoints : list (Q * Q)) :
  bytes data → 1 ≤ width → 1 ≤ height →
  Forall (λ p, 0 ≤ p.1 ∧ 0 ≤ p.2) points →
  (let avgBg := averageBackground data width height points in
   byteValued (red avgBg) ∧ byteValued (green avgBg)
   ∧ byteValued (blue avgBg))
  ∧ ∀ c, sampleAverageColor data width height qpoints = Some c →
      byteValued (red c) ∧ byteValued (green c) ∧ byteValued (blue c).
Proof.
  intros Hall Hw Hh Hpos. split.
  - cbn zeta. rewrite averageBackground_mean by done.
    set (offsets := sampleOffset width height <$> _).
    case_decide as Hempty; cbn [red green blue].
    + by repeat split; apply byteValued_byteOrZero.
    + assert (0 < Z.of_nat (length offsets)) as Hn.
      { destruct offsets; [done|simpl; lia]. }
      unfold meanAt.
      repeat split; apply byteValued_quotient; try done;
        by apply sumAt_bounds.
  - intros c. rewrite sampleAverageColor_mean by done.
    set (indices := sampleIndex width <$> _).
    case_decide as Hempty; [done|]. intros [= <-]. cbn [red green blue].
    assert (0 < Z.of_nat (length indices)) as Hn.
    { destruct indices; [done|simpl; lia]. }
    unfold roundedMeanAt.
    repeat split; apply byteValued_rounded; try done; by apply sumAt_bounds.
Qed.

Lemma estimates_are_byte_valued_witness :
  byteValued (red (averageBackground [10; 20; 30; 255] 1 1 (samplePoints 1 1))).
Proof.
  destruct (estimates_are_byte_valued [10; 20; 30; 255] 1 1
              (samplePoints 1 1) [])
    as [(Hred & _) _].
  - unfold bytes. repeat constructor; lia.
  - lia.
  - lia.
  - unfold samplePoints. repeat constructor; cbn; lia.
  - exact Hred.
Defined.

(** X18.  On an image whose array has [width * height] pixels,
    [sampleAverageColor] on a single point is [getPixelColor] at that point
    without the alpha: [null] when the point is outside the image, the R, G
    and B bytes of the pixel otherwise (the mean of one sample, rounded, is
    the sample). *)
Theorem sampleAverageColor_single_point
    (imageData : ImageData.t) (x y : Q) :
  let width := ImageData.width imageData in
  let height := ImageData.height imageData in
  let data := ImageData.data imageData in
  1 ≤ width → 1 ≤ height →
  len data = 4 * (width * height) →
  sampleAverageColor data width height [(x, y)]
  = (λ p, mkRgb (Js.ofByte (Pixel.r p)) (Js.ofByte (Pixel.g p))
            (Js.ofByte (Pixel.b p)))
      <$> getPixelColor imageData x y width.
Proof.
  cbn zeta. intros Hw Hh Hlen.
  rewrite (getPixelColor_inside imageData x y Hlen).
  set (width := ImageData.width imageData) in *.
  set (height := ImageData.height imageData) in *.
  set (data := ImageData.data imageData) in *.
  rewrite sampleAverageColor_mean by done.
  unfold inBounds, sampleIndex. cbn [fst snd].
  destruct (_ && _ && _ && _) eqn:Hin.
  - pose proof Hin as Hin'.
    rewrite !andb_true_iff, !Z.leb_le, !Z.ltb_lt in Hin'.
    set (index := (Js.floor y * width + Js.floor x) * 4).
    assert (0 ≤ index ∧ index + 3 < len data) as [H0 H3]
      by (unfold index; nia).
    rewrite filter_cons_True.
    2:{ cbn [fst snd]. rewrite Hin. cbn [andb].
        apply Is_true_true, Z.ltb_lt. fold index. lia. }
    rewrite filter_nil. cbn [fmap list_fmap fst snd]. fold index.
    rewrite decide_False by done.
    destruct (readAt_in_range data index) as [r Hr]; [lia|].
    destruct (readAt_in_range data (index + 1)) as [g Hg]; [lia|].
    destruct (readAt_in_range data (index + 2)) as [b Hb]; [lia|].
    unfold roundedMeanAt, sumAt.
    cbn [fmap list_fmap foldr length option_fmap option_map].
    replace (index + 0) with index by lia. rewrite Hr, Hg, Hb.
    cbn [default from_option Js.ofByte fmap option_fmap option_map Pixel.r
         Pixel.g Pixel.b].
    unfold Datatypes.id. rewrite !round_div by lia.
    do 2 f_equal; do 2 f_equal; lia.
  - rewrite filter_cons_False.
    2:{ cbn [fst snd]. rewrite Hin. exact (λ H, H). }
    by rewrite filter_nil.
Qed.

Lemma sampleAverageColor_single_point_witness :
  sampleAverageColor [1; 2; 3; 4; 5; 6; 7; 8] 2 1 [(1 # 1, 0 # 1)]%Q
  = (λ p, mkRgb (Js.ofByte (Pixel.r p)) (Js.ofByte (Pixel.g p))
            (Js.ofByte (Pixel.b p)))
      <$> getPixelColor (ImageData.mk 2 1 [1; 2; 3; 4; 5; 6; 7; 8])
            (1 # 1) (0 # 1) 2.
Proof.
  apply (sampleAverageColor_single_point
           (ImageData.mk 2 1 [1; 2; 3; 4; 5; 6; 7; 8]) (1 # 1) (0 # 1));
    cbn; (lia || reflexivity).
Defined.

(** ** The two validators *)

(** X19.  The validator of the utilities, with its default options, is
    stricter than the validator of [removeBackground]: it accepts exactly
    the candidates that [validateImage] accepts, that are instances of
    [File], and whose size is at most 15 MB (instead of 20 MB). *)
Theorem validateImageFile_stricter_than_validateImage (file : Candidate) :
  validateImageFile file (mkValidationOptions None None) = Ok true
  ↔ validateImage file = Ok true
    ∧ ∃ f, file = IsFile f ∧ File.size f ≤ 15 * 1024 * 1024.
Proof.
  unfold validateImageFile, validateImage.
  cbn [maxFileSize allowedTypes default from_option].
  unfold VALID_IMAGE_TYPES, MAX_FILE_SIZE_BYTES.
  destruct file as [|f|f].
  - split; [done|]. by intros [? _].
  - split; [done|]. by intros [_ (f' & ? & _)].
  - destruct (negb _).
    { split; [done|]. by intros [? _]. }
    destruct (Z.ltb_spec (15 * 1024 * 1024) (File.size f)) as [Hbig|Hok].
    + split; [done|]. intros [_ (f' & [= <-] & Hle)]. lia.
    + destruct (Z.ltb_spec (20 * 1024 * 1024) (File.size f)); [lia|].
      split; [|done]. intros _. split; [done|]. by exists f.
Qed.

(** ** Resizing and preprocessing *)

Lemma resizeDimensions_small (w h t : Z) :
  w ≤ t → h ≤ t → resizeDimensions w h t = (w, h, false).
Proof.
  intros Hw Hh. unfold resizeDimensions.
  destruct (Z.ltb_spec t w); [lia|]. destruct (Z.ltb_spec t h); [lia|]. done.
Qed.

(** The resize step, case by case. *)
Lemma resizeDimensions_cases (ow oh t : Z) :
  1 ≤ ow → 1 ≤ oh → 1 ≤ t →
  ∃ nw nh resized,
    resizeDimensions ow oh t = (nw, nh, resized)
    ∧ (resized = true ↔ t < ow ∨ t < oh)
    ∧ (resized = false → nw = ow ∧ nh = oh)
    ∧ 1 ≤ nw ≤ t ∧ 1 ≤ nh ≤ t
    ∧ (resized = true → oh < ow →
       nw = t ∧ nh = Z.max 1 ((2 * (oh * t) + ow) / (2 * ow)))
    ∧ (resized = true → ow ≤ oh →
       nh = t ∧ nw = Z.max 1 ((2 * (ow * t) + oh) / (2 * oh))).
Proof.
  intros Hw Hh Ht. unfold resizeDimensions.
  destruct ((t <? ow) || (t <? oh)) eqn:Hbig.
  - apply orb_true_iff in Hbig. rewrite !Z.ltb_lt in Hbig.
    destruct (Z.ltb_spec oh ow) as [Hlt|Hge].
    + destruct (scaled_side oh ow t) as (Hside & Hrange & _); [lia..|].
      rewrite round_div in Hside by lia.
      eexists _, _, _. split; [reflexivity|].
      split; [split; [intros _; exact Hbig|reflexivity]|].
      split; [intros [=]|]. split; [lia|]. split; [exact Hrange|].
      split; [intros _ _; split; [lia|exact Hside]|].
      intros _ Hle. lia.
    + destruct (scaled_side ow oh t) as (Hside & Hrange & _); [lia..|].
      rewrite round_div in Hside by lia.
      eexists _, _, _. split; [reflexivity|].
      split; [split; [intros _; exact Hbig|reflexivity]|].
      split; [intros [=]|]. split; [exact Hrange|]. split; [lia|].
      split; [intros _ Hlt; lia|].
      intros _ _. split; [lia|exact Hside].
  - apply orb_false_iff in Hbig. rewrite !Z.ltb_ge in Hbig.
    eexists _, _, _. split; [reflexivity|].
    split; [split; [intros [=]|lia]|].
    split; [intros _; split; reflexivity|]. split; [lia|]. split; [lia|].
    split; intros [=].
Qed.



Lemma round_nonpositive (q : Q) : (q <= 0)%Q → Js.round q ≤ 0.
Proof.
  intros Hq. unfold Js.round.
  assert (Qfloor (q + (1 # 2)) ≤ Qfloor (1 # 2)) as H.
  { apply Qfloor_resp_le. Lqa.lra. }
  by vm_compute (Qfloor (1 # 2)) in H.
Qed.

(** X21.  A target side below one pixel: every image of positive
    dimensions is resized to 1 x 1, which exceeds the target. *)
Theorem resize_to_degenerate_target
    (originalWidth originalHeight targetMaxSide : Z) :
  1 ≤ originalWidth → 1 ≤ originalHeight → targetMaxSide ≤ 0 →
  resizeDimensions originalWidth originalHeight targetMaxSide = (1, 1, true).
Proof.
  intros Hw Hh Ht. unfold resizeDimensions.
  destruct (Z.ltb_spec targetMaxSide originalWidth); [|lia]. cbn [orb].
  assert (∀ a b, 1 ≤ a → 1 ≤ b →
            Js.round (inject_Z a / inject_Z b * inject_Z targetMaxSide) ≤ 0)
    as Hround.
  { intros a b Ha Hb. apply round_nonpositive.
    assert (0 < inject_Z a)%Q
      by (change 0%Q with (inject_Z 0); rewrite <- Zlt_Qlt; lia).
    assert (0 < inject_Z b)%Q
      by (change 0%Q with (inject_Z 0); rewrite <- Zlt_Qlt; lia).
    assert (inject_Z targetMaxSide <= 0)%Q
      by (change 0%Q with (inject_Z 0); by rewrite <- Zle_Qle).
    assert (0 < inject_Z a / inject_Z b)%Q by (by apply Qlt_shift_div_l; Lqa.lra).
    Lqa.nra. }
  destruct (originalHeight <? originalWidth).
  - pose proof (Hround originalHeight originalWidth Hh Hw).
    by rewrite !Z.max_l by lia.
  - pose proof (Hround originalWidth originalHeight Hw Hh).
    by rewrite !Z.max_l by lia.
Qed.

Lemma resize_to_degenerate_target_witness :
  resizeDimensions 640 480 0 = (1, 1, true).
Proof.
  apply resize_to_degenerate_target; lia.
Defined.

Lemma Qlt_two_quotient (a b : Z) :
  0 < b → Js.Qltb 2 (inject_Z a / inject_Z b) = true ↔ 2 * b < a.
Proof.
  intros Hb. rewrite Qltb_lt.
  assert (0 < inject_Z b)%Q as Hb'
    by (change 0%Q with (inject_Z 0); by rewrite <- Zlt_Qlt).
  assert (¬ (inject_Z b == 0)%Q) as Hb0 by Lqa.lra.
  rewrite Zlt_Qlt, inject_Z_mult. change (inject_Z 2) with 2%Q.
  split.
  - intros H. apply (Qmult_lt_r _ _ _ Hb') in H.
    assert (inject_Z a / inject_Z b * inject_Z b == inject_Z a)%Q as Heq
      by (field; done).
    by rewrite Heq in H.
  - intros H. by apply Qlt_shift_div_l.
Qed.

(** Rounding half up stays above the exact quotient minus one half. *)
Lemma round_half_up_lower (a b : Z) :
  0 < b → 2 * a - b < 2 * ((2 * a + b) / (2 * b)) * b.
Proof.
  intros Hb.
  pose proof (Z.div_mod (2 * a + b) (2 * b) ltac:(lia)).
  pose proof (Z.mod_pos_bound (2 * a + b) (2 * b) ltac:(lia)).
  nia.
Qed.

(** After a resize the shorter side was shrunk by more than two only if the
    longer one was. *)
Lemma shorter_side_ratio (other longer t : Z) :
  1 ≤ other → other ≤ longer → 1 ≤ t → longer ≤ 2 * t →
  other ≤ 2 * Z.max 1 ((2 * (other * t) + longer) / (2 * longer)).
Proof.
  intros Ho Hol Ht H2.
  pose proof (round_half_up_lower (other * t) longer ltac:(lia)) as Hlow.
  set (q := (2 * (other * t) + longer) / (2 * longer)) in *.
  assert (other - 1 < 2 * q) by nia. lia.
Qed.

Lemma ensureProcessableImage_inr file options browser toDataURL out :
  ensureProcessableImage file options browser toDataURL = inr out →
  ∃ f w h rgba nw nh resized,
    file = IsFile f
    ∧ File.bytes f = File.Picture w h rgba
    ∧ w ≠ 0 ∧ h ≠ 0
    ∧ resizeDimensions w h
        (default MAX_PROCESSING_DIMENSION_SIDE
           (Preprocess.targetMaxSide options))
      = (nw, nh, resized)
    ∧ Preprocess.width out = nw ∧ Preprocess.height out = nh
    ∧ Preprocess.wasResized out = resized
    ∧ Preprocess.originalWidth out = w ∧ Preprocess.originalHeight out = h
    ∧ Preprocess.smoothing (Preprocess.dataUrl out)
      = if resized
           && (Js.Qltb 2 (inject_Z w / inject_Z nw)
               || Js.Qltb 2 (inject_Z h / inject_Z nh))
        then Preprocess.high else Preprocess.medium.
Proof.
  unfold ensureProcessableImage.
  destruct (validateImageFile _ _) eqn:Hv; [|done].
  destruct file as [|f|f]; try done.
  unfold loadImageElement.
  destruct (negb (readerGivesString browser)); [done|].
  destruct (File.bytes f) as [|w h rgba] eqn:Hb; [done|].
  cbn [decodeImage Image.naturalWidth Image.naturalHeight].
  destruct (Z.eqb_spec w 0); [done|]. destruct (Z.eqb_spec h 0); [done|].
  cbn [orb].
  destruct (resizeDimensions w h _) as [[nw nh] resized] eqn:Hr.
  destruct (negb (context2d browser)); [done|].
  destruct (negb toDataURL); [done|]. intros [= <-].
  exists f, w, h, rgba, nw, nh, resized. by repeat split.
Qed.





(** ** The processing button *)

(** The scaling of the progress, on the values that [removeBackground]
    reports: checked on 0..100, in binary64. *)
Lemma scaleProgress_table :
  forallb (λ v, bool_decide (scaleProgress v = Some (5 + 95 * v / 100)))
    (seqZ 0 101) = true.
Proof. vm_compute. reflexivity. Qed.

Lemma scaleProgress_percent (v : Z) :
  0 ≤ v ≤ 100 → scaleProgress v = Some (5 + 95 * v / 100).
Proof.
  intros Hv. pose proof scaleProgress_table as H.
  rewrite forallb_forall in H.
  assert (In v (seqZ 0 101)) as Hin by (apply list_elem_of_In, elem_of_seqZ; lia).
  apply H in Hin. by apply bool_decide_eq_true in Hin.
Qed.

Lemma scaleProgress_trace (trace : list Z) :
  percentages trace →
  scaleProgress <$> trace = Some <$> ((λ v, 5 + 95 * v / 100) <$> trace).
Proof.
  induction 1 as [|v trace Hv _ IH]; [done|].
  cbn [fmap list_fmap]. by rewrite scaleProgress_percent, IH.
Qed.

Lemma nondecreasing_fmap (f : Z → Z) (l : list Z) :
  (∀ a b, a ≤ b → f a ≤ f b) → nondecreasing l → nondecreasing (f <$> l).
Proof.
  intros Hf Hl i j a b Hij. rewrite !list_lookup_fmap.
  destruct (l !! i) as [a'|] eqn:Ha; [|done].
  destruct (l !! j) as [b'|] eqn:Hb; [|done].
  intros [= <-] [= <-]. apply Hf. by apply (Hl i j).
Qed.

Lemma scaled_mono (a b : Z) : a ≤ b → 5 + 95 * a / 100 ≤ 5 + 95 * b / 100.
Proof. lia. Qed.

Section events.
Implicit Types (l : list Event) (trace : list Z).

Lemma progressValues_app l1 l2 :
  progressValues (l1 ++ l2) = progressValues l1 ++ progressValues l2.
Proof. apply omap_app. Qed.

Lemma completions_app l1 l2 :
  completions (l1 ++ l2) = completions l1 ++ completions l2.
Proof. apply omap_app. Qed.

Lemma reportedErrors_app l1 l2 :
  reportedErrors (l1 ++ l2) = reportedErrors l1 ++ reportedErrors l2.
Proof. apply omap_app. Qed.

Lemma progressValues_scaled trace :
  progressValues ((λ p, SetProgress (scaleProgress p)) <$> trace)
  = scaleProgress <$> trace.
Proof. induction trace as [|v trace IH]; [done|]. cbn. by rewrite <- IH. Qed.

Lemma completions_scaled trace :
  completions ((λ p, SetProgress (scaleProgress p)) <$> trace) = [].
Proof. induction trace as [|v trace IH]; [done|]. cbn. by rewrite <- IH. Qed.

Lemma reportedErrors_scaled trace :
  reportedErrors ((λ p, SetProgress (scaleProgress p)) <$> trace) = [].
Proof. induction trace as [|v trace IH]; [done|]. cbn. by rewrite <- IH. Qed.
End events.

(** The ways [processImage] can run, for a selected image. *)
Lemma processImage_cases (selectedImage : Candidate)
    (checking removing : Browser) :
  selectedImage ≠ Missing →
  let opening :=
    [CallOnProcessingStart; SetIsProcessing true; SetProgress (Some 0);
     CallOnError None] in
  (∃ e,
     (validateImage selectedImage = Throw e
      ∨ validateImage selectedImage = Ok true
        ∧ checkImageDimensions selectedImage checking = Throw e)
     ∧ processImage selectedImage checking removing
       = opening ++ catchError e ++ [SetIsProcessing false])
  ∨ (validateImage selectedImage = Ok true
     ∧ checkImageDimensions selectedImage checking = Ok ()
     ∧ processImage selectedImage checking removing
       = opening
         ++ (SetProgress (Some 5)
             :: ((λ p, SetProgress (scaleProgress p))
                   <$> (removeBackground selectedImage true removing).2)
             ++ match (removeBackground selectedImage true removing).1 with
                | Ok processedImageUrl =>
                    [CallOnProcessingComplete processedImageUrl]
                | Throw e => catchError e
                end)
         ++ [SetIsProcessing false]).
Proof.
  intros Hsel opening.
  assert (processImage selectedImage checking removing
          = opening
            ++ match validateImage selectedImage with
               | Throw e => catchError e
               | Ok _ =>
                   match checkImageDimensions selectedImage checking with
                   | Throw e => catchError e
                   | Ok _ =>
                       SetProgress (Some 5)
                       :: let '(settled, progressPercents) :=
                            removeBackground selectedImage true removing in
                          ((λ p, SetProgress (scaleProgress p))
                             <$> progressPercents)
                          ++ match settled with
                             | Ok processedImageUrl =>
                                 [CallOnProcessingComplete processedImageUrl]
                             | Throw e => catchError e
                             end
                   end
               end
            ++ [SetIsProcessing false]) as ->.
  { by destruct selectedImage. }
  pose proof (validateImage_Ok selectedImage) as Htrue.
  destruct (validateImage selectedImage) as [v|e].
  2:{ left. exists e. split; [by left|done]. }
  assert (Ok v = Ok true) as -> by (by eapply Htrue).
  destruct (checkImageDimensions selectedImage checking) as [[]|e].
  2:{ left. exists e. split; [by right|done]. }
  right. do 2 (split; [done|]).
  by destruct (removeBackground selectedImage true removing).
Qed.

(** X24.  The progress shown by [ImageProcessor] during one run of
    [processImage] on a selected image: it is reset to 0, then takes values
    that never go down and lie between 5 and 100 (5 after the dimension
    check, then the scaled progress of [removeBackground]); when the result
    is handed to the parent the last value is 100, otherwise the progress is
    reset to 0 at the end. *)
Theorem processImage_progress
    (selectedImage : Candidate) (checking removing : Browser) :
  selectedImage ≠ Missing →
  let events := processImage selectedImage checking removing in
  ∃ shown : list Z,
    progressValues events
    = Some 0 :: (Some <$> shown)
      ++ (if decide (completions events = []) then [Some 0] else [])
    ∧ nondecreasing shown
    ∧ Forall (λ v, 5 ≤ v ≤ 100) shown
    ∧ (completions events ≠ [] → last shown = Some 100).
Proof.
  intros Hsel events. subst events.
  destruct (processImage_cases selectedImage checking removing Hsel)
    as [(e & _ & ->)|(_ & _ & ->)].
  { exists []. cbn. split; [done|]. split; [apply nondecreasing_nil|].
    split; [by apply Forall_nil|done]. }
  pose proof (removeBackground_progress selectedImage true removing)
    as (Hmono & Hpercent & _ & Hlast).
  set (trace := (removeBackground selectedImage true removing).2) in *.
  set (scaled := (λ v, 5 + 95 * v / 100) <$> trace).
  assert (nondecreasing (5 :: scaled)) as Hshown.
  { apply (nondecreasing_app_bound 5 [5] scaled).
    - apply nondecreasing_singleton.
    - apply nondecreasing_fmap; [apply scaled_mono|done].
    - apply Forall_singleton. lia.
    - apply Forall_fmap. eapply Forall_impl; [exact Hpercent|].
      simpl. lia. }
  assert (Forall (λ v, 5 ≤ v ≤ 100) (5 :: scaled)) as Hrange.
  { apply Forall_cons. split; [lia|]. apply Forall_fmap.
    eapply Forall_impl; [exact Hpercent|]. simpl. lia. }
  exists (5 :: scaled).
  rewrite !progressValues_app, !completions_app. cbn [app].
  change (progressValues (SetProgress (Some 5) :: ?l))
    with (Some 5 :: progressValues l).
  change (completions (SetProgress (Some 5) :: ?l)) with (completions l).
  rewrite !progressValues_app, !completions_app.
  rewrite progressValues_scaled, completions_scaled.
  rewrite scaleProgress_trace by done. fold scaled.
  destruct (removeBackground selectedImage true removing).1 as [url|e] eqn:Hr.
  - cbn. rewrite app_nil_r. split; [done|]. do 2 (split; [done|]).
    intros _. specialize (Hlast eq_refl eq_refl).
    rewrite last_cons. unfold scaled. rewrite fmap_last, Hlast. done.
  - cbn. rewrite app_nil_r.
    split; [by rewrite decide_True by done|]. by repeat split.
Qed.

Lemma processImage_progress_witness :
  ∃ shown : list Z,
    progressValues
      (processImage
         (IsFile (File.mk "image/png" 100
                    (File.Picture 2 1 [45; 0; 0; 255; 9; 9; 9; 255])))
         (mkBrowser true true) (mkBrowser true true))
    = Some 0 :: (Some <$> shown) ++ []
    ∧ last shown = Some 100.
Proof.
  destruct (processImage_progress
              (IsFile (File.mk "image/png" 100
                         (File.Picture 2 1 [45; 0; 0; 255; 9; 9; 9; 255])))
              (mkBrowser true true) (mkBrowser true true) ltac:(discriminate))
    as (shown & Hvalues & _ & _ & Hlast).
  exists shown. split; [exact Hvalues|].
  apply Hlast. vm_compute. discriminate.
Defined.

(** X25.  One run of [processImage] on a selected image tells the parent
    exactly one thing: either the result, once, and no error, when the two
    checks pass and [removeBackground] fulfils its promise; or one error and
    no result.  Either way the run opens with [onProcessingStart] and the
    reset of the error, and its last act is to leave the processing
    state. *)
Theorem processImage_reports_once
    (selectedImage : Candidate) (checking removing : Browser) :
  selectedImage ≠ Missing →
  let events := processImage selectedImage checking removing in
  take 4 events
  = [CallOnProcessingStart; SetIsProcessing true; SetProgress (Some 0);
     CallOnError None]
  ∧ last events = Some (SetIsProcessing false)
  ∧ ((∃ processedImageUrl,
        validateImage selectedImage = Ok true
        ∧ checkImageDimensions selectedImage checking = Ok ()
        ∧ (removeBackground selectedImage true removing).1
          = Ok processedImageUrl
        ∧ completions events = [processedImageUrl]
        ∧ reportedErrors events = [])
     ∨ (∃ e, completions events = [] ∧ reportedErrors events = [e]
             ∧ (validateImage selectedImage = Throw e
                ∨ checkImageDimensions selectedImage checking = Throw e
                ∨ (removeBackground selectedImage true removing).1
                  = Throw e))).
Proof.
  intros Hsel events. subst events.
  destruct (processImage_cases selectedImage checking removing Hsel)
    as [(e & He & ->)|(Hv & Hc & ->)].
  { split; [done|]. split; [done|]. right. exists e.
    split; [done|]. split; [done|]. destruct He as [?|[_ ?]]; auto. }
  split; [done|].
  split; [by rewrite app_assoc, last_snoc|].
  rewrite !completions_app, !reportedErrors_app. cbn [app].
  change (completions (SetProgress (Some 5) :: ?l)) with (completions l).
  change (reportedErrors (SetProgress (Some 5) :: ?l))
    with (reportedErrors l).
  rewrite !completions_app, !reportedErrors_app.
  rewrite completions_scaled, reportedErrors_scaled.
  destruct (removeBackground selectedImage true removing).1 as [url|e].
  - left. by exists url.
  - right. exists e. cbn. auto.
Qed.

Lemma processImage_reports_once_witness :
  last (processImage
          (IsFile (File.mk "image/gif" 100 File.Corrupt))
          (mkBrowser true true) (mkBrowser true true))
  = Some (SetIsProcessing false).
Proof.
  exact (proj1 (proj2 (processImage_reports_once
                         (IsFile (File.mk "image/gif" 100 File.Corrupt))
                         (mkBrowser true true) (mkBrowser true true)
                         ltac:(discriminate)))).
Defined.

Lemma checkImageDimensions_Ok (file : Candidate) (browser : Browser) :
  checkImageDimensions file browser = Ok () →
  ∃ f w h rgba,
    file = IsFile f ∧ File.bytes f = File.Picture w h rgba
    ∧ w ≠ 0 ∧ h ≠ 0 ∧ w ≤ MAX_IMAGE_DIMENSION ∧ h ≤ MAX_IMAGE_DIMENSION.
Proof.
  unfold checkImageDimensions. destruct file as [|f|f]; try done.
  destruct (negb _); [done|].
  destruct (File.bytes f) as [|w h rgba] eqn:Hb; [done|].
  destruct (Z.ltb_spec MAX_IMAGE_DIMENSION w); [done|].
  destruct (Z.ltb_spec MAX_IMAGE_DIMENSION h); [done|]. cbn [orb].
  destruct (Z.eqb_spec w 0); [done|]. destruct (Z.eqb_spec h 0); [done|].
  intros _. by exists f, w, h, rgba.
Qed.

(** X26.  Once [validateImage] and [checkImageDimensions] have accepted a
    file, [removeBackground] on the same file can only fail in three ways:
    the second reading of the file fails, the picture has more than
    30,000,000 pixels (which the dimension check, on the sides only, lets
    through), or the canvas gives no 2D context.  It cannot fail on the
    type, the size, the decoding or a side of the picture any more.  (The
    canvas operations themselves are taken not to fail.) *)
Theorem failures_left_after_the_checks
    (selectedImage : Candidate) (onProgress : bool)
    (checking removing : Browser) (e : Error) :
  validateImage selectedImage = Ok true →
  checkImageDimensions selectedImage checking = Ok () →
  (removeBackground selectedImage onProgress removing).1 = Throw e →
  e = ReadError ∧ readerGivesString removing = false
  ∨ e = TooManyPixels
  ∨ e = ContextUnavailable ∧ context2d removing = false.
Proof.
  intros Hv (f & w & h & rgba & -> & Hb & Hw0 & Hh0 & Hw & Hh)%checkImageDimensions_Ok.
  unfold removeBackground. rewrite Hv, Hb.
  destruct (readerGivesString removing); cbn [negb]; [|intros [= <-]; auto].
  unfold checkDimensions.
  destruct (Z.eqb_spec w 0); [done|]. destruct (Z.eqb_spec h 0); [done|].
  unfold MAX_IMAGE_DIMENSION, MAX_DIMENSION_SIDE in *.
  destruct (Z.ltb_spec 8000 w); [lia|]. destruct (Z.ltb_spec 8000 h); [lia|].
  cbn [orb].
  destruct (MAX_TOTAL_IMAGE_PIXELS <? w * h) eqn:Hpix;
    [intros [= <-]; auto|].
  destruct (context2d removing); cbn [negb]; [|intros [= <-]; auto].
  intros Hthrow. exfalso.
  assert (checkDimensions w h = Ok ()) as Hgate.
  { apply checkDimensions_Ok. apply Z.ltb_ge in Hpix.
    unfold MAX_DIMENSION_SIDE. lia. }
  rewrite (processImageData_completes _ _ _ _ _ _
             (len_getImageData w h rgba) (gate_below_ceiling _ _ Hgate))
    in Hthrow.
  done.
Qed.

Lemma failures_left_witness :
  TooManyPixels = ReadError ∧ readerGivesString (mkBrowser true true) = false
  ∨ TooManyPixels = TooManyPixels
  ∨ TooManyPixels = ContextUnavailable
    ∧ context2d (mkBrowser true true) = false.
Proof.
  apply (failures_left_after_the_checks
           (IsFile (File.mk "image/png" 100 (File.Picture 8000 8000 [])))
           true (mkBrowser true true) (mkBrowser true true) TooManyPixels);
    reflexivity.
Defined.

(** ** The application state *)

(** X27.  Whatever the user and the child components do, starting from
    the initial state, [App] never holds a result and an error at the same
    time, and the file name it keeps is the name of the selected file (the
    empty string when none is selected). *)
Theorem app_state_invariant (actions : list App.Action) :
  let s := fold_left App.handle actions App.initial in
  (App.processedImage s = None ∨ App.error s = None)
  ∧ App.originalFileName s
    = match App.selectedImage s with
      | Some f => Upload.name f
      | None => ""%string
      end.
Proof.
  cbn zeta. induction actions as [|a actions IH] using rev_ind.
  - split; [by left|done].
  - rewrite fold_left_app. cbn [fold_left].
    set (s := fold_left App.handle actions App.initial) in *.
    destruct IH as [Hone Hname].
    destruct a as [file|url|e|[|]]; cbn; auto.
Qed.

Lemma fold_onEvent_scaled (trace : list Z) (s : App.State) :
  fold_left App.onEvent ((λ p, SetProgress (scaleProgress p)) <$> trace) s = s.
Proof. induction trace as [|v trace IH]; [done|]. cbn. apply IH. Qed.

(** X28.  A click on the processing button, with a file selected, leaves
    [App] out of the processing state, with the same file selected, and
    with either the result of [removeBackground] and no error, when the two
    checks passed and the promise was fulfilled, or an error and no result:
    the error of the first step that failed. *)
Theorem click_settles_the_state
    (s : App.State) (f : Upload.t) (checking removing : Browser) :
  App.selectedImage s = Some f →
  let file := IsFile (Upload.file f) in
  let s' := App.clickProcess checking removing s in
  App.isProcessing s' = false
  ∧ App.selectedImage s' = Some f
  ∧ App.originalFileName s' = App.originalFileName s
  ∧ ((∃ url, validateImage file = Ok true
             ∧ checkImageDimensions file checking = Ok ()
             ∧ (removeBackground file true removing).1 = Ok url
             ∧ App.processedImage s' = Some url ∧ App.error s' = None)
     ∨ (∃ e, App.processedImage s' = None ∧ App.error s' = Some e
             ∧ (validateImage file = Throw e
                ∨ validateImage file = Ok true
                  ∧ (checkImageDimensions file checking = Throw e
                     ∨ checkImageDimensions file checking = Ok ()
                       ∧ (removeBackground file true removing).1
                         = Throw e)))).
Proof.
  intros Hsel file s'. subst s'. unfold App.clickProcess, App.selectedCandidate.
  rewrite Hsel. fold file.
  destruct (processImage_cases file checking removing ltac:(done))
    as [(e & He & ->)|(Hv & Hc & ->)].
  - cbn. rewrite Hsel. do 3 (split; [done|]). right. exists e.
    do 2 (split; [done|]). destruct He as [?|[? ?]]; auto.
  - rewrite !fold_left_app. cbn [fold_left App.onEvent].
    rewrite fold_left_app, fold_onEvent_scaled.
    destruct (removeBackground file true removing).1 as [url|e].
    + cbn. rewrite Hsel. do 3 (split; [done|]). left. by exists url.
    + cbn. rewrite Hsel. do 3 (split; [done|]). right. exists e. auto 10.
Qed.

Lemma click_settles_witness :
  App.isProcessing
    (App.clickProcess (mkBrowser true true) (mkBrowser true true)
       (App.handleImageSelect
          (Some (Upload.mk "cat.png"
                   (File.mk "image/png" 100
                      (File.Picture 1 1 [1; 2; 3; 255]))))
          App.initial)) = false.
Proof.
  exact (proj1 (click_settles_the_state
                  (App.handleImageSelect
                     (Some (Upload.mk "cat.png"
                              (File.mk "image/png" 100
                                 (File.Picture 1 1 [1; 2; 3; 255]))))
                     App.initial)
                  (Upload.mk "cat.png"
                     (File.mk "image/png" 100
                        (File.Picture 1 1 [1; 2; 3; 255])))
                  (mkBrowser true true) (mkBrowser true true) eq_refl)).
Defined.

Lemma onEvent_stays_idle (events : list Event) (s : App.State) :
  App.isProcessing s = false →
  CallOnProcessingStart ∉ events →
  App.isProcessing (fold_left App.onEvent events s) = false.
Proof.
  revert s. induction events as [|e events IH]; intros s Hs Hno; [done|].
  cbn [fold_left]. apply IH.
  - destruct e; cbn; try done. exfalso. apply Hno. by left.
  - intros Hin. apply Hno. by right.
Qed.

Local Ltac no_start :=
  cbn; repeat (apply not_elem_of_cons; split; [done|]); apply not_elem_of_nil.

Lemma scaled_has_no_start (trace : list Z) :
  CallOnProcessingStart ∉ (λ p, SetProgress (scaleProgress p)) <$> trace.
Proof. intros (p & [=] & _)%list_elem_of_fmap. Qed.

(** X29.  The parent's [isProcessing] flag does not last: the run of
    [processImage] opens with [onProcessingStart], which sets the flag, and
    with the reset [onError(null)], whose handler clears it in the same
    breath; from then on, through the whole of the run, the flag of [App] is
    [false]. *)
Theorem app_flag_is_cleared_at_once
    (s : App.State) (f : Upload.t) (checking removing : Browser) (n : nat) :
  App.selectedImage s = Some f →
  (4 ≤ n)%nat →
  App.isProcessing
    (fold_left App.onEvent
       (take n (processImage (App.selectedCandidate s) checking removing)) s)
  = false.
Proof.
  intros Hsel Hn. unfold App.selectedCandidate. rewrite Hsel.
  set (file := IsFile (Upload.file f)).
  set (opening := [CallOnProcessingStart; SetIsProcessing true;
                   SetProgress (Some 0); CallOnError None]).
  assert (∃ rest, processImage file checking removing = opening ++ rest
                  ∧ CallOnProcessingStart ∉ rest) as (rest & -> & Hrest).
  { destruct (processImage_cases file checking removing ltac:(done))
      as [(e & _ & ->)|(_ & _ & ->)].
    - eexists. split; [reflexivity|]. no_start.
    - eexists. split; [reflexivity|].
      rewrite !not_elem_of_app, not_elem_of_cons, not_elem_of_app.
      split; [split; [done|]|no_start].
      split; [apply scaled_has_no_start|].
      destruct (removeBackground file true removing).1; no_start. }
  rewrite take_app_ge by (cbn; lia). rewrite fold_left_app.
  apply onEvent_stays_idle; [done|].
  intros Hin. apply Hrest. by eapply subseteq_take.
Qed.

Lemma app_flag_witness :
  App.isProcessing
    (fold_left App.onEvent
       (take 5
          (processImage
             (App.selectedCandidate
                (App.handleImageSelect
                   (Some (Upload.mk "cat.png"
                            (File.mk "image/png" 100
                               (File.Picture 1 1 [1; 2; 3; 255]))))
                   App.initial))
             (mkBrowser true true) (mkBrowser true true)))
       (App.handleImageSelect
          (Some (Upload.mk "cat.png"
                   (File.mk "image/png" 100
                      (File.Picture 1 1 [1; 2; 3; 255]))))
          App.initial))
  = false.
Proof.
  apply (app_flag_is_cleared_at_once
           (App.handleImageSelect
              (Some (Upload.mk "cat.png"
                       (File.mk "image/png" 100
                          (File.Picture 1 1 [1; 2; 3; 255]))))
              App.initial)
           (Upload.mk "cat.png"
              (File.mk "image/png" 100 (File.Picture 1 1 [1; 2; 3; 255])))
           (mkBrowser true true) (mkBrowser true true) 5);
    [reflexivity|lia].
Defined.

(** ** The download name *)

Lemma append_empty (s : string) : ("" ++ s)%string = s.
Proof. reflexivity. Qed.

Lemma append_cons (c : ascii) (s t : string) :
  (String c s ++ t)%string = String c (s ++ t)%string.
Proof. reflexivity. Qed.

Lemma splitOnDot_not_empty (s : string) : splitOnDot s ≠ [].
Proof.
  destruct s as [|c s]; [done|]. cbn [splitOnDot].
  destruct (Ascii.eqb c "."); [done|]. by destruct (splitOnDot s).
Qed.

Lemma splitOnDot_dotless (s : string) : dotless s = true → splitOnDot s = [s].
Proof.
  induction s as [|c s IH]; [done|]. cbn [splitOnDot dotless].
  destruct (Ascii.eqb c "."); [done|]. cbn [negb andb]. intros Hs.
  by rewrite IH.
Qed.

Lemma splitOnDot_extension (base ext : string) :
  dotless ext = true →
  splitOnDot (base ++ "." ++ ext)%string = splitOnDot base ++ [ext].
Proof.
  intros Hext. induction base as [|c base IH].
  - rewrite append_empty, append_cons, append_empty. cbn [splitOnDot].
    change (Ascii.eqb "." ".") with true. cbn iota.
    by rewrite splitOnDot_dotless.
  - rewrite append_cons. cbn [splitOnDot]. rewrite IH.
    destruct (Ascii.eqb c "."); [done|].
    pose proof (splitOnDot_not_empty base).
    by destruct (splitOnDot base).
Qed.

(** Joining what was split gives the string back. *)
Lemma joinWithDot_splitOnDot (s : string) : joinWithDot (splitOnDot s) = s.
Proof.
  induction s as [|c s IH]; [done|]. cbn [splitOnDot].
  pose proof (splitOnDot_not_empty s).
  destruct (Ascii.eqb_spec c ".") as [->|Hc].
  - destruct (splitOnDot s) as [|p ps]; [done|].
    cbn [joinWithDot] in *. by rewrite IH, append_empty, append_cons,
      append_empty.
  - destruct (splitOnDot s) as [|p [|q ps]]; [done|..].
    + cbn [joinWithDot] in *. by rewrite IH.
    + cbn [joinWithDot] in *. by rewrite append_cons, IH.
Qed.

(** X30.  The name under which the result is saved: for a name
    [base.ext], where [ext] has no dot, it is [base-no-bg.png], whatever the
    extension was and however many dots [base] has; a name without any dot
    loses its whole text and gives [-no-bg.png]; without a name the file is
    called [processed-image.png]; and nothing is saved when there is no
    processed image. *)
Theorem download_name
    (processedImage : list Z) (base ext name : string) :
  (dotless ext = true →
   handleDownload (Some processedImage) (base ++ "." ++ ext)%string
   = Some (base ++ "-no-bg.png")%string)
  ∧ (dotless name = true → name ≠ ""%string →
     handleDownload (Some processedImage) name = Some "-no-bg.png"%string)
  ∧ handleDownload (Some processedImage) "" = Some "processed-image.png"%string
  ∧ handleDownload None name = None.
Proof.
  split; [|split; [|done]].
  - intros Hext. unfold handleDownload.
    assert (String.eqb (base ++ "." ++ ext)%string "" = false) as ->.
    { apply String.eqb_neq. by destruct base. }
    rewrite splitOnDot_extension, removelast_last by done.
    by rewrite joinWithDot_splitOnDot.
  - intros Hname Hne. unfold handleDownload.
    apply String.eqb_neq in Hne. rewrite Hne.
    by rewrite splitOnDot_dotless.
Qed.

Lemma download_name_witness :
  handleDownload (Some [1; 2; 3; 0]) ("holiday.2024" ++ "." ++ "jpeg")%string
  = Some ("holiday.2024" ++ "-no-bg.png")%string
  ∧ handleDownload (Some [1; 2; 3; 0]) "README" = Some "-no-bg.png"%string.
Proof.
  destruct (download_name [1; 2; 3; 0] "holiday.2024" "jpeg" "README")
    as (Hext & Hname & _).
  split; [apply Hext; reflexivity|apply Hname; [reflexivity|discriminate]].
Defined.
